(** * absctl: option validation and backup-config assembly

    A shallow embedding of the validation code of [internal/models]
    ([Backup.Validate], [Restore.Validate], [validateFilePrefix],
    [validatePartitionFilters], [parseLocalTimeToUTC], ...) and of
    [internal/config] ([ValidateStorages], [newBackupConfig]), with the
    level check of [internal/logging] and the handling of secret
    references in [internal/flags] and [internal/config/dto], followed by
    the properties proved about them.

    Conventions.
    - A Go [string] is a Rocq [string] (a sequence of bytes).
    - Go [int], [int64] are [Z]; arithmetic that the code performs on them
      is wrapped to 64 bits with [wrap64]; [uint64] with [wrapU64].
    - A Go [error] result is [option error] ([None] is [nil]); a
      [(T, error)] result is [result T].
    - A pointer that the code compares with [nil] is an [option].
    - A method that assigns through its receiver or through a pointer
      returns the value after the call next to its result. *)

From Stdlib Require Import ZArith List String Ascii Bool Lia Permutation Sorted.
From stdpp Require Import base option list gmap strings sorting.

Local Open Scope string_scope.
Local Open Scope Z_scope.

(** ** Go runtime pieces *)

(** [fmt.Errorf(format, args...)]: the format and its operands are kept
    as they are passed; [%w] operands are [AErr]. *)
Inductive error : Type :=
| Errorf (format : string) (args : list arg)
with arg : Type :=
| AStr (s : string)
| AInt (n : Z)
| ARune (r : Z)
| AErr (e : error).

Inductive result (A : Type) : Type :=
| Ok (a : A)
| Err (e : error).
Arguments Ok {A} a.
Arguments Err {A} e.

Definition wrap64 (z : Z) : Z := (z + 2 ^ 63) mod 2 ^ 64 - 2 ^ 63.
Definition wrapU64 (z : Z) : Z := z mod 2 ^ 64.

Definition nonempty (s : string) : bool := negb (String.eqb s "").

(** Bytes of a string. *)
Definition byte_of (a : ascii) : Z := Z.of_nat (nat_of_ascii a).
Definition bytes (s : string) : list Z := map byte_of (list_ascii_of_string s).

(** *** unicode/utf8 *)

Definition RuneError : Z := 65533.
Definition RuneSelf : Z := 128.

Definition cont (b : Z) : bool := (128 <=? b) && (b <=? 191).
Definition lo3 (b0 : Z) : Z := if b0 =? 224 then 160 else 128.
Definition hi3 (b0 : Z) : Z := if b0 =? 237 then 159 else 191.
Definition lo4 (b0 : Z) : Z := if b0 =? 240 then 144 else 128.
Definition hi4 (b0 : Z) : Z := if b0 =? 244 then 143 else 191.

(** [utf8.DecodeRuneInString]: the first rune of [s] and its width in
    bytes; [(RuneError, 0)] on the empty string and [(RuneError, 1)] on an
    invalid or truncated encoding. *)
Definition DecodeRune (s : list Z) : Z * nat :=
  match s with
  | [] => (RuneError, 0%nat)
  | b0 :: t =>
    if b0 <? RuneSelf then (b0, 1%nat)
    else if (194 <=? b0) && (b0 <=? 223) then
      match t with
      | b1 :: _ =>
        if cont b1 then ((b0 - 192) * 64 + (b1 - 128), 2%nat)
        else (RuneError, 1%nat)
      | _ => (RuneError, 1%nat)
      end
    else if (224 <=? b0) && (b0 <=? 239) then
      match t with
      | b1 :: b2 :: _ =>
        if (lo3 b0 <=? b1) && (b1 <=? hi3 b0) && cont b2
        then ((b0 - 224) * 4096 + (b1 - 128) * 64 + (b2 - 128), 3%nat)
        else (RuneError, 1%nat)
      | _ => (RuneError, 1%nat)
      end
    else if (240 <=? b0) && (b0 <=? 244) then
      match t with
      | b1 :: b2 :: b3 :: _ =>
        if (lo4 b0 <=? b1) && (b1 <=? hi4 b0) && cont b2 && cont b3
        then ((b0 - 240) * 262144 + (b1 - 128) * 4096 + (b2 - 128) * 64
              + (b3 - 128), 4%nat)
        else (RuneError, 1%nat)
      | _ => (RuneError, 1%nat)
      end
    else (RuneError, 1%nat)
  end.

(** [utf8.RuneStart]. *)
Definition RuneStart (b : Z) : bool := negb (cont b).

(** The backward scan of [utf8.DecodeLastRuneInString]:
    [for start--; start >= lim; start-- { if RuneStart(s[start]) { break } }]
    entered after the first decrement. *)
Fixpoint scan_start (fuel : nat) (s : list Z) (start lim : Z) : Z :=
  match fuel with
  | O => start
  | S fuel' =>
    if start <? lim then start
    else if RuneStart (nth (Z.to_nat start) s 0) then start
    else scan_start fuel' s (start - 1) lim
  end.

(** [utf8.DecodeLastRuneInString]. *)
Definition DecodeLastRune (s : list Z) : Z * nat :=
  let end_ := Z.of_nat (length s) in
  if end_ =? 0 then (RuneError, 0%nat)
  else
    let start := end_ - 1 in
    let r := nth (Z.to_nat start) s 0 in
    if r <? RuneSelf then (r, 1%nat)
    else
      let lim := Z.max 0 (end_ - 4) in
      let start := Z.max 0 (scan_start 4 s (start - 1) lim) in
      let '(r, size) := DecodeRune (drop (Z.to_nat start) s) in
      if start + Z.of_nat size =? end_ then (r, size) else (RuneError, 1%nat).

(** [for i, char := range s]: the runes of [s] with their byte offsets. *)
Fixpoint range_from (fuel : nat) (i : nat) (s : list Z) : list (nat * Z) :=
  match fuel with
  | O => []
  | S fuel' =>
    match s with
    | [] => []
    | _ =>
      let '(r, w) := DecodeRune s in
      (i, r) :: range_from fuel' (i + w)%nat (drop w s)
    end
  end.

Definition range (s : string) : list (nat * Z) :=
  range_from (length (bytes s)) 0 (bytes s).

(** *** unicode, strings *)

(** [unicode.IsSpace]: the White_Space property. *)
Definition IsSpace (r : Z) : bool :=
  ((9 <=? r) && (r <=? 13)) || (r =? 32) || (r =? 133) || (r =? 160)
  || (r =? 5760) || ((8192 <=? r) && (r <=? 8202))
  || (r =? 8232) || (r =? 8233) || (r =? 8239) || (r =? 8287)
  || (r =? 12288).

(** [strings.ContainsRune]. *)
Definition ContainsRune (s : string) (r : Z) : bool :=
  existsb (fun ir => snd ir =? r) (range s).

(** [strings.TrimLeftFunc(s, unicode.IsSpace)] on bytes. *)
Fixpoint trim_left (fuel : nat) (s : list Z) : list Z :=
  match fuel with
  | O => s
  | S fuel' =>
    match s with
    | [] => s
    | _ =>
      let '(r, w) := DecodeRune s in
      if IsSpace r then trim_left fuel' (drop w s) else s
    end
  end.

(** [strings.TrimRightFunc(s, unicode.IsSpace)] on bytes. *)
Fixpoint trim_right (fuel : nat) (s : list Z) : list Z :=
  match fuel with
  | O => s
  | S fuel' =>
    match s with
    | [] => s
    | _ =>
      let '(r, w) := DecodeLastRune s in
      if IsSpace r then trim_right fuel' (take (length s - w)%nat s) else s
    end
  end.

(** [strings.TrimSpace], as the bytes of the result. *)
Definition TrimSpace (s : string) : list Z :=
  let l := trim_left (length (bytes s)) (bytes s) in
  trim_right (length l) l.

(** [strings.Join]. *)
Fixpoint Join (elems : list string) (sep : string) : string :=
  match elems with
  | [] => ""
  | [e] => e
  | e :: rest => e +:+ sep +:+ Join rest sep
  end.

(** [strings.Split(s, ",")]: the pieces between the commas, accumulated
    in [cur]; never empty. *)
Fixpoint split_comma (cur : string) (s : string) : list string :=
  match s with
  | EmptyString => [cur]
  | String c rest =>
    if Ascii.eqb c "," then cur :: split_comma "" rest
    else split_comma (cur +:+ String c "") rest
  end.

Definition Split_comma (s : string) : list string := split_comma "" s.

(** ** internal/models *)

(** The fields of [Common] (embedded in [Backup] and [Restore]), as the
    struct literals of [dto.ToModelRestore] list them; the [float64] field
    [InfoRetriesMultiplier], which no function below reads, is left out. *)
Record Common : Type := {
  Directory : string;
  Namespace : string;
  SetList : string;
  BinList : string;
  Parallel : Z;
  NoRecords : bool;
  NoIndexes : bool;
  NoUDFs : bool;
  RecordsPerSecond : Z;
  TotalTimeout : Z;
  SocketTimeout : Z;
  Bandwidth : Z;
  InfoTimeout : Z;
  InfoMaxRetries : Z;
  InfoRetryIntervalMilliseconds : Z;
  StdBufferSize : Z
}.

Record Backup : Type := {
  Backup_Common : Common;
  MaxRetries : Z;
  OutputFile : string;
  RemoveFiles : bool;
  ModifiedBefore : string;
  ModifiedAfter : string;
  FileLimit : Z;
  AfterDigest : string;
  MaxRecords : Z;
  NoBins : bool;
  SleepBetweenRetries : Z;
  FilterExpression : string;
  RemoveArtifacts : bool;
  Compact : bool;
  NodeList : string;
  NoTTLOnly : bool;
  PreferRacks : string;
  PartitionList : string;
  Estimate : bool;
  EstimateSamples : Z;
  StateFileDst : string;
  Continue : string;
  ScanPageSize : Z;
  OutputFilePrefix : string;
  RackList : string
}.

(** [Backup.ShouldClearTarget]. *)
Definition ShouldClearTarget (b : Backup) : bool :=
  (RemoveFiles b || RemoveArtifacts b) && String.eqb (Continue b) "".

(** [Backup.ShouldSaveState]. *)
Definition ShouldSaveState (b : Backup) : bool :=
  nonempty (StateFileDst b) || nonempty (Continue b).

(** [Backup.validateSingleFilter]: [filtersSet] and [setFilters] are
    threaded through the four tests. *)
Definition count_filter (set : bool) (name : string)
    (st : Z * list string) : Z * list string :=
  if set then (fst st + 1, (snd st ++ [name])%list) else st.

Definition validateSingleFilter (b : Backup) : option error :=
  let st := (0, []) in
  let st := count_filter (nonempty (AfterDigest b)) "after-digest" st in
  let st := count_filter (nonempty (PartitionList b)) "partition-list" st in
  let st := count_filter (nonempty (NodeList b)) "node-list" st in
  let st := count_filter (nonempty (RackList b)) "rack-list" st in
  let '(filtersSet, setFilters) := st in
  if 1 <? filtersSet
  then Some (Errorf "only one of %s can be configured"
                    [AStr (Join setFilters " or ")])
  else None.

(** The string [invalidChars] of [validateFilePrefix]: backslash, slash,
    colon, star, question mark, double quote (byte 34), less-than,
    greater-than and bar. *)
Definition invalidChars : string :=
  "\/:*?" +:+ String (ascii_of_nat 34) "<>|".

(** The body of the loop of [validateFilePrefix] over the runes of the
    prefix; the first failing test returns. *)
Fixpoint check_chars (prefix : string) (rs : list (nat * Z)) : option error :=
  match rs with
  | [] => None
  | (i, char) :: rest =>
    if ContainsRune invalidChars char then
      Some (Errorf
        "file prefix contains invalid character '%c' at position %d: %q"
        [ARune char; AInt (Z.of_nat i); AStr prefix])
    else if char <? 32 then
      Some (Errorf
        "file prefix contains control character (0x%02X) at position %d: %q"
        [ARune char; AInt (Z.of_nat i); AStr prefix])
    else if char =? 127 then
      Some (Errorf "file prefix contains DEL character at position %d: %q"
                   [AInt (Z.of_nat i); AStr prefix])
    else check_chars prefix rest
  end.

Definition list_Z_eqb (a b : list Z) : bool := bool_decide (a = b).

Definition validateFilePrefix (prefix : string) : option error :=
  if String.eqb prefix "" then None
  else
    match check_chars prefix (range prefix) with
    | Some e => Some e
    | None =>
      let trimmed := TrimSpace prefix in
      if negb (list_Z_eqb trimmed (bytes prefix)) then
        Some (Errorf "file prefix cannot start or end with whitespace: %q"
                     [AStr prefix])
      else None
    end.

(** [Backup.Validate]. [Common.Validate] is not part of the sources at
    hand and is taken as the parameter [Common_Validate]. *)
Definition Backup_Validate (Common_Validate : Common -> option error)
    (b : option Backup) : option error :=
  match b with
  | None => None
  | Some b =>
    let Directory := Directory (Backup_Common b) in
    if negb (Estimate b) && String.eqb (OutputFile b) ""
       && String.eqb Directory "" then
      Some (Errorf "must specify either estimate, output-file or directory" [])
    else if nonempty Directory && nonempty (OutputFile b) then
      Some (Errorf "only one of output-file and directory may be configured at the same time" [])
    else
    match validateFilePrefix (OutputFilePrefix b) with
    | Some err => Some (Errorf "invalid output-file-prefix: %w" [AErr err])
    | None =>
    if nonempty (OutputFile b) && nonempty (OutputFilePrefix b) then
      Some (Errorf "using output-file-prefix is not allowed with output-file" [])
    else
    match validateSingleFilter b with
    | Some err => Some err
    | None =>
    if nonempty (Continue b) && nonempty (StateFileDst b) then
      Some (Errorf "continue and state-file-dst are mutually exclusive" [])
    else if nonempty (Continue b) && RemoveFiles b then
      Some (Errorf "continue and remove-files are mutually exclusive, as remove-files will delete the backup files" [])
    else if negb (MaxRecords b =? 0) && negb (Parallel (Backup_Common b) =? 1) then
      Some (Errorf "max-records must be used with parallel = 1" [])
    else
    if Estimate b then
      if nonempty (PartitionList b) || nonempty (NodeList b)
         || nonempty (AfterDigest b) || nonempty (FilterExpression b)
         || nonempty (ModifiedAfter b) || nonempty (ModifiedBefore b)
         || NoTTLOnly b then
        Some (Errorf "estimate with any filter is not allowed" [])
      else if nonempty (OutputFile b) || nonempty Directory then
        Some (Errorf "estimate with output-file or directory is not allowed" [])
      else if EstimateSamples b <? 0 then
        Some (Errorf "estimate with estimate-samples < 0 is not allowed" [])
      else Common_Validate (Backup_Common b)
    else Common_Validate (Backup_Common b)
    end end
  end.

(** [SplitByComma] (the restore code calls it by its unexported name
    [splitByComma]); the [nil] slice is the empty list. *)
Definition SplitByComma (s : string) : list string :=
  if String.eqb s "" then [] else Split_comma s.

Definition splitByComma : string -> list string := SplitByComma.

Definition RestoreModeAuto : string := "auto".
Definition RestoreModeASB : string := "asb".
Definition RestoreModeASBX : string := "asbx".

(** [Restore]; the [float64] field [RetryMultiplier] is left out. *)
Record Restore : Type := {
  Restore_Common : Common;
  InputFile : string;
  DirectoryList : string;
  ParentDirectory : string;
  DisableBatchWrites : bool;
  BatchSize : Z;
  MaxAsyncBatches : Z;
  WarmUp : Z;
  ExtraTTL : Z;
  IgnoreRecordError : bool;
  Uniq : bool;
  Replace : bool;
  NoGeneration : bool;
  RetryBaseInterval : Z;
  RetryMaxAttempts : Z;
  Mode : string;
  ValidateOnly : bool;
  ApplyMetadataLast : bool
}.

(** [Restore.IsDirectoryRestore]. *)
Definition IsDirectoryRestore (r : Restore) : bool :=
  String.eqb (DirectoryList r) "" && String.eqb (InputFile r) "".

(** [Restore.Validate]. *)
Definition Restore_Validate (Common_Validate : Common -> option error)
    (r : option Restore) : option error :=
  match r with
  | None => None
  | Some r =>
    let Directory := Directory (Restore_Common r) in
    if negb (String.eqb (Mode r) RestoreModeAuto
             || String.eqb (Mode r) RestoreModeASB
             || String.eqb (Mode r) RestoreModeASBX) then
      Some (Errorf "invalid restore mode: %s" [AStr (Mode r)])
    else if String.eqb (InputFile r) "" && String.eqb Directory ""
            && String.eqb (DirectoryList r) "" then
      Some (Errorf "input file or directory required" [])
    else if nonempty Directory && nonempty (InputFile r) then
      Some (Errorf "only one of directory and input-file may be configured at the same time" [])
    else if nonempty (DirectoryList r)
            && (nonempty Directory || nonempty (InputFile r)) then
      Some (Errorf "only one of directory, input-file and directory-list may be configured at the same time" [])
    else if nonempty (ParentDirectory r) && String.eqb (DirectoryList r) "" then
      Some (Errorf "must specify directory-list list" [])
    else if WarmUp r <? 0 then
      Some (Errorf "warm-up must be non-negative" [])
    else if negb (ValidateOnly r) then
      match Common_Validate (Restore_Common r) with
      | Some err => Some err
      | None => None
      end
    else None
  end.

(** [backup.RestoreNamespaceConfig]: both fields point to strings set by
    [NamespaceConfig]. *)
Record RestoreNamespaceConfig : Type := {
  Source : string;
  Destination : string
}.

(** [Restore.NamespaceConfig]; [None] is the [nil] result. *)
Definition NamespaceConfig (r : Restore) : option RestoreNamespaceConfig :=
  let nsArr := splitByComma (Namespace (Restore_Common r)) in
  match nsArr with
  | [ns0] => Some {| Source := ns0; Destination := ns0 |}
  | [ns0; ns1] => Some {| Source := ns0; Destination := ns1 |}
  | _ => None
  end.

(** The two fields of [aerospike.PartitionFilter] that the code reads. *)
Record PartitionFilter : Type := {
  Begin : Z;
  Count : Z
}.

(** The first loop of [validatePartitionFilters]: [beginMap] and
    [intervals] are threaded through the filters; the interval end is
    computed in 64-bit arithmetic. *)
Fixpoint collect_intervals (partitionFilters : list PartitionFilter)
    (beginMap : gmap Z bool) (intervals : list (Z * Z))
    : result (list (Z * Z)) :=
  match partitionFilters with
  | [] => Ok intervals
  | filter :: rest =>
    if Count filter =? 1 then
      if default false (beginMap !! Begin filter) then
        Err (Errorf "duplicate begin value %d for count = 1"
                    [AInt (Begin filter)])
      else collect_intervals rest (<[Begin filter := true]> beginMap) intervals
    else if 1 <? Count filter then
      let begin := Begin filter in
      let end_ := wrap64 (wrap64 (Begin filter + Count filter) - 1) in
      collect_intervals rest beginMap (intervals ++ [(begin, end_)])%list
    else
      Err (Errorf "invalid partition filter count: %d" [AInt (Count filter)])
  end.

(** The second loop, [for i := 1; i < len(intervals); i++], with
    [prev = intervals[i-1]]. *)
Fixpoint scan_intervals (prev : Z * Z) (rest : list (Z * Z)) : option error :=
  match rest with
  | [] => None
  | curr :: rest' =>
    let prevEnd := snd prev in
    let currBegin := fst curr in
    if currBegin <=? prevEnd then
      Some (Errorf "overlapping intervals: [%d, %d] and [%d, %d]"
                   [AInt (fst prev); AInt prevEnd; AInt currBegin;
                    AInt (snd curr)])
    else scan_intervals curr rest'
  end.

(** The comparison passed to [sort.Slice]. *)
Definition less_begin (a b : Z * Z) : bool := fst a <? fst b.

(** [validatePartitionFilters]; [sort_Slice less l] stands for Go's
    [sort.Slice], which is not stable and of which only the result, a
    sorted rearrangement of [l], is specified. *)
Definition validatePartitionFilters
    (sort_Slice : (Z * Z -> Z * Z -> bool) -> list (Z * Z) -> list (Z * Z))
    (partitionFilters : list PartitionFilter) : option error :=
  if (length partitionFilters <? 1)%nat then None
  else
    match collect_intervals partitionFilters ∅ [] with
    | Err e => Some e
    | Ok intervals =>
      match sort_Slice less_begin intervals with
      | [] => None
      | first :: rest => scan_intervals first rest
      end
    end.

(** *** Time parsing *)

(** The three expressions are anchored sequences of [\d{n}] and literal
    characters; [\d] is an ASCII digit and [$] the end of the text. *)
Inductive re_item : Type :=
| Digits (n : nat)
| Lit (c : ascii).

Definition is_digit (c : ascii) : bool :=
  (48 <=? byte_of c) && (byte_of c <=? 57).

Fixpoint match_digits (n : nat) (s : string) : option string :=
  match n with
  | O => Some s
  | S n' =>
    match s with
    | String c rest => if is_digit c then match_digits n' rest else None
    | EmptyString => None
    end
  end.

Fixpoint MatchString (re : list re_item) (s : string) : bool :=
  match re with
  | [] => String.eqb s ""
  | Digits n :: re' =>
    match match_digits n s with
    | Some rest => MatchString re' rest
    | None => false
    end
  | Lit c :: re' =>
    match s with
    | String c' rest => Ascii.eqb c c' && MatchString re' rest
    | EmptyString => false
    end
  end.

Definition expTimeOnly : list re_item :=
  [Digits 2; Lit ":"; Digits 2; Lit ":"; Digits 2].
Definition expDateOnly : list re_item :=
  [Digits 4; Lit "-"; Digits 2; Lit "-"; Digits 2].
Definition expDateTime : list re_item :=
  [Digits 4; Lit "-"; Digits 2; Lit "-"; Digits 2; Lit "_";
   Digits 2; Lit ":"; Digits 2; Lit ":"; Digits 2].

(** What the code takes from the [time] package: the local zone, the
    clock, and the construction of instants. *)
Record TimeEnv : Type := {
  Time : Type;
  Location : Type;
  (** [time.LoadLocation] *)
  LoadLocation : string -> result Location;
  (** [time.Now().In(location).Format("2006-01-02")] *)
  today : Location -> string;
  (** [time.Date(year, month, day, hour, min, sec, 0, loc)] *)
  Date : Z -> Z -> Z -> Z -> Z -> Z -> Location -> Time;
  (** [Time.UTC] *)
  UTC : Time -> Time
}.

(** [time.ParseError], with the message of its [Error] method kept as
    the value and the reason. *)
Definition ParseError (value reason : string) : error :=
  Errorf "parsing time %q%s" [AStr value; AStr reason].

Definition digit_val (c : ascii) : Z := byte_of c - 48.

(** [getnum(s, fixed)] of package [time]: one or two digits. *)
Definition getnum (s : string) (fixed : bool) : option (Z * string) :=
  match s with
  | String c0 rest0 =>
    if is_digit c0 then
      match rest0 with
      | String c1 rest1 =>
        if is_digit c1 then Some (digit_val c0 * 10 + digit_val c1, rest1)
        else if fixed then None else Some (digit_val c0, rest0)
      | EmptyString => if fixed then None else Some (digit_val c0, rest0)
      end
    else None
  | EmptyString => None
  end.

(** The [stdLongYear] step: four bytes, the first a digit, read by
    [atoi]. *)
Definition getyear (s : string) : option (Z * string) :=
  match s with
  | String c0 (String c1 (String c2 (String c3 rest))) =>
    if is_digit c0 && is_digit c1 && is_digit c2 && is_digit c3 then
      Some (((digit_val c0 * 10 + digit_val c1) * 10 + digit_val c2) * 10
            + digit_val c3, rest)
    else None
  | _ => None
  end.

(** [skip(value, prefix)] for a one-byte prefix other than a space. *)
Definition skip (s : string) (prefix : ascii) : option string :=
  match s with
  | String c rest => if Ascii.eqb c prefix then Some rest else None
  | EmptyString => None
  end.

Definition isLeap (year : Z) : bool :=
  (year mod 4 =? 0) && (negb (year mod 100 =? 0) || (year mod 400 =? 0)).

Definition daysIn (month year : Z) : Z :=
  if (month =? 2) && isLeap year then 29
  else nth (Z.to_nat (month - 1)) [31; 28; 31; 30; 31; 30; 31; 31; 30; 31; 30; 31] 0.

Definition bad_syntax : string := ": cannot parse".

Definition step {A B : Type} (o : option A) (reason : string)
    (k : A -> string + B) : string + B :=
  match o with
  | Some a => k a
  | None => inl reason
  end.

(** The field loop of [time.parse] for the layout
    ["2006-01-02_15:04:05"]: each element is read in turn and a value out
    of range stops the loop. *)
Definition parse_fields (value : string)
    : string + (Z * Z * Z * Z * Z * Z) :=
  step (getyear value) bad_syntax (fun '(year, value) =>
  step (skip value "-") bad_syntax (fun value =>
  step (getnum value true) bad_syntax (fun '(month, value) =>
  if (month <=? 0) || (12 <? month) then inl ": month out of range" else
  step (skip value "-") bad_syntax (fun value =>
  step (getnum value true) bad_syntax (fun '(day, value) =>
  step (skip value "_") bad_syntax (fun value =>
  step (getnum value false) bad_syntax (fun '(hour, value) =>
  if (hour <? 0) || (24 <=? hour) then inl ": hour out of range" else
  step (skip value ":") bad_syntax (fun value =>
  step (getnum value true) bad_syntax (fun '(min, value) =>
  if (min <? 0) || (60 <=? min) then inl ": minute out of range" else
  step (skip value ":") bad_syntax (fun value =>
  step (getnum value true) bad_syntax (fun '(sec, value) =>
  if (sec <? 0) || (60 <=? sec) then inl ": second out of range" else
  if nonempty value then inl ": extra text" else
  inr (year, month, day, hour, min, sec)))))))))))).

(** [time.ParseInLocation("2006-01-02_15:04:05", value, loc)]: the day
    is checked against the month once all fields are read. *)
Definition ParseInLocation (E : TimeEnv) (value : string) (loc : Location E)
    : result (Time E) :=
  match parse_fields value with
  | inl reason => Err (ParseError value reason)
  | inr (year, month, day, hour, min, sec) =>
    if (day <? 1) || (daysIn month year <? day) then
      Err (ParseError value ": day out of range")
    else Ok (Date E year month day hour min sec loc)
  end.

(** [parseLocalTimeToUTC]. *)
Definition parseLocalTimeToUTC (E : TimeEnv) (timeString : string)
    : result (Time E) :=
  match LoadLocation E "Local" with
  | Err err => Err (Errorf "failed to load timezone location: %w" [AErr err])
  | Ok location =>
    let validTime :=
      if MatchString expDateTime timeString then Some timeString
      else if MatchString expTimeOnly timeString then
        Some (today E location +:+ "_" +:+ timeString)
      else if MatchString expDateOnly timeString then
        Some (timeString +:+ "_00:00:00")
      else None in
    match validTime with
    | None => Err (Errorf "unknown time format: %s" [AStr timeString])
    | Some validTime =>
      match ParseInLocation E validTime location with
      | Err err =>
        Err (Errorf "failed to parse time %s: %w" [AStr timeString; AErr err])
      | Ok localTime => Ok (UTC E localTime)
      end
    end
  end.

(** [Backup.ModifiedBeforeTime] and [Backup.ModifiedAfterTime]. *)
Definition ModifiedBeforeTime (E : TimeEnv) (b : Backup) : result (Time E) :=
  parseLocalTimeToUTC E (ModifiedBefore b).
Definition ModifiedAfterTime (E : TimeEnv) (b : Backup) : result (Time E) :=
  parseLocalTimeToUTC E (ModifiedAfter b).

(** *** Scan policy, filters, racks *)

(** What the code takes from the Aerospike client, the backup engine and
    the Go library when it assembles a backup configuration. *)
Record Engine : Type := {
  Expression : Type;
  (** [aerospike.ExpFromBase64] *)
  ExpFromBase64 : string -> result Expression;
  (** [backup.NewPartitionFilterAfterDigest(namespace, digest)] *)
  NewPartitionFilterAfterDigest : string -> string -> result PartitionFilter;
  (** [backup.ParsePartitionFilterListString(namespace, list)] *)
  ParsePartitionFilterListString :
    string -> string -> result (list PartitionFilter);
  (** [backup.NewPartitionFilterAll()] *)
  NewPartitionFilterAll : PartitionFilter;
  (** [sort.Slice] on intervals *)
  sort_Slice : (Z * Z -> Z * Z -> bool) -> list (Z * Z) -> list (Z * Z);
  (** [strconv.Atoi] *)
  Atoi : string -> result Z;
  (** [path.Join] of two elements *)
  path_Join : string -> string -> string;
  Compression : Type;
  CompressionPolicy : Type;
  (** [Compression.Policy], on a pointer *)
  Compression_Policy : option Compression -> option CompressionPolicy;
  Encryption : Type;
  EncryptionPolicy : Type;
  (** [Encryption.Policy], on a pointer *)
  Encryption_Policy : option Encryption -> option EncryptionPolicy;
  SecretAgent : Type;
  SecretAgentConfig : Type;
  (** [SecretAgent.Config], on a pointer *)
  SecretAgent_Config : option SecretAgent -> option SecretAgentConfig
}.

Inductive ReplicaPolicy : Type :=
| MASTER | MASTER_PROLES | RANDOM | SEQUENCE | PREFER_RACK.

(** The fields of [aerospike.ScanPolicy] that [Backup.ScanPolicy] sets. *)
Record ScanPolicy (G : Engine) : Type := {
  sp_MaxRecords : Z;
  sp_MaxRetries : Z;
  sp_SleepBetweenRetries : Z;
  sp_TotalTimeout : Z;
  sp_SocketTimeout : Z;
  sp_ReplicaPolicy : ReplicaPolicy;
  sp_IncludeBinData : bool;
  sp_FilterExpression : option (Expression G)
}.
Arguments sp_MaxRecords {G} _.
Arguments sp_MaxRetries {G} _.
Arguments sp_SleepBetweenRetries {G} _.
Arguments sp_TotalTimeout {G} _.
Arguments sp_SocketTimeout {G} _.
Arguments sp_ReplicaPolicy {G} _.
Arguments sp_IncludeBinData {G} _.
Arguments sp_FilterExpression {G} _.

(** [time.Millisecond] in nanoseconds. *)
Definition Millisecond : Z := 1000000.

(** [Backup.ScanPolicy]; [p] is the policy [aerospike.NewScanPolicy()]
    returns. *)
Definition Backup_ScanPolicy (G : Engine) (p : ScanPolicy G) (b : Backup)
    : result (ScanPolicy G) :=
  let replica := sp_ReplicaPolicy p in
  let replica := if nonempty (PreferRacks b) then PREFER_RACK else replica in
  let replica :=
    if nonempty (RackList b) || nonempty (NodeList b) then MASTER
    else replica in
  let include := if NoBins b then false else sp_IncludeBinData p in
  let mk filter :=
    {| sp_MaxRecords := MaxRecords b;
       sp_MaxRetries := MaxRetries b;
       sp_SleepBetweenRetries := wrap64 (SleepBetweenRetries b * Millisecond);
       sp_TotalTimeout :=
         wrap64 (TotalTimeout (Backup_Common b) * Millisecond);
       sp_SocketTimeout :=
         wrap64 (SocketTimeout (Backup_Common b) * Millisecond);
       sp_ReplicaPolicy := replica;
       sp_IncludeBinData := include;
       sp_FilterExpression := filter |} in
  if nonempty (FilterExpression b) then
    match ExpFromBase64 G (FilterExpression b) with
    | Err err =>
      Err (Errorf "failed to parse filter expression: %w" [AErr err])
    | Ok exp => Ok (mk (Some exp))
    end
  else Ok (mk (sp_FilterExpression p)).

(** [Backup.resolveFilters]. *)
Definition resolveFilters (G : Engine) (b : Backup)
    : result (list PartitionFilter) :=
  if nonempty (AfterDigest b) then
    match NewPartitionFilterAfterDigest G (Namespace (Backup_Common b))
                                        (AfterDigest b) with
    | Err err =>
      Err (Errorf "failed to parse after digest filter: %w" [AErr err])
    | Ok filter => Ok [filter]
    end
  else if nonempty (PartitionList b) then
    match ParsePartitionFilterListString G (Namespace (Backup_Common b))
                                         (PartitionList b) with
    | Err err =>
      Err (Errorf "failed to parse partition filter list: %w" [AErr err])
    | Ok filters => Ok filters
    end
  else Ok [NewPartitionFilterAll G].

(** [Backup.PartitionFilters]. *)
Definition PartitionFilters (G : Engine) (b : Backup)
    : result (list PartitionFilter) :=
  match resolveFilters G b with
  | Err err => Err err
  | Ok pf =>
    match validatePartitionFilters (sort_Slice G) pf with
    | Some err =>
      Err (Errorf "failed to validate partition filters: %w" [AErr err])
    | None => Ok pf
    end
  end.

Definition MaxRack : Z := 1000000.

(** The loop of [Backup.Racks]. *)
Fixpoint parse_racks (G : Engine) (racksStringSlice : list string)
    (racksIntSlice : list Z) : result (list Z) :=
  match racksStringSlice with
  | [] => Ok racksIntSlice
  | s :: rest =>
    match Atoi G s with
    | Err err => Err (Errorf "failed to parse racks: %w" [AErr err])
    | Ok rackID =>
      if rackID <? 0 then
        Err (Errorf "rack id %d invalid, should be non-negative number"
                    [AInt rackID])
      else if MaxRack <? rackID then
        Err (Errorf "rack id %d invalid, should not exceed %d"
                    [AInt rackID; AInt MaxRack])
      else parse_racks G rest (racksIntSlice ++ [rackID])%list
    end
  end.

(** [Backup.Racks]. *)
Definition Racks (G : Engine) (b : Backup) : result (list Z) :=
  parse_racks G (SplitByComma (RackList b)) [].

(** [Backup.Nodes], [Backup.Sets], [Backup.Bins]. *)
Definition Nodes (b : Backup) : list string := SplitByComma (NodeList b).
Definition Sets (b : Backup) : list string :=
  SplitByComma (SetList (Backup_Common b)).
Definition Bins (b : Backup) : list string :=
  SplitByComma (BinList (Backup_Common b)).

(** ** internal/config *)

(** The storage models whose declarations are not part of the sources
    at hand: the types, the fields that [ValidateStorages] reads, and the
    [Validate] methods. *)
Record StorageModels : Type := {
  AwsS3 : Type;
  s3_BucketName : AwsS3 -> string;
  s3_Region : AwsS3 -> string;
  s3_Profile : AwsS3 -> string;
  s3_Endpoint : AwsS3 -> string;
  AwsS3_Validate : AwsS3 -> bool -> option error;
  GcpStorage : Type;
  gcp_BucketName : GcpStorage -> string;
  gcp_KeyFile : GcpStorage -> string;
  gcp_Endpoint : GcpStorage -> string;
  GcpStorage_Validate : GcpStorage -> bool -> option error;
  Local : Type;
  Local_Validate : Local -> bool -> option error;
  StorageCommon : Type;
  StorageCommon_Validate : StorageCommon -> bool -> option error
}.

(** [models.AzureBlob]; the fields carry the prefix [az_]. *)
Record AzureBlob (M : StorageModels) : Type := {
  az_AccountName : string;
  az_AccountKey : string;
  az_TenantID : string;
  az_ClientID : string;
  az_ClientSecret : string;
  az_Endpoint : string;
  az_ContainerName : string;
  az_AccessTier : string;
  az_RestorePollDuration : Z;
  az_RetryMaxAttempts : Z;
  az_RetryDelay : Z;
  az_RetryMaxDelay : Z;
  az_BlockSize : Z;
  az_UploadConcurrency : Z;
  Azure_StorageCommon : StorageCommon M
}.
Arguments az_AccountName {M} _.
Arguments az_AccountKey {M} _.
Arguments az_TenantID {M} _.
Arguments az_ClientID {M} _.
Arguments az_ClientSecret {M} _.
Arguments az_Endpoint {M} _.
Arguments az_ContainerName {M} _.
Arguments az_AccessTier {M} _.
Arguments az_RestorePollDuration {M} _.
Arguments az_RetryMaxAttempts {M} _.
Arguments az_RetryDelay {M} _.
Arguments az_RetryMaxDelay {M} _.
Arguments az_BlockSize {M} _.
Arguments az_UploadConcurrency {M} _.
Arguments Azure_StorageCommon {M} _.

(** [AzureBlob.Validate]. *)
Definition AzureBlob_Validate (M : StorageModels) (a : AzureBlob M)
    (isBackup : bool) : option error :=
  if String.eqb (az_ContainerName a) "" then
    Some (Errorf "container name is required" [])
  else if String.eqb (az_Endpoint a) "" then
    Some (Errorf "endpoint is required" [])
  else if az_RetryMaxAttempts a <? 0 then
    Some (Errorf "retry maximum attempts must be non-negative" [])
  else if az_RetryDelay a <? 0 then
    Some (Errorf "retry delay must be non-negative" [])
  else if az_RetryMaxDelay a <? 0 then
    Some (Errorf "retry max delay must be non-negative" [])
  else
    let by_operation :=
      if isBackup then
        if az_BlockSize a <? 1 then
          Some (Errorf "block size can't be less than 1" [])
        else if az_UploadConcurrency a <? 1 then
          Some (Errorf "upload concurrency can't be less than 1" [])
        else None
      else
        if az_RestorePollDuration a <? 1 then
          Some (Errorf "restore poll duration can't be less than 1" [])
        else None in
    match by_operation with
    | Some err => Some err
    | None =>
      match StorageCommon_Validate M (Azure_StorageCommon a) isBackup with
      | Some err => Some err
      | None => None
      end
    end.

(** [AzureBlob.IsConfigured], on a pointer. *)
Definition AzureBlob_IsConfigured (M : StorageModels)
    (a : option (AzureBlob M)) : bool :=
  match a with
  | None => false
  | Some a =>
    nonempty (az_ContainerName a) || nonempty (az_AccountName a)
    || nonempty (az_AccountKey a) || nonempty (az_Endpoint a)
    || nonempty (az_TenantID a) || nonempty (az_ClientID a)
    || nonempty (az_ClientSecret a)
  end.

(** Modelled from the spec: [AwsS3.IsConfigured] is not part of the
    sources at hand; "any identifying field non-empty", with the fields
    that [ValidateStorages] tests in its place, and [false] on [nil] as
    for [AzureBlob]. *)
Definition AwsS3_IsConfigured (M : StorageModels) (a : option (AwsS3 M))
    : bool :=
  match a with
  | None => false
  | Some a =>
    nonempty (s3_BucketName M a) || nonempty (s3_Region M a)
    || nonempty (s3_Profile M a) || nonempty (s3_Endpoint M a)
  end.

(** Modelled from the spec: [GcpStorage.IsConfigured] is not part of the
    sources at hand; as for [AwsS3_IsConfigured]. *)
Definition GcpStorage_IsConfigured (M : StorageModels)
    (g : option (GcpStorage M)) : bool :=
  match g with
  | None => false
  | Some g =>
    nonempty (gcp_BucketName M g) || nonempty (gcp_KeyFile M g)
    || nonempty (gcp_Endpoint M g)
  end.

(** One provider block of [ValidateStorages]:
    [if p != nil && configured(p) { if err := p.Validate(isBackup); err != nil
    { return wrapped err }; count++ }], followed by the rest [k] of the
    function. *)
Definition provider {A : Type} (p : option A) (configured : A -> bool)
    (validate : A -> option error) (context : string) (count : Z)
    (k : Z -> option error) : option error :=
  match p with
  | Some a =>
    if configured a then
      match validate a with
      | Some err => Some (Errorf context [AErr err])
      | None => k (count + 1)
      end
    else k count
  | None => k count
  end.

(** [ValidateStorages], the variant with the tests on the identifying
    fields written in the conditions. *)
Definition ValidateStorages (M : StorageModels) (isBackup : bool)
    (awsS3 : option (AwsS3 M)) (gcpStorage : option (GcpStorage M))
    (azureBlob : option (AzureBlob M)) (local : option (Local M))
    : option error :=
  let count := 0 in
  match match local with
        | Some l => Local_Validate M l isBackup
        | None => None
        end with
  | Some err => Some (Errorf "failed to validate local storage: %w" [AErr err])
  | None =>
  provider awsS3
    (fun a => nonempty (s3_BucketName M a) || nonempty (s3_Region M a)
              || nonempty (s3_Profile M a) || nonempty (s3_Endpoint M a))
    (fun a => AwsS3_Validate M a isBackup)
    "failed to validate aws s3: %w" count (fun count =>
  provider gcpStorage
    (fun g => nonempty (gcp_BucketName M g) || nonempty (gcp_KeyFile M g)
              || nonempty (gcp_Endpoint M g))
    (fun g => GcpStorage_Validate M g isBackup)
    "failed to validate gcp storage: %w" count (fun count =>
  provider azureBlob
    (fun a => nonempty (az_ContainerName a) || nonempty (az_AccountName a)
              || nonempty (az_AccountKey a) || nonempty (az_Endpoint a)
              || nonempty (az_TenantID a) || nonempty (az_ClientID a)
              || nonempty (az_ClientSecret a))
    (fun a => AzureBlob_Validate M a isBackup)
    "failed to validate azure blob: %w" count (fun count =>
  if 1 <? count then
    Some (Errorf "only one cloud provider can be configured" [])
  else None)))
  end.

(** One provider block of [validateStorages]:
    [if p.IsConfigured() { if err := p.Validate(isBackup); ... }].
    [IsConfigured] is false on [nil], so [Validate] is only called on a
    pointer that is not [nil]. *)
Definition provider_configured {A : Type} (p : option A)
    (IsConfigured : option A -> bool)
    (validate : A -> option error) (context : string) (count : Z)
    (k : Z -> option error) : option error :=
  if IsConfigured p then
    match p with
    | Some a =>
      match validate a with
      | Some err => Some (Errorf context [AErr err])
      | None => k (count + 1)
      end
    | None => k (count + 1)
    end
  else k count.

(** [validateStorages], the variant with the tests behind
    [IsConfigured]. *)
Definition validateStorages (M : StorageModels) (isBackup : bool)
    (awsS3 : option (AwsS3 M)) (gcpStorage : option (GcpStorage M))
    (azureBlob : option (AzureBlob M)) (local : option (Local M))
    : option error :=
  let count := 0 in
  match match local with
        | Some l => Local_Validate M l isBackup
        | None => None
        end with
  | Some err => Some (Errorf "failed to validate local storage: %w" [AErr err])
  | None =>
  provider_configured awsS3 (AwsS3_IsConfigured M)
    (fun a => AwsS3_Validate M a isBackup)
    "failed to validate aws s3: %w" count (fun count =>
  provider_configured gcpStorage (GcpStorage_IsConfigured M)
    (fun g => GcpStorage_Validate M g isBackup)
    "failed to validate gcp storage: %w" count (fun count =>
  provider_configured azureBlob (AzureBlob_IsConfigured M)
    (fun a => AzureBlob_Validate M a isBackup)
    "failed to validate azure blob: %w" count (fun count =>
  if 1 <? count then
    Some (Errorf "only one cloud provider can be configured" [])
  else None)))
  end.

(** *** Backup configuration *)

Definition StdPlaceholder : string := "-".

(** The fields of [BackupServiceConfig] that [newBackupConfig] reads. *)
Record BackupServiceConfig (G : Engine) : Type := {
  cfg_Backup : option Backup;
  cfg_Compression : option (Compression G);
  cfg_Encryption : option (Encryption G);
  cfg_SecretAgent : option (SecretAgent G)
}.
Arguments cfg_Backup {G} _.
Arguments cfg_Compression {G} _.
Arguments cfg_Encryption {G} _.
Arguments cfg_SecretAgent {G} _.

(** [BackupServiceConfig.IsContinue]. *)
Definition IsContinue {G : Engine} (p : BackupServiceConfig G) : bool :=
  match cfg_Backup p with
  | Some b => nonempty (Continue b)
  | None => false
  end.

(** [BackupServiceConfig.SkipWriterInit]. *)
Definition SkipWriterInit {G : Engine} (p : BackupServiceConfig G) : bool :=
  match cfg_Backup p with
  | Some b => negb (Estimate b)
  | None => true
  end.

(** [BackupServiceConfig.IsStdout]. *)
Definition IsStdout {G : Engine} (p : BackupServiceConfig G) : bool :=
  match cfg_Backup p with
  | Some b => String.eqb (OutputFile b) StdPlaceholder
  | None => false
  end.

(** The fields of [backup.ConfigBackup] that [newBackupConfig] sets. *)
Record ConfigBackup (G : Engine) (E : TimeEnv) : Type := {
  cb_Namespace : string;
  cb_SetList : list string;
  cb_BinList : list string;
  cb_NoRecords : bool;
  cb_NoIndexes : bool;
  cb_RecordsPerSecond : Z;
  cb_FileLimit : Z;
  cb_NoUDFs : bool;
  cb_ParallelWrite : Z;
  cb_ParallelRead : Z;
  cb_Bandwidth : Z;
  cb_Compact : bool;
  cb_NoTTLOnly : bool;
  cb_OutputFilePrefix : string;
  cb_MetricsEnabled : bool;
  cb_RackList : list Z;
  cb_StateFile : string;
  cb_Continue : bool;
  cb_PageSize : Z;
  cb_NodeList : list string;
  cb_PartitionFilters : list PartitionFilter;
  cb_ScanPolicy : option (ScanPolicy G);
  cb_CompressionPolicy : option (CompressionPolicy G);
  cb_EncryptionPolicy : option (EncryptionPolicy G);
  cb_SecretAgentConfig : option (SecretAgentConfig G);
  cb_ModBefore : option (Time E);
  cb_ModAfter : option (Time E)
}.
Arguments cb_Namespace {G E} _.
Arguments cb_SetList {G E} _.
Arguments cb_BinList {G E} _.
Arguments cb_NoRecords {G E} _.
Arguments cb_NoIndexes {G E} _.
Arguments cb_RecordsPerSecond {G E} _.
Arguments cb_FileLimit {G E} _.
Arguments cb_NoUDFs {G E} _.
Arguments cb_ParallelWrite {G E} _.
Arguments cb_ParallelRead {G E} _.
Arguments cb_Bandwidth {G E} _.
Arguments cb_Compact {G E} _.
Arguments cb_NoTTLOnly {G E} _.
Arguments cb_OutputFilePrefix {G E} _.
Arguments cb_MetricsEnabled {G E} _.
Arguments cb_RackList {G E} _.
Arguments cb_StateFile {G E} _.
Arguments cb_Continue {G E} _.
Arguments cb_PageSize {G E} _.
Arguments cb_NodeList {G E} _.
Arguments cb_PartitionFilters {G E} _.
Arguments cb_ScanPolicy {G E} _.
Arguments cb_CompressionPolicy {G E} _.
Arguments cb_EncryptionPolicy {G E} _.
Arguments cb_SecretAgentConfig {G E} _.
Arguments cb_ModBefore {G E} _.
Arguments cb_ModAfter {G E} _.

(** The panic of a field access through a [nil] pointer. *)
Definition nil_dereference : error :=
  Errorf "runtime error: invalid memory address or nil pointer dereference" [].

(** [newBackupConfig]. [c0] is the configuration that
    [backup.NewDefaultBackupConfig()] returns and [p0] the policy that
    [aerospike.NewScanPolicy()] returns; the assignments to [c] are
    gathered in the record built at the end, the steps that can fail are
    taken in the order of the code. *)
Definition newBackupConfig (G : Engine) (E : TimeEnv)
    (c0 : ConfigBackup G E) (p0 : ScanPolicy G)
    (config : BackupServiceConfig G) : result (ConfigBackup G E) :=
  match cfg_Backup config with
  | None => Err nil_dereference
  | Some b =>
    let common := Backup_Common b in
    let FileLimit := wrapU64 (wrapU64 (FileLimit b * 1024) * 1024) in
    let ParallelWrite := Parallel common in
    let ParallelRead := Parallel common in
    let Bandwidth := wrap64 (wrap64 (Bandwidth common * 1024) * 1024) in
    let '(FileLimit, ParallelWrite) :=
      if IsStdout config || nonempty (OutputFile b) then (0, 1)
      else (FileLimit, ParallelWrite) in
    match (if nonempty (RackList b) then Racks G b
           else Ok (cb_RackList c0)) with
    | Err err => Err err
    | Ok RackList =>
    let '(StateFile, Continue_, PageSize) :=
      if nonempty (Continue b) then
        (path_Join G (Directory common) (Continue b), true, ScanPageSize b)
      else (cb_StateFile c0, cb_Continue c0, cb_PageSize c0) in
    let '(StateFile, PageSize) :=
      if nonempty (StateFileDst b) then
        (path_Join G (Directory common) (StateFileDst b), ScanPageSize b)
      else (StateFile, PageSize) in
    let NodeList := if nonempty (NodeList b) then Nodes b
                    else cb_NodeList c0 in
    match PartitionFilters G b with
    | Err err => Err err
    | Ok pf =>
    match Backup_ScanPolicy G p0 b with
    | Err err => Err err
    | Ok sp =>
    match (if nonempty (ModifiedBefore b) then
             match ModifiedBeforeTime E b with
             | Err err =>
               Err (Errorf "failed to parse modified before date: %w"
                           [AErr err])
             | Ok modBeforeTime => Ok (Some modBeforeTime)
             end
           else Ok (cb_ModBefore c0)) with
    | Err err => Err err
    | Ok ModBefore =>
    match (if nonempty (ModifiedAfter b) then
             match ModifiedAfterTime E b with
             | Err err =>
               Err (Errorf "failed to parse modified after date: %w"
                           [AErr err])
             | Ok modAfterTime => Ok (Some modAfterTime)
             end
           else Ok (cb_ModAfter c0)) with
    | Err err => Err err
    | Ok ModAfter =>
      Ok {| cb_Namespace := Namespace common;
            cb_SetList := Sets b;
            cb_BinList := Bins b;
            cb_NoRecords := NoRecords common;
            cb_NoIndexes := NoIndexes common;
            cb_RecordsPerSecond := RecordsPerSecond common;
            cb_FileLimit := FileLimit;
            cb_NoUDFs := NoUDFs common;
            cb_ParallelWrite := ParallelWrite;
            cb_ParallelRead := ParallelRead;
            cb_Bandwidth := Bandwidth;
            cb_Compact := Compact b;
            cb_NoTTLOnly := NoTTLOnly b;
            cb_OutputFilePrefix := OutputFilePrefix b;
            cb_MetricsEnabled := true;
            cb_RackList := RackList;
            cb_StateFile := StateFile;
            cb_Continue := Continue_;
            cb_PageSize := PageSize;
            cb_NodeList := NodeList;
            cb_PartitionFilters := pf;
            cb_ScanPolicy := Some sp;
            cb_CompressionPolicy := Compression_Policy G (cfg_Compression config);
            cb_EncryptionPolicy := Encryption_Policy G (cfg_Encryption config);
            cb_SecretAgentConfig := SecretAgent_Config G (cfg_SecretAgent config);
            cb_ModBefore := ModBefore;
            cb_ModAfter := ModAfter |}
    end end end end end
  end.

(** ** More of the Go library *)

(** The string of a list of bytes. *)
Definition string_of_bytes (l : list Z) : string :=
  string_of_list_ascii (map (fun b => ascii_of_nat (Z.to_nat b)) l).

(** [strings.ToLower]: a string of ASCII bytes is lowered byte by byte;
    any other string goes through [strings.Map(unicode.ToLower, s)], which
    is the parameter [unicode_lower]. *)
Definition lower_byte (c : Z) : Z :=
  if (65 <=? c) && (c <=? 90) then c + 32 else c.

Definition ToLower (unicode_lower : string -> string) (s : string) : string :=
  if forallb (fun c => c <? RuneSelf) (bytes s)
  then string_of_bytes (map lower_byte (bytes s))
  else unicode_lower s.

(** [strings.HasPrefix]. *)
Definition HasPrefix (s prefix : string) : bool := String.prefix prefix s.

(** ** internal/logging *)

Definition defaultLogLevel : string := "info".

Definition validLevelStrings : gset string :=
  {[ "debug"; "info"; "warn"; "error" ]}.

Record Config : Type := {
  Level : string;
  Verbose : bool;
  JSON : bool;
  File : string
}.

(** [Config.Validate]: the configuration after the call, and the error.
    The lookup in [validLevelStrings] is made with [lvl], also when
    [c.Level] was just set to the default. *)
Definition Config_Validate (unicode_lower : string -> string) (c : Config)
    : Config * option error :=
  let lvl := ToLower unicode_lower (string_of_bytes (TrimSpace (Level c))) in
  let c :=
    if String.eqb lvl ""
    then {| Level := defaultLogLevel; Verbose := Verbose c; JSON := JSON c;
            File := File c |}
    else c in
  if negb (bool_decide (lvl ∈ validLevelStrings)) then
    (c, Some (Errorf "invalid log level %q (valid: debug, info, warn, error)"
                     [AStr (Level c)]))
  else
    ({| Level := lvl; Verbose := Verbose c; JSON := JSON c; File := File c |},
     None).

(** ** internal/flags *)

Definition secretsPrefix : string := "secrets:".

(** [asFlags.CertFlag] of tools-common-go, whose code is not part of the
    sources at hand: the type, the conversion [CertFlag(val)] from a
    string, and the methods [Set] (the flag after the call, and the error)
    and [String]. *)
Record CertFlags : Type := {
  CertFlag : Type;
  CertFlag_of_string : string -> CertFlag;
  CertFlag_Set : CertFlag -> string -> CertFlag * option error;
  CertFlag_String : CertFlag -> string
}.

(** [deferredCertValue]; [original] holds the flag that the pointer of
    that name designates. *)
Record deferredCertValue (F : CertFlags) : Type := {
  pendingSecret : bool;
  raw : string;
  original : CertFlag F
}.
Arguments pendingSecret {F} _.
Arguments raw {F} _.
Arguments original {F} _.

(** [deferredCertValue.Set]. *)
Definition deferredCertValue_Set {F : CertFlags} (d : deferredCertValue F)
    (val : string) : deferredCertValue F * option error :=
  if HasPrefix val secretsPrefix then
    ({| pendingSecret := true; raw := val; original := original d |}, None)
  else if pendingSecret d then
    ({| pendingSecret := false; raw := "";
        original := CertFlag_of_string F val |}, None)
  else
    let '(o, err) := CertFlag_Set F (original d) val in
    ({| pendingSecret := pendingSecret d; raw := raw d; original := o |}, err).

(** [deferredCertValue.String]. *)
Definition deferredCertValue_String {F : CertFlags} (d : deferredCertValue F)
    : string :=
  if nonempty (raw d) then raw d else CertFlag_String F (original d).

(** The methods of the interface [pflag.Value] that the code calls. *)
Class Value (S : Type) : Type := {
  Value_String : S -> string;
  Value_Set : S -> string -> S * option error
}.

#[global] Instance deferredCertValue_Value (F : CertFlags)
    : Value (deferredCertValue F) :=
  {| Value_String := deferredCertValue_String;
     Value_Set := deferredCertValue_Set |}.

(** [parseValueWithSecretAgent]; [flag] is the value of the flag that
    [fs.Lookup(name)] finds, and [ParseSecret] is [backup.ParseSecret]
    with the context and the agent configuration of the call. *)
Definition parseValueWithSecretAgent {S : Type} `{Value S}
    (ParseSecret : string -> result string) (flag : S) (name : string)
    : S * option error :=
  let curVal := string_of_bytes (TrimSpace (Value_String flag)) in
  if String.eqb curVal "" then (flag, None)
  else if negb (HasPrefix curVal secretsPrefix) then (flag, None)
  else
    match ParseSecret curVal with
    | Err err =>
      (flag, Some (Errorf "failed to get secret for %s: %w"
                          [AStr name; AErr err]))
    | Ok val =>
      match Value_Set flag val with
      | (flag, Some err) =>
        (flag, Some (Errorf "failed to set secret value of %s: %w"
                            [AStr name; AErr err]))
      | (flag, None) => (flag, None)
      end
    end.

(** ** internal/config/dto *)

(** The strings that the pointers passed to [resolveSecretFields]
    designate: a store from addresses to strings, and the assignment
    through a pointer. *)
Definition store : Type := nat -> string.

Definition assign (h : store) (p : nat) (v : string) : store :=
  fun q => if Nat.eqb q p then v else h q.

(** [resolveSecretFields]; a [nil] pointer is [None], and the result is
    the store after the call, and the error. *)
Fixpoint resolveSecretFields (ParseSecret : string -> result string)
    (fields : list (option nat)) (h : store) : store * option error :=
  match fields with
  | [] => (h, None)
  | None :: rest => resolveSecretFields ParseSecret rest h
  | Some field :: rest =>
    if String.eqb (h field) "" then resolveSecretFields ParseSecret rest h
    else if negb (HasPrefix (h field) secretsPrefix) then
      resolveSecretFields ParseSecret rest h
    else
      match ParseSecret (h field) with
      | Err err =>
        (h, Some (Errorf "failed to resolve secret %q: %w"
                         [AStr (h field); AErr err]))
      | Ok resolved =>
        resolveSecretFields ParseSecret rest (assign h field resolved)
      end
  end.

(** ** Definitions used in the statements *)

(** Modelled from the spec: [Common.Validate] is not part of the sources
    at hand. The spec gives "namespace required, etc."; the tests of
    [Restore.Validate] expect the message below for an empty namespace and
    no error for a [Common] whose only field set is the namespace. It is
    used where a statement needs a closed instance of the parameter
    [Common_Validate]. *)
Definition Common_Validate_spec (c : Common) : option error :=
  if String.eqb (Namespace c) "" then Some (Errorf "namespace is required" [])
  else None.

(** The ten checks of [Backup.Validate] in the order the spec lists
    them, each as a function of its own. *)
Definition check_output_target (b : Backup) : option error :=
  if negb (Estimate b) && String.eqb (OutputFile b) ""
     && String.eqb (Directory (Backup_Common b)) ""
  then Some (Errorf "must specify either estimate, output-file or directory" [])
  else None.

Definition check_output_exclusive (b : Backup) : option error :=
  if nonempty (Directory (Backup_Common b)) && nonempty (OutputFile b)
  then Some (Errorf "only one of output-file and directory may be configured at the same time" [])
  else None.

Definition check_prefix (b : Backup) : option error :=
  match validateFilePrefix (OutputFilePrefix b) with
  | Some err => Some (Errorf "invalid output-file-prefix: %w" [AErr err])
  | None => None
  end.

Definition check_prefix_with_file (b : Backup) : option error :=
  if nonempty (OutputFile b) && nonempty (OutputFilePrefix b)
  then Some (Errorf "using output-file-prefix is not allowed with output-file" [])
  else None.

Definition check_continue_state (b : Backup) : option error :=
  if nonempty (Continue b) && nonempty (StateFileDst b)
  then Some (Errorf "continue and state-file-dst are mutually exclusive" [])
  else None.

Definition check_continue_remove (b : Backup) : option error :=
  if nonempty (Continue b) && RemoveFiles b
  then Some (Errorf "continue and remove-files are mutually exclusive, as remove-files will delete the backup files" [])
  else None.

Definition check_max_records (b : Backup) : option error :=
  if negb (MaxRecords b =? 0) && negb (Parallel (Backup_Common b) =? 1)
  then Some (Errorf "max-records must be used with parallel = 1" [])
  else None.

(** The estimate-mode block, with the three tests the code makes in it. *)
Definition check_estimate (b : Backup) : option error :=
  if Estimate b then
    if nonempty (PartitionList b) || nonempty (NodeList b)
       || nonempty (AfterDigest b) || nonempty (FilterExpression b)
       || nonempty (ModifiedAfter b) || nonempty (ModifiedBefore b)
       || NoTTLOnly b
    then Some (Errorf "estimate with any filter is not allowed" [])
    else if nonempty (OutputFile b) || nonempty (Directory (Backup_Common b))
    then Some (Errorf "estimate with output-file or directory is not allowed" [])
    else if EstimateSamples b <? 0
    then Some (Errorf "estimate with estimate-samples < 0 is not allowed" [])
    else None
  else None.

Definition checks (Common_Validate : Common -> option error)
    : list (Backup -> option error) :=
  [ check_output_target; check_output_exclusive; check_prefix;
    check_prefix_with_file; validateSingleFilter; check_continue_state;
    check_continue_remove; check_max_records; check_estimate;
    fun b => Common_Validate (Backup_Common b) ].

(** The error of the first check of [cs] that [b] violates. *)
Fixpoint first_error (cs : list (Backup -> option error)) (b : Backup)
    : option error :=
  match cs with
  | [] => None
  | c :: cs' =>
    match c b with
    | Some e => Some e
    | None => first_error cs' b
    end
  end.

(** Go zero values, and the update of one field ([set_F v x] is [x] with
    field [F] set to [v]), for concrete inputs. *)
Definition zero_Common : Common :=
  {| Directory := ""; Namespace := ""; SetList := ""; BinList := "";
     Parallel := 0; NoRecords := false; NoIndexes := false; NoUDFs := false;
     RecordsPerSecond := 0; TotalTimeout := 0; SocketTimeout := 0;
     Bandwidth := 0; InfoTimeout := 0; InfoMaxRetries := 0;
     InfoRetryIntervalMilliseconds := 0; StdBufferSize := 0 |}.

Definition zero_Backup : Backup :=
  {| Backup_Common := zero_Common; MaxRetries := 0; OutputFile := "";
     RemoveFiles := false; ModifiedBefore := ""; ModifiedAfter := "";
     FileLimit := 0; AfterDigest := ""; MaxRecords := 0; NoBins := false;
     SleepBetweenRetries := 0; FilterExpression := "";
     RemoveArtifacts := false; Compact := false; NodeList := "";
     NoTTLOnly := false; PreferRacks := ""; PartitionList := "";
     Estimate := false; EstimateSamples := 0; StateFileDst := "";
     Continue := ""; ScanPageSize := 0; OutputFilePrefix := "";
     RackList := "" |}.

Definition zero_Restore : Restore :=
  {| Restore_Common := zero_Common; InputFile := ""; DirectoryList := "";
     ParentDirectory := ""; DisableBatchWrites := false; BatchSize := 0;
     MaxAsyncBatches := 0; WarmUp := 0; ExtraTTL := 0;
     IgnoreRecordError := false; Uniq := false; Replace := false;
     NoGeneration := false; RetryBaseInterval := 0; RetryMaxAttempts := 0;
     Mode := ""; ValidateOnly := false; ApplyMetadataLast := false |}.

Definition set_Directory (v : string) (c : Common) : Common :=
  {| Directory := v; Namespace := Namespace c; SetList := SetList c;
     BinList := BinList c; Parallel := Parallel c; NoRecords := NoRecords c;
     NoIndexes := NoIndexes c; NoUDFs := NoUDFs c;
     RecordsPerSecond := RecordsPerSecond c; TotalTimeout := TotalTimeout c;
     SocketTimeout := SocketTimeout c; Bandwidth := Bandwidth c;
     InfoTimeout := InfoTimeout c; InfoMaxRetries := InfoMaxRetries c;
     InfoRetryIntervalMilliseconds := InfoRetryIntervalMilliseconds c;
     StdBufferSize := StdBufferSize c |}.

Definition set_Namespace (v : string) (c : Common) : Common :=
  {| Directory := Directory c; Namespace := v; SetList := SetList c;
     BinList := BinList c; Parallel := Parallel c; NoRecords := NoRecords c;
     NoIndexes := NoIndexes c; NoUDFs := NoUDFs c;
     RecordsPerSecond := RecordsPerSecond c; TotalTimeout := TotalTimeout c;
     SocketTimeout := SocketTimeout c; Bandwidth := Bandwidth c;
     InfoTimeout := InfoTimeout c; InfoMaxRetries := InfoMaxRetries c;
     InfoRetryIntervalMilliseconds := InfoRetryIntervalMilliseconds c;
     StdBufferSize := StdBufferSize c |}.

Definition set_Parallel (v : Z) (c : Common) : Common :=
  {| Directory := Directory c; Namespace := Namespace c;
     SetList := SetList c; BinList := BinList c; Parallel := v;
     NoRecords := NoRecords c; NoIndexes := NoIndexes c; NoUDFs := NoUDFs c;
     RecordsPerSecond := RecordsPerSecond c; TotalTimeout := TotalTimeout c;
     SocketTimeout := SocketTimeout c; Bandwidth := Bandwidth c;
     InfoTimeout := InfoTimeout c; InfoMaxRetries := InfoMaxRetries c;
     InfoRetryIntervalMilliseconds := InfoRetryIntervalMilliseconds c;
     StdBufferSize := StdBufferSize c |}.

Definition set_Backup_Common (v : Common) (b : Backup) : Backup :=
  {| Backup_Common := v; MaxRetries := MaxRetries b;
     OutputFile := OutputFile b; RemoveFiles := RemoveFiles b;
     ModifiedBefore := ModifiedBefore b; ModifiedAfter := ModifiedAfter b;
     FileLimit := FileLimit b; AfterDigest := AfterDigest b;
     MaxRecords := MaxRecords b; NoBins := NoBins b;
     SleepBetweenRetries := SleepBetweenRetries b;
     FilterExpression := FilterExpression b;
     RemoveArtifacts := RemoveArtifacts b; Compact := Compact b;
     NodeList := NodeList b; NoTTLOnly := NoTTLOnly b;
     PreferRacks := PreferRacks b; PartitionList := PartitionList b;
     Estimate := Estimate b; EstimateSamples := EstimateSamples b;
     StateFileDst := StateFileDst b; Continue := Continue b;
     ScanPageSize := ScanPageSize b; OutputFilePrefix := OutputFilePrefix b;
     RackList := RackList b |}.

Definition set_OutputFile (v : string) (b : Backup) : Backup :=
  {| Backup_Common := Backup_Common b; MaxRetries := MaxRetries b;
     OutputFile := v; RemoveFiles := RemoveFiles b;
     ModifiedBefore := ModifiedBefore b; ModifiedAfter := ModifiedAfter b;
     FileLimit := FileLimit b; AfterDigest := AfterDigest b;
     MaxRecords := MaxRecords b; NoBins := NoBins b;
     SleepBetweenRetries := SleepBetweenRetries b;
     FilterExpression := FilterExpression b;
     RemoveArtifacts := RemoveArtifacts b; Compact := Compact b;
     NodeList := NodeList b; NoTTLOnly := NoTTLOnly b;
     PreferRacks := PreferRacks b; PartitionList := PartitionList b;
     Estimate := Estimate b; EstimateSamples := EstimateSamples b;
     StateFileDst := StateFileDst b; Continue := Continue b;
     ScanPageSize := ScanPageSize b; OutputFilePrefix := OutputFilePrefix b;
     RackList := RackList b |}.

Definition set_FileLimit (v : Z) (b : Backup) : Backup :=
  {| Backup_Common := Backup_Common b; MaxRetries := MaxRetries b;
     OutputFile := OutputFile b; RemoveFiles := RemoveFiles b;
     ModifiedBefore := ModifiedBefore b; ModifiedAfter := ModifiedAfter b;
     FileLimit := v; AfterDigest := AfterDigest b;
     MaxRecords := MaxRecords b; NoBins := NoBins b;
     SleepBetweenRetries := SleepBetweenRetries b;
     FilterExpression := FilterExpression b;
     RemoveArtifacts := RemoveArtifacts b; Compact := Compact b;
     NodeList := NodeList b; NoTTLOnly := NoTTLOnly b;
     PreferRacks := PreferRacks b; PartitionList := PartitionList b;
     Estimate := Estimate b; EstimateSamples := EstimateSamples b;
     StateFileDst := StateFileDst b; Continue := Continue b;
     ScanPageSize := ScanPageSize b; OutputFilePrefix := OutputFilePrefix b;
     RackList := RackList b |}.

Definition set_MaxRecords (v : Z) (b : Backup) : Backup :=
  {| Backup_Common := Backup_Common b; MaxRetries := MaxRetries b;
     OutputFile := OutputFile b; RemoveFiles := RemoveFiles b;
     ModifiedBefore := ModifiedBefore b; ModifiedAfter := ModifiedAfter b;
     FileLimit := FileLimit b; AfterDigest := AfterDigest b; MaxRecords := v;
     NoBins := NoBins b; SleepBetweenRetries := SleepBetweenRetries b;
     FilterExpression := FilterExpression b;
     RemoveArtifacts := RemoveArtifacts b; Compact := Compact b;
     NodeList := NodeList b; NoTTLOnly := NoTTLOnly b;
     PreferRacks := PreferRacks b; PartitionList := PartitionList b;
     Estimate := Estimate b; EstimateSamples := EstimateSamples b;
     StateFileDst := StateFileDst b; Continue := Continue b;
     ScanPageSize := ScanPageSize b; OutputFilePrefix := OutputFilePrefix b;
     RackList := RackList b |}.

Definition set_RemoveArtifacts (v : bool) (b : Backup) : Backup :=
  {| Backup_Common := Backup_Common b; MaxRetries := MaxRetries b;
     OutputFile := OutputFile b; RemoveFiles := RemoveFiles b;
     ModifiedBefore := ModifiedBefore b; ModifiedAfter := ModifiedAfter b;
     FileLimit := FileLimit b; AfterDigest := AfterDigest b;
     MaxRecords := MaxRecords b; NoBins := NoBins b;
     SleepBetweenRetries := SleepBetweenRetries b;
     FilterExpression := FilterExpression b; RemoveArtifacts := v;
     Compact := Compact b; NodeList := NodeList b; NoTTLOnly := NoTTLOnly b;
     PreferRacks := PreferRacks b; PartitionList := PartitionList b;
     Estimate := Estimate b; EstimateSamples := EstimateSamples b;
     StateFileDst := StateFileDst b; Continue := Continue b;
     ScanPageSize := ScanPageSize b; OutputFilePrefix := OutputFilePrefix b;
     RackList := RackList b |}.

Definition set_PartitionList (v : string) (b : Backup) : Backup :=
  {| Backup_Common := Backup_Common b; MaxRetries := MaxRetries b;
     OutputFile := OutputFile b; RemoveFiles := RemoveFiles b;
     ModifiedBefore := ModifiedBefore b; ModifiedAfter := ModifiedAfter b;
     FileLimit := FileLimit b; AfterDigest := AfterDigest b;
     MaxRecords := MaxRecords b; NoBins := NoBins b;
     SleepBetweenRetries := SleepBetweenRetries b;
     FilterExpression := FilterExpression b;
     RemoveArtifacts := RemoveArtifacts b; Compact := Compact b;
     NodeList := NodeList b; NoTTLOnly := NoTTLOnly b;
     PreferRacks := PreferRacks b; PartitionList := v;
     Estimate := Estimate b; EstimateSamples := EstimateSamples b;
     StateFileDst := StateFileDst b; Continue := Continue b;
     ScanPageSize := ScanPageSize b; OutputFilePrefix := OutputFilePrefix b;
     RackList := RackList b |}.

Definition set_Estimate (v : bool) (b : Backup) : Backup :=
  {| Backup_Common := Backup_Common b; MaxRetries := MaxRetries b;
     OutputFile := OutputFile b; RemoveFiles := RemoveFiles b;
     ModifiedBefore := ModifiedBefore b; ModifiedAfter := ModifiedAfter b;
     FileLimit := FileLimit b; AfterDigest := AfterDigest b;
     MaxRecords := MaxRecords b; NoBins := NoBins b;
     SleepBetweenRetries := SleepBetweenRetries b;
     FilterExpression := FilterExpression b;
     RemoveArtifacts := RemoveArtifacts b; Compact := Compact b;
     NodeList := NodeList b; NoTTLOnly := NoTTLOnly b;
     PreferRacks := PreferRacks b; PartitionList := PartitionList b;
     Estimate := v; EstimateSamples := EstimateSamples b;
     StateFileDst := StateFileDst b; Continue := Continue b;
     ScanPageSize := ScanPageSize b; OutputFilePrefix := OutputFilePrefix b;
     RackList := RackList b |}.

Definition set_Continue (v : string) (b : Backup) : Backup :=
  {| Backup_Common := Backup_Common b; MaxRetries := MaxRetries b;
     OutputFile := OutputFile b; RemoveFiles := RemoveFiles b;
     ModifiedBefore := ModifiedBefore b; ModifiedAfter := ModifiedAfter b;
     FileLimit := FileLimit b; AfterDigest := AfterDigest b;
     MaxRecords := MaxRecords b; NoBins := NoBins b;
     SleepBetweenRetries := SleepBetweenRetries b;
     FilterExpression := FilterExpression b;
     RemoveArtifacts := RemoveArtifacts b; Compact := Compact b;
     NodeList := NodeList b; NoTTLOnly := NoTTLOnly b;
     PreferRacks := PreferRacks b; PartitionList := PartitionList b;
     Estimate := Estimate b; EstimateSamples := EstimateSamples b;
     StateFileDst := StateFileDst b; Continue := v;
     ScanPageSize := ScanPageSize b; OutputFilePrefix := OutputFilePrefix b;
     RackList := RackList b |}.

Definition set_RackList (v : string) (b : Backup) : Backup :=
  {| Backup_Common := Backup_Common b; MaxRetries := MaxRetries b;
     OutputFile := OutputFile b; RemoveFiles := RemoveFiles b;
     ModifiedBefore := ModifiedBefore b; ModifiedAfter := ModifiedAfter b;
     FileLimit := FileLimit b; AfterDigest := AfterDigest b;
     MaxRecords := MaxRecords b; NoBins := NoBins b;
     SleepBetweenRetries := SleepBetweenRetries b;
     FilterExpression := FilterExpression b;
     RemoveArtifacts := RemoveArtifacts b; Compact := Compact b;
     NodeList := NodeList b; NoTTLOnly := NoTTLOnly b;
     PreferRacks := PreferRacks b; PartitionList := PartitionList b;
     Estimate := Estimate b; EstimateSamples := EstimateSamples b;
     StateFileDst := StateFileDst b; Continue := Continue b;
     ScanPageSize := ScanPageSize b; OutputFilePrefix := OutputFilePrefix b;
     RackList := v |}.

Definition set_Restore_Common (v : Common) (r : Restore) : Restore :=
  {| Restore_Common := v; InputFile := InputFile r;
     DirectoryList := DirectoryList r; ParentDirectory := ParentDirectory r;
     DisableBatchWrites := DisableBatchWrites r; BatchSize := BatchSize r;
     MaxAsyncBatches := MaxAsyncBatches r; WarmUp := WarmUp r;
     ExtraTTL := ExtraTTL r; IgnoreRecordError := IgnoreRecordError r;
     Uniq := Uniq r; Replace := Replace r; NoGeneration := NoGeneration r;
     RetryBaseInterval := RetryBaseInterval r;
     RetryMaxAttempts := RetryMaxAttempts r; Mode := Mode r;
     ValidateOnly := ValidateOnly r;
     ApplyMetadataLast := ApplyMetadataLast r |}.

Definition set_InputFile (v : string) (r : Restore) : Restore :=
  {| Restore_Common := Restore_Common r; InputFile := v;
     DirectoryList := DirectoryList r; ParentDirectory := ParentDirectory r;
     DisableBatchWrites := DisableBatchWrites r; BatchSize := BatchSize r;
     MaxAsyncBatches := MaxAsyncBatches r; WarmUp := WarmUp r;
     ExtraTTL := ExtraTTL r; IgnoreRecordError := IgnoreRecordError r;
     Uniq := Uniq r; Replace := Replace r; NoGeneration := NoGeneration r;
     RetryBaseInterval := RetryBaseInterval r;
     RetryMaxAttempts := RetryMaxAttempts r; Mode := Mode r;
     ValidateOnly := ValidateOnly r;
     ApplyMetadataLast := ApplyMetadataLast r |}.

Definition set_Mode (v : string) (r : Restore) : Restore :=
  {| Restore_Common := Restore_Common r; InputFile := InputFile r;
     DirectoryList := DirectoryList r; ParentDirectory := ParentDirectory r;
     DisableBatchWrites := DisableBatchWrites r; BatchSize := BatchSize r;
     MaxAsyncBatches := MaxAsyncBatches r; WarmUp := WarmUp r;
     ExtraTTL := ExtraTTL r; IgnoreRecordError := IgnoreRecordError r;
     Uniq := Uniq r; Replace := Replace r; NoGeneration := NoGeneration r;
     RetryBaseInterval := RetryBaseInterval r;
     RetryMaxAttempts := RetryMaxAttempts r; Mode := v;
     ValidateOnly := ValidateOnly r;
     ApplyMetadataLast := ApplyMetadataLast r |}.

Definition set_ValidateOnly (v : bool) (r : Restore) : Restore :=
  {| Restore_Common := Restore_Common r; InputFile := InputFile r;
     DirectoryList := DirectoryList r; ParentDirectory := ParentDirectory r;
     DisableBatchWrites := DisableBatchWrites r; BatchSize := BatchSize r;
     MaxAsyncBatches := MaxAsyncBatches r; WarmUp := WarmUp r;
     ExtraTTL := ExtraTTL r; IgnoreRecordError := IgnoreRecordError r;
     Uniq := Uniq r; Replace := Replace r; NoGeneration := NoGeneration r;
     RetryBaseInterval := RetryBaseInterval r;
     RetryMaxAttempts := RetryMaxAttempts r; Mode := Mode r;
     ValidateOnly := v; ApplyMetadataLast := ApplyMetadataLast r |}.

(** Concrete inputs. *)
Definition clear_on_continue : Backup :=
  set_Continue "state.json" (set_RemoveArtifacts true zero_Backup).

Definition two_violations : Backup :=
  set_MaxRecords 10
    (set_OutputFile "out.asb"
       (set_Backup_Common (set_Directory "dir" zero_Common) zero_Backup)).

Definition estimate_partition_list : Backup :=
  set_PartitionList "1" (set_Estimate true zero_Backup).

Definition estimate_max_records : Backup :=
  set_MaxRecords 10
    (set_Backup_Common (set_Parallel 2 zero_Common) estimate_partition_list).

Definition estimate_rack_list : Backup :=
  set_RackList "1"
    (set_Backup_Common (set_Namespace "test" zero_Common)
       (set_Estimate true zero_Backup)).

Definition validate_only_no_input : Restore :=
  set_ValidateOnly true (set_Mode "asb" zero_Restore).

Definition validate_only_input_file : Restore :=
  set_InputFile "backup.asb" validate_only_no_input.

Definition restore_ns (ns : string) : Restore :=
  set_Restore_Common (set_Namespace ns zero_Common) zero_Restore.

Definition stdout_backup : Backup :=
  set_FileLimit 1000
    (set_OutputFile "-"
       (set_Backup_Common (set_Parallel 8 zero_Common) zero_Backup)).

(** *** Restore *)

(** Exactly one of input-file, directory and directory-list is set. *)
Definition exactly_one_input (r : Restore) : Prop :=
  (InputFile r <> "" /\ Directory (Restore_Common r) = ""
   /\ DirectoryList r = "")
  \/ (InputFile r = "" /\ Directory (Restore_Common r) <> ""
      /\ DirectoryList r = "")
  \/ (InputFile r = "" /\ Directory (Restore_Common r) = ""
      /\ DirectoryList r <> "").

(** A token holds no comma. *)
Fixpoint comma_free (s : string) : Prop :=
  match s with
  | EmptyString => True
  | String c rest => c <> ","%char /\ comma_free rest
  end.

(** *** Partition filters *)

(** The last partition of a filter, in unbounded arithmetic. *)
Definition last_partition (f : PartitionFilter) : Z := Begin f + Count f - 1.

(** The last partition is representable as a Go [int]. *)
Definition fits_int (f : PartitionFilter) : Prop :=
  - 2 ^ 63 <= Begin f + Count f - 1 < 2 ^ 63.

(** Two point filters on the same partition. *)
Definition same_point (f g : PartitionFilter) : Prop :=
  Count f = 1 /\ Count g = 1 /\ Begin f = Begin g.

(** Two range filters whose closed intervals share a partition: they
    overlap, or the begin of one is the end of the other. *)
Definition overlap (f g : PartitionFilter) : Prop :=
  1 < Count f /\ 1 < Count g /\
  Begin f <= last_partition g /\ Begin g <= last_partition f.

(** What is assumed of [sort.Slice] with [less_begin]: the result is a
    rearrangement of the input in ascending order of begin. *)
Definition le_begin (a b : Z * Z) : Prop := fst a <= fst b.

Definition sorts_by_begin
    (sort_Slice : (Z * Z -> Z * Z -> bool) -> list (Z * Z) -> list (Z * Z))
    : Prop :=
  forall l, Permutation (sort_Slice less_begin l) l /\
            Sorted le_begin (sort_Slice less_begin l).

Definition points (fs : list PartitionFilter) : list Z :=
  map Begin (List.filter (fun f => Count f =? 1) fs).
Definition interval_of (f : PartitionFilter) : Z * Z :=
  (Begin f, wrap64 (wrap64 (Begin f + Count f) - 1)).
Definition intervals_of (fs : list PartitionFilter) : list (Z * Z) :=
  map interval_of (List.filter (fun f => 1 <? Count f) fs).

Definition before (a b : Z * Z) : Prop := snd a < fst b.
Definition disjoint (a b : Z * Z) : Prop := snd a < fst b \/ snd b < fst a.

Definition scan_all (l : list (Z * Z)) : option error :=
  match l with
  | [] => None
  | first :: rest => scan_intervals first rest
  end.

(** The filters that are accepted: every count is at least 1, no two
    point filters are on the same partition, no two ranges share one. *)
Definition accepted (fs : list PartitionFilter) : Prop :=
  Forall (fun f => 1 <= Count f) fs /\
  ForallOrdPairs (fun f g => ~ same_point f g) fs /\
  ForallOrdPairs (fun f g => ~ overlap f g) fs.

(** An instance of [sort.Slice]: insertion sort, which is what Go runs
    on slices of at most 12 elements. *)
Fixpoint insert_sorted (less : Z * Z -> Z * Z -> bool) (x : Z * Z)
    (l : list (Z * Z)) : list (Z * Z) :=
  match l with
  | [] => [x]
  | y :: l' => if less x y then x :: l else y :: insert_sorted less x l'
  end.

Definition insertion_sort (less : Z * Z -> Z * Z -> bool) (l : list (Z * Z))
    : list (Z * Z) :=
  fold_right (insert_sorted less) [] l.

(** *** File prefix *)

(** The bytes of backslash, slash, colon, star, question mark, double
    quote, less-than, greater-than and bar. *)
Definition forbidden_bytes : list Z := [92; 47; 58; 42; 63; 34; 60; 62; 124].

(** A forbidden character, a control character or DEL. *)
Definition forbidden (c : Z) : Prop :=
  c ∈ forbidden_bytes \/ c < 32 \/ c = 127.

(** The first, the last rune of the prefix is white space. *)
Definition leading_space (s : string) : Prop :=
  IsSpace (fst (DecodeRune (bytes s))) = true.
Definition trailing_space (s : string) : Prop :=
  IsSpace (fst (DecodeLastRune (bytes s))) = true.

(** Digits, ASCII letters, ['.'], ['-'], ['_'] and the space. *)
Definition plain (b : Z) : Prop :=
  48 <= b <= 57 \/ 65 <= b <= 90 \/ 97 <= b <= 122
  \/ b = 46 \/ b = 45 \/ b = 95 \/ b = 32.

(** *** Time strings *)

(** The decimal digit [k], and numbers written with two and with four
    digits in front of [rest]. *)
Definition digit_char (k : Z) : ascii := ascii_of_nat (Z.to_nat (48 + k)).
Definition two_then (n : Z) (rest : string) : string :=
  String (digit_char (n / 10)) (String (digit_char (n mod 10)) rest).
Definition four_then (n : Z) (rest : string) : string :=
  String (digit_char (n / 1000)) (String (digit_char (n / 100 mod 10))
    (String (digit_char (n / 10 mod 10)) (String (digit_char (n mod 10)) rest))).

(** [YYYY-MM-DD], [HH:MM:SS] and [YYYY-MM-DD_HH:MM:SS]. *)
Definition date_then (y mo d : Z) (rest : string) : string :=
  four_then y (String "-" (two_then mo (String "-" (two_then d rest)))).
Definition time_string (h mi se : Z) : string :=
  two_then h (String ":" (two_then mi (String ":" (two_then se "")))).
Definition date_string (y mo d : Z) : string := date_then y mo d "".
Definition datetime_string (y mo d h mi se : Z) : string :=
  date_then y mo d (String "_" (time_string h mi se)).

Definition digits2 (n : Z) : Prop := 0 <= n < 100.
Definition digits4 (n : Z) : Prop := 0 <= n < 10000.

Definition is_datetime (s : string) : Prop :=
  exists y mo d h mi se,
    digits4 y /\ digits2 mo /\ digits2 d /\ digits2 h /\ digits2 mi
    /\ digits2 se /\ s = datetime_string y mo d h mi se.
Definition is_time (s : string) : Prop :=
  exists h mi se,
    digits2 h /\ digits2 mi /\ digits2 se /\ s = time_string h mi se.
Definition is_date (s : string) : Prop :=
  exists y mo d,
    digits4 y /\ digits2 mo /\ digits2 d /\ s = date_string y mo d.

(** The fields denote a date and a time of day. *)
Definition valid_civil (y mo d h mi se : Z) : bool :=
  (1 <=? mo) && (mo <=? 12) && (1 <=? d) && (d <=? daysIn mo y)
  && (h <=? 23) && (mi <=? 59) && (se <=? 59).

(** The outcome of [parseLocalTimeToUTC] on a string that was normalised
    to the given fields: the instant of that local time, in UTC, when
    the fields are valid, and a "failed to parse time" error otherwise. *)
Definition parsed_as (E : TimeEnv) (location : Location E)
    (timeString : string) (y mo d h mi se : Z) : Prop :=
  if valid_civil y mo d h mi se
  then parseLocalTimeToUTC E timeString
       = Ok (UTC E (Date E y mo d h mi se location))
  else exists err,
       parseLocalTimeToUTC E timeString
       = Err (Errorf "failed to parse time %s: %w"
                     [AStr timeString; AErr err]).

Fixpoint re_length (re : list re_item) : nat :=
  match re with
  | [] => 0
  | Digits n :: re' => n + re_length re'
  | Lit _ :: re' => S (re_length re')
  end.

(** A system whose local zone is UTC, on 2024-01-15: an instant is its
    civil time in UTC. *)
Definition utc_env : TimeEnv :=
  {| Time := Z * Z * Z * Z * Z * Z;
     Location := unit;
     LoadLocation := fun _ => Ok tt;
     today := fun _ => "2024-01-15";
     Date := fun y mo d h mi se _ => (y, mo, d, h, mi, se);
     UTC := fun t => t |}.

(** *** Storages *)

Definition only_one_provider : error :=
  Errorf "only one cloud provider can be configured" [].

(** Local storage, when present, is valid. *)
Definition local_valid (M : StorageModels) (isBackup : bool)
    (local : option (Local M)) : Prop :=
  match local with
  | Some l => Local_Validate M l isBackup = None
  | None => True
  end.

(** A provider, when configured, is valid. *)
Definition valid_if_configured {A : Type} (IsConfigured : option A -> bool)
    (validate : A -> option error) (p : option A) : Prop :=
  match p with
  | Some a => IsConfigured p = true -> validate a = None
  | None => True
  end.

(** The number of configured cloud providers. *)
Definition configured_count (M : StorageModels) (awsS3 : option (AwsS3 M))
    (gcpStorage : option (GcpStorage M)) (azureBlob : option (AzureBlob M))
    : Z :=
  (if AwsS3_IsConfigured M awsS3 then 1 else 0)
  + (if GcpStorage_IsConfigured M gcpStorage then 1 else 0)
  + (if AzureBlob_IsConfigured M azureBlob then 1 else 0).

(** A provider that is not configured, taken as absent. *)
Definition if_configured {A : Type} (IsConfigured : option A -> bool)
    (p : option A) : option A :=
  if IsConfigured p then p else None.

(** A storage model for concrete inputs: an S3 or GCP configuration is
    its bucket name, a local one its directory, and [Validate] asks for
    that name. *)
Definition require_name (what : string) (name : string) (isBackup : bool)
    : option error :=
  if String.eqb name "" then Some (Errorf "%s is required" [AStr what])
  else None.

Definition named_storages : StorageModels :=
  {| AwsS3 := string;
     s3_BucketName := fun a => a;
     s3_Region := fun _ => "";
     s3_Profile := fun _ => "";
     s3_Endpoint := fun _ => "";
     AwsS3_Validate := require_name "bucket name";
     GcpStorage := string;
     gcp_BucketName := fun g => g;
     gcp_KeyFile := fun _ => "";
     gcp_Endpoint := fun _ => "";
     GcpStorage_Validate := require_name "bucket name";
     Local := string;
     Local_Validate := require_name "directory";
     StorageCommon := unit;
     StorageCommon_Validate := fun _ _ => None |}.

(** *** Backup configuration *)

Definition is_Ok {A : Type} (r : result A) : Prop := exists a, r = Ok a.

(** An engine for concrete inputs: filter expressions and digests are
    kept as given, partition lists and numbers are not parsed, and no
    compression, encryption or secret agent is configured. *)
Definition plain_engine : Engine :=
  {| Expression := string;
     ExpFromBase64 := fun s => Ok s;
     NewPartitionFilterAfterDigest :=
       fun _ _ => Ok {| Begin := 0; Count := 1 |};
     ParsePartitionFilterListString :=
       fun _ s => Err (Errorf "invalid partition filter list %s" [AStr s]);
     NewPartitionFilterAll := {| Begin := 0; Count := 4096 |};
     sort_Slice := insertion_sort;
     Atoi := fun s => Err (Errorf "strconv.Atoi: parsing %q" [AStr s]);
     path_Join := fun a b => a +:+ "/" +:+ b;
     Compression := unit;
     CompressionPolicy := unit;
     Compression_Policy := fun _ => None;
     Encryption := unit;
     EncryptionPolicy := unit;
     Encryption_Policy := fun _ => None;
     SecretAgent := unit;
     SecretAgentConfig := unit;
     SecretAgent_Config := fun _ => None |}.

Definition plain_scan_policy : ScanPolicy plain_engine :=
  {| sp_MaxRecords := 0; sp_MaxRetries := 0; sp_SleepBetweenRetries := 0;
     sp_TotalTimeout := 0; sp_SocketTimeout := 0;
     sp_ReplicaPolicy := SEQUENCE; sp_IncludeBinData := true;
     sp_FilterExpression := None |}.

Definition plain_config : ConfigBackup plain_engine utc_env :=
  {| cb_Namespace := ""; cb_SetList := []; cb_BinList := [];
     cb_NoRecords := false; cb_NoIndexes := false; cb_RecordsPerSecond := 0;
     cb_FileLimit := 0; cb_NoUDFs := false; cb_ParallelWrite := 1;
     cb_ParallelRead := 1; cb_Bandwidth := 0; cb_Compact := false;
     cb_NoTTLOnly := false; cb_OutputFilePrefix := "";
     cb_MetricsEnabled := false; cb_RackList := []; cb_StateFile := "";
     cb_Continue := false; cb_PageSize := 0; cb_NodeList := [];
     cb_PartitionFilters := []; cb_ScanPolicy := None;
     cb_CompressionPolicy := None; cb_EncryptionPolicy := None;
     cb_SecretAgentConfig := None; cb_ModBefore := None;
     cb_ModAfter := None |}.

Definition stdout_service : BackupServiceConfig plain_engine :=
  {| cfg_Backup := Some stdout_backup; cfg_Compression := None;
     cfg_Encryption := None; cfg_SecretAgent := None |}.

(** *** Filters, targets, tokens *)

(** The names of the filters that are set, in the order of the tests of
    [validateSingleFilter]. *)
Definition name_if_set (value name : string) : list string :=
  if nonempty value then [name] else [].

Definition set_filter_names (b : Backup) : list string :=
  (name_if_set (AfterDigest b) "after-digest"
   ++ name_if_set (PartitionList b) "partition-list"
   ++ name_if_set (NodeList b) "node-list"
   ++ name_if_set (RackList b) "rack-list")%list.

(** The backup goes to exactly one of: an estimate, a file, a
    directory. *)
Definition one_target (b : Backup) : Prop :=
  (Estimate b = true /\ OutputFile b = ""
   /\ Directory (Backup_Common b) = "")
  \/ (Estimate b = false /\ OutputFile b <> ""
      /\ Directory (Backup_Common b) = "")
  \/ (Estimate b = false /\ OutputFile b = ""
      /\ Directory (Backup_Common b) <> "").

(** None of the filters that the estimate block tests is set. *)
Definition no_estimate_filter (b : Backup) : Prop :=
  PartitionList b = "" /\ NodeList b = "" /\ AfterDigest b = ""
  /\ FilterExpression b = "" /\ ModifiedAfter b = ""
  /\ ModifiedBefore b = "" /\ NoTTLOnly b = false.

(** The number of commas of a string. *)
Fixpoint commas (s : string) : nat :=
  match s with
  | EmptyString => 0
  | String c rest => if Ascii.eqb c "," then S (commas rest) else commas rest
  end.

(** The token [s] reads as the rack id [rackID], which is in range. *)
Definition valid_rack (G : Engine) (s : string) (rackID : Z) : Prop :=
  Atoi G s = Ok rackID /\ 0 <= rackID <= MaxRack.

(** The error for the offending character [c] at byte offset [i] of the
    prefix: one of the nine characters, a control character, or DEL. *)
Definition offender_error (prefix : string) (i : nat) (c : Z) : error :=
  if bool_decide (c ∈ forbidden_bytes) then
    Errorf "file prefix contains invalid character '%c' at position %d: %q"
           [ARune c; AInt (Z.of_nat i); AStr prefix]
  else if c <? 32 then
    Errorf "file prefix contains control character (0x%02X) at position %d: %q"
           [ARune c; AInt (Z.of_nat i); AStr prefix]
  else
    Errorf "file prefix contains DEL character at position %d: %q"
           [AInt (Z.of_nat i); AStr prefix].

(** *** Azure *)

(** What [AzureBlob.Validate] asks of the fields of [a]. *)
Definition azure_fields_valid {M : StorageModels} (a : AzureBlob M)
    (isBackup : bool) : Prop :=
  az_ContainerName a <> "" /\ az_Endpoint a <> ""
  /\ 0 <= az_RetryMaxAttempts a /\ 0 <= az_RetryDelay a
  /\ 0 <= az_RetryMaxDelay a
  /\ (if isBackup then 1 <= az_BlockSize a /\ 1 <= az_UploadConcurrency a
      else 1 <= az_RestorePollDuration a)
  /\ StorageCommon_Validate M (Azure_StorageCommon a) isBackup = None.

(** None of the identifying fields that [ValidateStorages] tests is set. *)
Definition s3_unset (M : StorageModels) (awsS3 : option (AwsS3 M)) : Prop :=
  match awsS3 with
  | Some a => s3_BucketName M a = "" /\ s3_Region M a = ""
              /\ s3_Profile M a = "" /\ s3_Endpoint M a = ""
  | None => True
  end.

Definition gcp_unset (M : StorageModels) (gcpStorage : option (GcpStorage M))
    : Prop :=
  match gcpStorage with
  | Some g => gcp_BucketName M g = "" /\ gcp_KeyFile M g = ""
              /\ gcp_Endpoint M g = ""
  | None => True
  end.

Definition azure_backup : AzureBlob named_storages :=
  {| az_AccountName := "account"; az_AccountKey := "key"; az_TenantID := "";
     az_ClientID := ""; az_ClientSecret := "";
     az_Endpoint := "http://127.0.0.1:10000/devstoreaccount1";
     az_ContainerName := "backups"; az_AccessTier := "";
     az_RestorePollDuration := 0; az_RetryMaxAttempts := 3;
     az_RetryDelay := 60; az_RetryMaxDelay := 120; az_BlockSize := 5;
     az_UploadConcurrency := 1;
     Azure_StorageCommon := (tt : StorageCommon named_storages) |}.

(** *** More concrete inputs *)

(** An instance of [strconv.Atoi] for concrete inputs: a string of
    decimal digits that is not empty. *)
Fixpoint digits_value (acc : Z) (s : string) : option Z :=
  match s with
  | EmptyString => Some acc
  | String c rest =>
    if is_digit c then digits_value (acc * 10 + digit_val c) rest else None
  end.

Definition Atoi_digits (s : string) : result Z :=
  match s with
  | EmptyString =>
    Err (Errorf "strconv.Atoi: parsing %q: invalid syntax" [AStr s])
  | _ =>
    match digits_value 0 s with
    | Some n => Ok n
    | None => Err (Errorf "strconv.Atoi: parsing %q: invalid syntax" [AStr s])
    end
  end.

(** [plain_engine] with that [Atoi]. *)
Definition decimal_engine : Engine :=
  {| Expression := string;
     ExpFromBase64 := fun s => Ok s;
     NewPartitionFilterAfterDigest :=
       fun _ _ => Ok {| Begin := 0; Count := 1 |};
     ParsePartitionFilterListString :=
       fun _ s => Err (Errorf "invalid partition filter list %s" [AStr s]);
     NewPartitionFilterAll := {| Begin := 0; Count := 4096 |};
     sort_Slice := insertion_sort;
     Atoi := Atoi_digits;
     path_Join := fun a b => a +:+ "/" +:+ b;
     Compression := unit;
     CompressionPolicy := unit;
     Compression_Policy := fun _ => None;
     Encryption := unit;
     EncryptionPolicy := unit;
     Encryption_Policy := fun _ => None;
     SecretAgent := unit;
     SecretAgentConfig := unit;
     SecretAgent_Config := fun _ => None |}.

Definition decimal_scan_policy : ScanPolicy decimal_engine :=
  {| sp_MaxRecords := 0; sp_MaxRetries := 0; sp_SleepBetweenRetries := 0;
     sp_TotalTimeout := 0; sp_SocketTimeout := 0;
     sp_ReplicaPolicy := SEQUENCE; sp_IncludeBinData := true;
     sp_FilterExpression := None |}.

Definition decimal_config : ConfigBackup decimal_engine utc_env :=
  {| cb_Namespace := ""; cb_SetList := []; cb_BinList := [];
     cb_NoRecords := false; cb_NoIndexes := false; cb_RecordsPerSecond := 0;
     cb_FileLimit := 0; cb_NoUDFs := false; cb_ParallelWrite := 1;
     cb_ParallelRead := 1; cb_Bandwidth := 0; cb_Compact := false;
     cb_NoTTLOnly := false; cb_OutputFilePrefix := "";
     cb_MetricsEnabled := false; cb_RackList := []; cb_StateFile := "";
     cb_Continue := false; cb_PageSize := 0; cb_NodeList := [];
     cb_PartitionFilters := []; cb_ScanPolicy := None;
     cb_CompressionPolicy := None; cb_EncryptionPolicy := None;
     cb_SecretAgentConfig := None; cb_ModBefore := None;
     cb_ModAfter := None |}.

Definition set_ModifiedBefore (v : string) (b : Backup) : Backup :=
  {| Backup_Common := Backup_Common b; MaxRetries := MaxRetries b;
     OutputFile := OutputFile b; RemoveFiles := RemoveFiles b;
     ModifiedBefore := v; ModifiedAfter := ModifiedAfter b;
     FileLimit := FileLimit b; AfterDigest := AfterDigest b;
     MaxRecords := MaxRecords b; NoBins := NoBins b;
     SleepBetweenRetries := SleepBetweenRetries b;
     FilterExpression := FilterExpression b;
     RemoveArtifacts := RemoveArtifacts b; Compact := Compact b;
     NodeList := NodeList b; NoTTLOnly := NoTTLOnly b;
     PreferRacks := PreferRacks b; PartitionList := PartitionList b;
     Estimate := Estimate b; EstimateSamples := EstimateSamples b;
     StateFileDst := StateFileDst b; Continue := Continue b;
     ScanPageSize := ScanPageSize b; OutputFilePrefix := OutputFilePrefix b;
     RackList := RackList b |}.

Definition directory_backup : Backup :=
  set_FileLimit 250
    (set_Backup_Common
       (set_Parallel 4
          (set_Namespace "test" (set_Directory "backups" zero_Common)))
       zero_Backup).

Definition resumed_backup : Backup := set_Continue "state" directory_backup.

Definition dated_backup : Backup :=
  set_ModifiedBefore "2024-02-29" directory_backup.

Definition rack_backup : Backup := set_RackList "1,20" directory_backup.

Definition service_of {G : Engine} (b : Backup) : BackupServiceConfig G :=
  {| cfg_Backup := Some b; cfg_Compression := None; cfg_Encryption := None;
     cfg_SecretAgent := None |}.

Definition directory_restore : Restore :=
  set_Mode "auto"
    (set_Restore_Common
       (set_Namespace "test" (set_Directory "backups" zero_Common))
       zero_Restore).

Definition shouting : Config :=
  {| Level := "  WARN "; Verbose := true; JSON := false; File := "" |}.

Definition blank : Config :=
  {| Level := "  "; Verbose := true; JSON := false; File := "" |}.

(** A certificate flag that keeps the text given to it and whose [Set]
    finds no file. *)
Definition text_certs : CertFlags :=
  {| CertFlag := string;
     CertFlag_of_string := fun s => s;
     CertFlag_Set := fun o val =>
       (o, Some (Errorf "open %s: no such file or directory" [AStr val]));
     CertFlag_String := fun o => o |}.

Definition fresh_cert : deferredCertValue text_certs :=
  {| pendingSecret := false; raw := "";
     original := ("" : CertFlag text_certs) |}.

(** A secret agent that knows one secret. *)
Definition one_secret (s : string) : result string :=
  if String.eqb s "secrets:tls:cafile" then Ok "-----BEGIN CERTIFICATE-----"
  else Err (Errorf "secret %s not found" [AStr s]).

(** Three strings at the addresses 0, 1 and 2; every other address holds
    the empty string. *)
Definition three_fields : store :=
  fun p => nth p ["admin"; "secrets:tls:cafile"; "secrets:aws:key"] "".

(** * Properties *)

Ltac div_lia := Z.div_mod_to_equations; lia.

Ltac split_conj :=
  repeat match goal with |- _ /\ _ => refine (conj _ _) end.

Lemma nonempty_true s : nonempty s = true <-> s <> "".
Proof. unfold nonempty. rewrite negb_true_iff. apply String.eqb_neq. Qed.

Lemma nonempty_false s : nonempty s = false <-> s = "".
Proof. unfold nonempty. rewrite negb_false_iff. apply String.eqb_eq. Qed.

(** ** Backup *)

(** C10. [ShouldClearTarget] holds exactly when remove-files or
    remove-artifacts is set and continue is empty; with a continue token
    it is false whatever the two flags are. *)
Theorem ShouldClearTarget_iff (b : Backup) :
  (ShouldClearTarget b = true <->
   (RemoveFiles b = true \/ RemoveArtifacts b = true) /\ Continue b = "")
  /\ (Continue b <> "" -> ShouldClearTarget b = false).
Proof.
  unfold ShouldClearTarget. split.
  - rewrite andb_true_iff, orb_true_iff, String.eqb_eq. reflexivity.
  - intros Hc. apply String.eqb_neq in Hc. rewrite Hc. apply andb_false_r.
Qed.

Lemma ShouldClearTarget_iff_witness :
  ShouldClearTarget clear_on_continue = false.
Proof.
  apply (proj2 (ShouldClearTarget_iff clear_on_continue)). discriminate.
Defined.

Section BackupValidate.
Variable Common_Validate : Common -> option error.

(** [Backup.Validate] returns the error of the first of the ten checks
    that fails. *)
Lemma Backup_Validate_first_error b :
  Backup_Validate Common_Validate (Some b)
  = first_error (checks Common_Validate) b.
Proof.
  unfold Backup_Validate, checks, first_error,
    check_output_target, check_output_exclusive, check_prefix,
    check_prefix_with_file, check_continue_state, check_continue_remove,
    check_max_records, check_estimate.
  repeat match goal with
  | |- context [if ?c then _ else _] => destruct c eqn:?
  | |- context [match ?c with Some _ => _ | None => _ end] =>
    destruct c eqn:?
  end; reflexivity.
Qed.

Lemma first_error_earliest cs b i ci ei :
  cs !! i = Some ci -> ci b = Some ei ->
  exists k ck e,
    (k <= i)%nat /\ cs !! k = Some ck /\ ck b = Some e /\
    (forall m cm, (m < k)%nat -> cs !! m = Some cm -> cm b = None) /\
    first_error cs b = Some e.
Proof.
  revert i. induction cs as [|c cs IH]; intros i Hi He.
  - discriminate.
  - destruct (c b) as [e|] eqn:Hc.
    + exists 0%nat, c, e. simpl. rewrite Hc.
      repeat split; try lia; auto.
    + destruct i as [|i].
      * simpl in Hi. injection Hi as ->. congruence.
      * simpl in Hi.
        destruct (IH i Hi He) as (k & ck & e & Hk & Hck & Hb & Hmin & Hfe).
        exists (S k), ck, e. simpl. rewrite Hc.
        repeat split; try lia; auto.
        intros [|m] cm Hm Hcm.
        -- simpl in Hcm. injection Hcm as <-. exact Hc.
        -- simpl in Hcm. apply (Hmin m); [lia | exact Hcm].
Qed.

(** C2. When a [Backup] violates two (or more) of the ten checks, at
    positions [i < j] of the fixed order, [Backup.Validate] returns one
    error: that of the earliest check [k] the value violates. *)
Theorem Backup_Validate_earliest_violation (b : Backup)
    (i j : nat) (ci cj : Backup -> option error) (ei ej : error) :
  (i < j)%nat ->
  checks Common_Validate !! i = Some ci -> ci b = Some ei ->
  checks Common_Validate !! j = Some cj -> cj b = Some ej ->
  exists k ck e,
    (k <= i)%nat /\ checks Common_Validate !! k = Some ck /\
    ck b = Some e /\
    (forall m cm, (m < k)%nat -> checks Common_Validate !! m = Some cm ->
                  cm b = None) /\
    Backup_Validate Common_Validate (Some b) = Some e.
Proof.
  intros _ Hi Hei _ _. rewrite Backup_Validate_first_error.
  eapply first_error_earliest; eauto.
Qed.

(** C1, amended. With estimate set, the eight checks that precede the
    estimate block passed, and one of partition-list, node-list,
    after-digest, filter-expression, modified-after, modified-before or
    no-ttl-only set, [Backup.Validate] returns "estimate with any filter
    is not allowed". *)
Theorem Backup_Validate_estimate_filter (b : Backup) :
  Estimate b = true ->
  Forall (fun c => c b = None) (take 8 (checks Common_Validate)) ->
  PartitionList b <> "" \/ NodeList b <> "" \/ AfterDigest b <> "" \/
  FilterExpression b <> "" \/ ModifiedAfter b <> "" \/
  ModifiedBefore b <> "" \/ NoTTLOnly b = true ->
  Backup_Validate Common_Validate (Some b)
  = Some (Errorf "estimate with any filter is not allowed" []).
Proof.
  intros He Hpass Hf. rewrite Backup_Validate_first_error.
  unfold checks in *. simpl in Hpass.
  repeat match goal with
  | H : Forall _ (_ :: _) |- _ =>
    apply Forall_cons_1 in H; destruct H as [? H]
  end.
  simpl.
  repeat match goal with H : ?c b = None |- _ => rewrite H; clear H end.
  unfold check_estimate. rewrite He.
  assert (nonempty (PartitionList b) || nonempty (NodeList b)
       || nonempty (AfterDigest b) || nonempty (FilterExpression b)
       || nonempty (ModifiedAfter b) || nonempty (ModifiedBefore b)
       || NoTTLOnly b = true) as ->; [|reflexivity].
  rewrite !orb_true_iff, !nonempty_true. tauto.
Qed.
End BackupValidate.

Lemma Backup_Validate_earliest_violation_witness :
  exists k ck e,
    (k <= 1)%nat /\ checks Common_Validate_spec !! k = Some ck /\
    ck two_violations = Some e /\
    (forall m cm, (m < k)%nat -> checks Common_Validate_spec !! m = Some cm ->
                  cm two_violations = None) /\
    Backup_Validate Common_Validate_spec (Some two_violations) = Some e.
Proof.
  apply (Backup_Validate_earliest_violation Common_Validate_spec
           two_violations 1 7 check_output_exclusive check_max_records
           (Errorf "only one of output-file and directory may be configured at the same time" [])
           (Errorf "max-records must be used with parallel = 1" []));
    first [lia | reflexivity].
Defined.

Lemma Backup_Validate_estimate_filter_witness :
  Backup_Validate Common_Validate_spec (Some estimate_partition_list)
  = Some (Errorf "estimate with any filter is not allowed" []).
Proof.
  apply (Backup_Validate_estimate_filter Common_Validate_spec
           estimate_partition_list).
  - reflexivity.
  - repeat constructor.
  - left. discriminate.
Defined.

(** C1 as stated fails on two inputs with estimate and one filter field
    set: with partition-list, max-records 10 and parallel 2 the earlier
    max-records check answers; with rack-list alone no check of the
    estimate block answers and validation goes on to [Common.Validate]. *)
Lemma Backup_Validate_estimate_counterexample :
  Backup_Validate Common_Validate_spec (Some estimate_max_records)
  = Some (Errorf "max-records must be used with parallel = 1" [])
  /\ Backup_Validate Common_Validate_spec (Some estimate_rack_list) = None.
Proof. split; reflexivity. Qed.

(** ** Restore *)

Lemma mode_recognized_iff m :
  String.eqb m RestoreModeAuto || String.eqb m RestoreModeASB
  || String.eqb m RestoreModeASBX = true
  <-> m = "auto" \/ m = "asb" \/ m = "asbx".
Proof.
  rewrite !orb_true_iff, !String.eqb_eq.
  unfold RestoreModeAuto, RestoreModeASB, RestoreModeASBX. tauto.
Qed.

(** C4, amended. With a recognized mode and validate-only set,
    [Restore.Validate] still asks for an input source: with none of the
    three set it returns "input file or directory required". Validate-only
    skips [Common.Validate] only: with exactly one input source, a parent
    directory only next to a directory list and a warm-up that is not
    negative, validation succeeds whatever [Common.Validate] answers. *)
Theorem Restore_Validate_validate_only
    (Common_Validate : Common -> option error) (r : Restore) :
  Mode r = "auto" \/ Mode r = "asb" \/ Mode r = "asbx" ->
  ValidateOnly r = true ->
  (InputFile r = "" -> Directory (Restore_Common r) = "" ->
   DirectoryList r = "" ->
   Restore_Validate Common_Validate (Some r)
   = Some (Errorf "input file or directory required" []))
  /\ (exactly_one_input r ->
      (ParentDirectory r = "" \/ DirectoryList r <> "") ->
      0 <= WarmUp r ->
      Restore_Validate Common_Validate (Some r) = None).
Proof.
  intros Hm Hv. apply mode_recognized_iff in Hm.
  unfold Restore_Validate. rewrite Hm, Hv. simpl. split.
  - intros -> -> ->. reflexivity.
  - intros Hone Hp Hw. unfold nonempty.
    destruct (String.eqb_spec (InputFile r) ""),
             (String.eqb_spec (Directory (Restore_Common r)) ""),
             (String.eqb_spec (DirectoryList r) ""),
             (String.eqb_spec (ParentDirectory r) "");
      unfold exactly_one_input in Hone; simpl; try tauto;
      destruct (Z.ltb_spec (WarmUp r) 0); try lia; reflexivity.
Qed.

Lemma Restore_Validate_validate_only_witness :
  Restore_Validate Common_Validate_spec (Some validate_only_input_file) = None.
Proof.
  apply (Restore_Validate_validate_only Common_Validate_spec
           validate_only_input_file).
  - right. left. reflexivity.
  - reflexivity.
  - left. repeat split. discriminate.
  - left. reflexivity.
  - simpl. lia.
Defined.

(** C4 as stated fails: validate-only, mode "asb" and no input source. *)
Lemma Restore_Validate_validate_only_counterexample :
  Restore_Validate Common_Validate_spec (Some validate_only_no_input)
  = Some (Errorf "input file or directory required" []).
Proof. reflexivity. Qed.

Lemma append_cons a s t : String a s +:+ t = String a (s +:+ t).
Proof. reflexivity. Qed.

Lemma append_nil s : "" +:+ s = s.
Proof. reflexivity. Qed.

Lemma append_assoc_char cur c t :
  (cur +:+ String c "") +:+ t = cur +:+ String c t.
Proof.
  induction cur as [|a cur IH]; [reflexivity|].
  rewrite !append_cons. now rewrite IH.
Qed.

Lemma append_empty_r s : s +:+ "" = s.
Proof.
  induction s as [|a s IH]; [reflexivity|]. rewrite append_cons. now rewrite IH.
Qed.

Lemma split_comma_last cur t :
  comma_free t -> split_comma cur t = [cur +:+ t].
Proof.
  revert cur. induction t as [|c t IH]; intros cur Hf; simpl.
  - now rewrite append_empty_r.
  - destruct Hf as [Hc Hf].
    destruct (Ascii.eqb_spec c ","%char); [contradiction|].
    rewrite IH by assumption. now rewrite append_assoc_char.
Qed.

Lemma split_comma_cons cur t rest :
  comma_free t ->
  split_comma cur (t +:+ String ","%char rest)
  = (cur +:+ t) :: split_comma "" rest.
Proof.
  revert cur. induction t as [|c t IH]; intros cur Hf.
  - rewrite append_nil, append_empty_r. reflexivity.
  - destruct Hf as [Hc Hf]. rewrite append_cons. simpl.
    destruct (Ascii.eqb_spec c ","%char); [contradiction|].
    rewrite IH by assumption. now rewrite append_assoc_char.
Qed.

(** Splitting the comma-joined tokens gives the tokens back. *)
Lemma Split_comma_Join ts :
  ts <> [] -> Forall comma_free ts -> Split_comma (Join ts ",") = ts.
Proof.
  unfold Split_comma. induction ts as [|t ts IH]; intros Hne Hf; [congruence|].
  apply Forall_cons_1 in Hf. destruct Hf as [Ht Hts].
  destruct ts as [|t' ts].
  - simpl. now rewrite split_comma_last.
  - change (Join (t :: t' :: ts) ",")
      with (t +:+ String ","%char (Join (t' :: ts) ",")).
    rewrite split_comma_cons by assumption. simpl (_ +:+ _).
    f_equal. apply IH; [discriminate | assumption].
Qed.

(** C8. For a namespace that is not empty and is the comma-joined list
    [ts] of tokens: one token gives source and destination equal to it,
    two tokens give source and destination in that order, three or more
    give [nil]. *)
Theorem NamespaceConfig_tokens (r : Restore) (ts : list string) :
  Forall comma_free ts ->
  Namespace (Restore_Common r) = Join ts "," ->
  Namespace (Restore_Common r) <> "" ->
  (forall t, ts = [t] ->
     NamespaceConfig r = Some {| Source := t; Destination := t |})
  /\ (forall s d, ts = [s; d] ->
     NamespaceConfig r = Some {| Source := s; Destination := d |})
  /\ ((3 <= length ts)%nat -> NamespaceConfig r = None).
Proof.
  intros Hf Hns Hne. unfold NamespaceConfig, splitByComma, SplitByComma.
  apply String.eqb_neq in Hne. rewrite Hne, Hns.
  destruct ts as [|t ts].
  { simpl in Hns. apply String.eqb_neq in Hne. congruence. }
  rewrite Split_comma_Join by (discriminate || assumption).
  repeat split.
  - intros t0 [= -> ->]. reflexivity.
  - intros s d [= -> ->]. reflexivity.
  - intros Hlen. destruct ts as [|? [|? ?]]; simpl in Hlen; try lia.
    reflexivity.
Qed.

Lemma NamespaceConfig_tokens_witness :
  NamespaceConfig (restore_ns "source-ns,destination-ns")
  = Some {| Source := "source-ns"; Destination := "destination-ns" |}.
Proof.
  apply (NamespaceConfig_tokens (restore_ns "source-ns,destination-ns")
           ["source-ns"; "destination-ns"]).
  - repeat constructor; discriminate.
  - reflexivity.
  - discriminate.
  - reflexivity.
Defined.

(** ** File prefix *)

Lemma byte_of_range a : 0 <= byte_of a < 256.
Proof.
  unfold byte_of. pose proof (nat_ascii_bounded a). lia.
Qed.

Lemma bytes_range s : Forall (fun b => 0 <= b < 256) (bytes s).
Proof.
  unfold bytes. induction s as [|a s IH]; simpl; constructor.
  - apply byte_of_range.
  - exact IH.
Qed.

Ltac case_bool :=
  repeat match goal with
  | |- context [if ?c then _ else _] => destruct c eqn:?
  | |- context [match ?l with [] => _ | _ :: _ => _ end] => destruct l
  end.

Lemma DecodeRune_cases b0 t :
  let '(r, w) := DecodeRune (b0 :: t) in
  (w = 1%nat /\ b0 < 128 /\ r = b0)
  \/ (128 <= r /\ (1 <= w)%nat /\ Forall (fun b => 128 <= b) (take w (b0 :: t))).
Proof.
  unfold DecodeRune, RuneSelf, RuneError, cont, lo3, hi3, lo4, hi4.
  case_bool; simpl;
    repeat match goal with
    | H : (_ && _) = true |- _ => apply andb_true_iff in H; destruct H
    | H : (_ <=? _) = true |- _ => apply Z.leb_le in H
    | H : (_ <? _) = true |- _ => apply Z.ltb_lt in H
    | H : (_ <? _) = false |- _ => apply Z.ltb_ge in H
    | H : (_ =? _) = true |- _ => apply Z.eqb_eq in H
    | H : (_ =? _) = false |- _ => apply Z.eqb_neq in H
    end;
    first [ left; repeat split; lia
          | right; repeat split; try lia; repeat constructor; lia ].
Qed.

Lemma range_from_ascii (P : Z -> Prop) fuel : forall i s,
  (length s <= fuel)%nat ->
  (exists ir, ir ∈ range_from fuel i s /\ snd ir < 128 /\ P (snd ir)) <->
  (exists b, b ∈ s /\ b < 128 /\ P b).
Proof.
  induction fuel as [|fuel IH]; intros i s Hlen.
  - destruct s; [|simpl in Hlen; lia]. simpl. split.
    + intros (ir & Hin & _). inversion Hin.
    + intros (b & Hin & _). inversion Hin.
  - destruct s as [|b0 t].
    { simpl. split.
      + intros (ir & Hin & _). inversion Hin.
      + intros (b & Hin & _). inversion Hin. }
    cbn [range_from]. pose proof (DecodeRune_cases b0 t) as Hc.
    destruct (DecodeRune (b0 :: t)) as [r w].
    assert (Hw : (1 <= w)%nat) by (destruct Hc as [(-> & _)|(_ & ? & _)]; lia).
    assert (Hlen' : (length (drop w (b0 :: t)) <= fuel)%nat).
    { rewrite length_drop. simpl in *. lia. }
    specialize (IH (i + w)%nat (drop w (b0 :: t)) Hlen').
    split.
    + intros (ir & Hin & Hlt & HP). apply elem_of_cons in Hin.
      destruct Hin as [->|Hin].
      * simpl in *. destruct Hc as [(_ & Hb & ->)|(Hr & _)]; [|lia].
        exists b0. split; [left | auto].
      * destruct (proj1 IH) as (b & Hb & Hb').
        { exists ir. auto. }
        exists b. split; [|assumption].
        rewrite <- (take_drop w (b0 :: t)). apply elem_of_app. right. assumption.
    + intros (b & Hin & Hlt & HP).
      rewrite <- (take_drop w (b0 :: t)) in Hin. apply elem_of_app in Hin.
      destruct Hin as [Hin|Hin].
      * destruct Hc as [(-> & Hb & ->)|(_ & _ & Hall)].
        -- simpl in Hin. rewrite take_0 in Hin. apply list_elem_of_singleton in Hin.
           subst b. exists (i, b0). split; [left | auto].
        -- rewrite Forall_forall in Hall. specialize (Hall b Hin). lia.
      * destruct (proj2 IH) as (ir & Hir & Hir').
        { exists b. auto. }
        exists ir. split; [right; assumption | assumption].
Qed.

Lemma ContainsRune_invalidChars r :
  ContainsRune invalidChars r = true <-> r ∈ forbidden_bytes.
Proof.
  unfold ContainsRune.
  replace (range invalidChars) with
    [(0%nat, 92); (1%nat, 47); (2%nat, 58); (3%nat, 42); (4%nat, 63);
     (5%nat, 34); (6%nat, 60); (7%nat, 62); (8%nat, 124)] by reflexivity.
  unfold forbidden_bytes. cbn [existsb snd]. rewrite !orb_true_iff, !Z.eqb_eq.
  rewrite !elem_of_cons, elem_of_nil. intuition congruence.
Qed.

Lemma forbidden_ascii c : forbidden c -> c < 128.
Proof.
  unfold forbidden, forbidden_bytes. rewrite !elem_of_cons, elem_of_nil.
  intuition lia.
Qed.

Lemma check_chars_Some prefix rs :
  check_chars prefix rs <> None <-> exists ir, ir ∈ rs /\ forbidden (snd ir).
Proof.
  induction rs as [|[i char] rs IH]; simpl.
  - split; [congruence|]. intros (ir & Hin & _). inversion Hin.
  - destruct (ContainsRune invalidChars char) eqn:Hc.
    { split; [|discriminate]. intros _. exists (i, char). split; [left|].
      left. apply ContainsRune_invalidChars. assumption. }
    destruct (Z.ltb_spec char 32) as [Hlt|Hge].
    { split; [|discriminate]. intros _. exists (i, char). split; [left|].
      right. left. assumption. }
    destruct (Z.eqb_spec char 127) as [Heq|Hne].
    { split; [|discriminate]. intros _. exists (i, char). split; [left|].
      right. right. assumption. }
    rewrite IH. split.
    + intros (ir & Hin & Hf). exists ir. split; [right; assumption | assumption].
    + intros (ir & Hin & Hf). apply elem_of_cons in Hin. destruct Hin as [->|Hin].
      * exfalso. simpl in Hf. destruct Hf as [Hf|[Hf|Hf]]; try lia.
        apply ContainsRune_invalidChars in Hf. congruence.
      * exists ir. auto.
Qed.

Lemma check_chars_range prefix :
  check_chars prefix (range prefix) <> None <->
  exists c, c ∈ bytes prefix /\ forbidden c.
Proof.
  rewrite check_chars_Some. unfold range.
  pose proof (range_from_ascii forbidden (length (bytes prefix)) 0 (bytes prefix)
                (Nat.le_refl _)) as H.
  split.
  - intros (ir & Hin & Hf). destruct (proj1 H) as (b & Hb & _ & Hfb).
    { exists ir. repeat split; try assumption. apply forbidden_ascii. assumption. }
    exists b. auto.
  - intros (c & Hin & Hf). destruct (proj2 H) as (ir & Hir & _ & Hfr).
    { exists c. repeat split; try assumption. apply forbidden_ascii. assumption. }
    exists ir. auto.
Qed.

Lemma DecodeRune_space_width s :
  IsSpace (fst (DecodeRune s)) = true -> (1 <= snd (DecodeRune s))%nat.
Proof.
  destruct s as [|b0 t]; [discriminate|]. intros _.
  pose proof (DecodeRune_cases b0 t) as Hc.
  destruct (DecodeRune (b0 :: t)) as [r w]. simpl.
  destruct Hc as [(-> & _)|(_ & ? & _)]; lia.
Qed.

Lemma DecodeLastRune_space_width s :
  IsSpace (fst (DecodeLastRune s)) = true -> (1 <= snd (DecodeLastRune s))%nat.
Proof.
  unfold DecodeLastRune.
  destruct (Z.of_nat (length s) =? 0); [discriminate|].
  destruct (nth _ s 0 <? RuneSelf); [simpl; lia|].
  match goal with |- context [DecodeRune ?l] =>
    pose proof (DecodeRune_space_width l) as Hw;
    destruct (DecodeRune l) as [r size] end.
  destruct (_ =? _); simpl in *; [assumption | lia].
Qed.

Lemma trim_left_length fuel : forall s, (length (trim_left fuel s) <= length s)%nat.
Proof.
  induction fuel as [|fuel IH]; intros s; simpl; [lia|].
  destruct s as [|b0 t]; [simpl; lia|].
  destruct (DecodeRune (b0 :: t)) as [r w].
  destruct (IsSpace r); [|lia].
  etransitivity; [apply IH|]. rewrite length_drop. lia.
Qed.

Lemma trim_right_length fuel : forall s, (length (trim_right fuel s) <= length s)%nat.
Proof.
  induction fuel as [|fuel IH]; intros s; simpl; [lia|].
  destruct s as [|b0 t]; [simpl; lia|].
  destruct (DecodeLastRune (b0 :: t)) as [r w].
  destruct (IsSpace r); [|lia].
  etransitivity; [apply IH|]. rewrite length_take. lia.
Qed.

Lemma trim_left_space fuel s :
  IsSpace (fst (DecodeRune s)) = true ->
  (length (trim_left (S fuel) s) < length s)%nat.
Proof.
  intros Hsp. pose proof (DecodeRune_space_width s Hsp) as Hw.
  destruct s as [|b0 t]; [discriminate|]. cbn [trim_left].
  destruct (DecodeRune (b0 :: t)) as [r w]. simpl in Hsp, Hw.
  cbv iota beta. rewrite Hsp.
  eapply Nat.le_lt_trans; [apply trim_left_length|].
  rewrite length_drop. simpl. lia.
Qed.

Lemma trim_left_no_space fuel s :
  IsSpace (fst (DecodeRune s)) = false -> trim_left fuel s = s.
Proof.
  intros Hsp. destruct fuel; [reflexivity|]. simpl.
  destruct s as [|b0 t]; [reflexivity|].
  destruct (DecodeRune (b0 :: t)) as [r w]. simpl in Hsp. rewrite Hsp. reflexivity.
Qed.

Lemma trim_right_space fuel s :
  IsSpace (fst (DecodeLastRune s)) = true ->
  (length (trim_right (S fuel) s) < length s)%nat.
Proof.
  intros Hsp. pose proof (DecodeLastRune_space_width s Hsp) as Hw.
  destruct s as [|b0 t]; [discriminate|]. cbn [trim_right].
  destruct (DecodeLastRune (b0 :: t)) as [r w]. simpl in Hsp, Hw.
  cbv iota beta. rewrite Hsp.
  eapply Nat.le_lt_trans; [apply trim_right_length|].
  rewrite length_take. simpl. lia.
Qed.

Lemma trim_right_no_space fuel s :
  IsSpace (fst (DecodeLastRune s)) = false -> trim_right fuel s = s.
Proof.
  intros Hsp. destruct fuel; [reflexivity|]. simpl.
  destruct s as [|b0 t]; [reflexivity|].
  destruct (DecodeLastRune (b0 :: t)) as [r w]. simpl in Hsp. rewrite Hsp. reflexivity.
Qed.

Lemma TrimSpace_changes prefix :
  TrimSpace prefix <> bytes prefix <-> leading_space prefix \/ trailing_space prefix.
Proof.
  unfold TrimSpace, leading_space, trailing_space.
  set (s := bytes prefix).
  destruct (IsSpace (fst (DecodeRune s))) eqn:Hl.
  - split; [auto|]. intros _ Heq.
    assert (length s <> 0%nat) by (destruct s; [discriminate | simpl; lia]).
    destruct (length s) as [|n] eqn:Hn; [congruence|].
    pose proof (trim_left_space n s Hl) as H1.
    pose proof (trim_right_length (length (trim_left (S n) s)) (trim_left (S n) s)) as H2.
    rewrite Heq in H2. lia.
  - rewrite trim_left_no_space by assumption.
    destruct (IsSpace (fst (DecodeLastRune s))) eqn:Ht.
    + split; [auto|]. intros _ Heq.
      assert (length s <> 0%nat) by (destruct s; [discriminate | simpl; lia]).
      destruct (length s) as [|n] eqn:Hn; [congruence|].
      pose proof (trim_right_space n s Ht) as H1. rewrite Heq in H1. lia.
    + rewrite trim_right_no_space by assumption.
      split; [congruence|]. intros [?|?]; discriminate.
Qed.

Lemma validateFilePrefix_Some_iff (prefix : string) :
  validateFilePrefix prefix <> None <->
  (exists c, c ∈ bytes prefix /\ forbidden c)
  \/ leading_space prefix \/ trailing_space prefix.
Proof.
  unfold validateFilePrefix.
  destruct (String.eqb_spec prefix "") as [->|Hne].
  - split; [congruence|]. intros [(c & Hin & _)|[H|H]].
    + inversion Hin.
    + discriminate.
    + discriminate.
  - pose proof (check_chars_range prefix) as Hc.
    pose proof (TrimSpace_changes prefix) as Ht.
    destruct (check_chars prefix (range prefix)) as [e|].
    + split; [|discriminate]. intros _. left. apply Hc. discriminate.
    + unfold list_Z_eqb.
      destruct (bool_decide_reflect (TrimSpace prefix = bytes prefix)) as [Heq|Hneq]; simpl.
      * split; [congruence|]. intros [H|H].
        -- apply Hc in H. congruence.
        -- apply Ht in H. contradiction.
      * split; [|discriminate]. intros _. right. apply Ht. assumption.
Qed.

Lemma plain_IsSpace b : plain b -> IsSpace b = true -> b = 32.
Proof.
  unfold plain, IsSpace. intros Hp Hs.
  repeat match goal with
  | H : (_ || _) = true |- _ => apply orb_true_iff in H; destruct H
  | H : (_ && _) = true |- _ => apply andb_true_iff in H; destruct H
  | H : (_ <=? _) = true |- _ => apply Z.leb_le in H
  | H : (_ =? _) = true |- _ => apply Z.eqb_eq in H
  end; lia.
Qed.

Lemma validateFilePrefix_plain (prefix : string) :
  Forall plain (bytes prefix) ->
  head (bytes prefix) <> Some 32 -> last (bytes prefix) <> Some 32 ->
  validateFilePrefix prefix = None.
Proof.
  intros Hall Hhead Hlast.
  destruct (validateFilePrefix prefix) as [e|] eqn:He; [|reflexivity].
  exfalso.
  assert (Hr : validateFilePrefix prefix <> None) by congruence.
  apply validateFilePrefix_Some_iff in Hr.
  unfold leading_space, trailing_space in Hr.
  set (s := bytes prefix) in *. rewrite Forall_forall in Hall.
  destruct Hr as [(c & Hin & Hf)|[Hl|Ht]].
  - specialize (Hall c Hin). unfold plain in Hall.
    unfold forbidden, forbidden_bytes in Hf.
    rewrite !elem_of_cons, elem_of_nil in Hf. intuition lia.
  - destruct s as [|b0 t]; [discriminate|].
    assert (Hp : plain b0) by (apply Hall; left).
    unfold DecodeRune, RuneSelf in Hl.
    replace (b0 <? 128) with true in Hl
      by (symmetry; apply Z.ltb_lt; unfold plain in Hp; lia).
    simpl in Hl, Hhead. apply plain_IsSpace in Hl; [congruence | assumption].
  - unfold DecodeLastRune in Ht.
    destruct (Z.eqb_spec (Z.of_nat (length s)) 0) as [|Hne]; [discriminate|].
    assert (Hnth : last s = Some (nth (Z.to_nat (Z.of_nat (length s) - 1)) s 0)).
    { rewrite last_lookup, nth_lookup.
      replace (Z.to_nat (Z.of_nat (length s) - 1)) with (pred (length s)) by lia.
      destruct (s !! pred (length s)) eqn:Hlk; [reflexivity|].
      apply lookup_ge_None in Hlk. lia. }
    set (r := nth (Z.to_nat (Z.of_nat (length s) - 1)) s 0) in *.
    assert (Hp : plain r).
    { apply Hall. apply list_elem_of_lookup. exists (pred (length s)).
      rewrite <- last_lookup. assumption. }
    unfold RuneSelf in Ht.
    replace (r <? 128) with true in Ht
      by (symmetry; apply Z.ltb_lt; unfold plain in Hp; lia).
    simpl in Ht. apply plain_IsSpace in Ht; [congruence | assumption].
Qed.

(** C9. [validateFilePrefix] rejects a prefix exactly when one of its
    bytes is a forbidden character, a control character or DEL, or when
    its first or its last rune is white space; so a prefix of digits,
    letters, dots, dashes, underscores and spaces that neither starts nor
    ends with a space is accepted, and so is the empty prefix. *)
Theorem validateFilePrefix_rejects_iff (prefix : string) :
  (validateFilePrefix prefix <> None <->
   (exists c, c ∈ bytes prefix /\ forbidden c)
   \/ leading_space prefix \/ trailing_space prefix)
  /\ (Forall plain (bytes prefix) ->
      head (bytes prefix) <> Some 32 -> last (bytes prefix) <> Some 32 ->
      validateFilePrefix prefix = None)
  /\ validateFilePrefix "" = None.
Proof.
  split; [apply validateFilePrefix_Some_iff|].
  split; [apply validateFilePrefix_plain | reflexivity].
Qed.

Lemma validateFilePrefix_rejects_iff_witness :
  validateFilePrefix "backup-2024_v1 full.x" = None.
Proof.
  apply (proj1 (proj2 (validateFilePrefix_rejects_iff "backup-2024_v1 full.x"))).
  - let l := eval vm_compute in (bytes "backup-2024_v1 full.x") in
    change (bytes "backup-2024_v1 full.x") with l.
    repeat (apply Forall_cons; split; [unfold plain; lia|]). constructor.
  - discriminate.
  - discriminate.
Defined.

(** ** Partition filters *)

Lemma wrap64_sub_1 a : wrap64 (wrap64 a - 1) = wrap64 (a - 1).
Proof.
  unfold wrap64.
  replace ((a + 2 ^ 63) mod 2 ^ 64 - 2 ^ 63 - 1 + 2 ^ 63)
    with ((a + 2 ^ 63) mod 2 ^ 64 - 1) by lia.
  replace (a - 1 + 2 ^ 63) with ((a + 2 ^ 63) - 1) by lia.
  rewrite Zminus_mod_idemp_l. reflexivity.
Qed.

Lemma wrap64_id a : - 2 ^ 63 <= a < 2 ^ 63 -> wrap64 a = a.
Proof.
  intros H. unfold wrap64. rewrite Z.mod_small; lia.
Qed.

Lemma interval_of_fits f :
  fits_int f -> interval_of f = (Begin f, last_partition f).
Proof.
  intros H. unfold interval_of, last_partition.
  rewrite wrap64_sub_1, wrap64_id; [reflexivity | exact H].
Qed.

Lemma collect_intervals_Ok fs : forall m acc l,
  collect_intervals fs m acc = Ok l <->
  Forall (fun f => 1 <= Count f) fs /\ NoDup (points fs) /\
  Forall (fun k => default false (m !! k) = false) (points fs) /\
  l = (acc ++ intervals_of fs)%list.
Proof.
  induction fs as [|f fs IH]; intros m acc l; simpl.
  - unfold points, intervals_of. simpl. rewrite app_nil_r. split.
    + intros [= <-]. repeat split; constructor.
    + intros (_ & _ & _ & ->). reflexivity.
  - unfold points, intervals_of in *. simpl.
    destruct (Z.eqb_spec (Count f) 1) as [H1|H1].
    + replace (1 <? Count f) with false by (symmetry; apply Z.ltb_ge; lia).
      simpl. destruct (default false (m !! Begin f)) eqn:Hm.
      * split; [discriminate|]. intros (_ & _ & Hall & _).
        apply Forall_cons_1 in Hall. destruct Hall as [Hall _]. congruence.
      * rewrite IH. rewrite Forall_cons, NoDup_cons, Forall_cons.
        split.
        -- intros (Hc & Hnd & Hall & ->). repeat split; try assumption; try lia.
           ++ intros Hin. rewrite Forall_forall in Hall.
              specialize (Hall _ Hin).
              rewrite lookup_insert_eq in Hall. discriminate.
           ++ rewrite Forall_forall in *. intros k Hk. specialize (Hall k Hk).
              destruct (decide (Begin f = k)) as [<-|Hne]; [assumption|].
              rewrite lookup_insert_ne in Hall by assumption. assumption.
        -- intros ((_ & Hc) & (Hni & Hnd) & (_ & Hall) & ->).
           repeat split; try assumption.
           rewrite Forall_forall in *. intros k Hk.
           destruct (decide (Begin f = k)) as [<-|Hne].
           ++ exfalso. apply Hni. assumption.
           ++ rewrite lookup_insert_ne by assumption. apply Hall. assumption.
    + destruct (Z.ltb_spec 1 (Count f)) as [H2|H2].
      * simpl. rewrite IH. rewrite Forall_cons, <- app_assoc. simpl.
        intuition lia.
      * split; [discriminate|]. rewrite Forall_cons. intros ((Hc & _) & _). lia.
Qed.


Lemma FOP_cons {A} (R : A -> A -> Prop) a l :
  ForallOrdPairs R (a :: l) <-> Forall (R a) l /\ ForallOrdPairs R l.
Proof.
  split.
  - intros H. inversion H; subst. split; [|assumption].
    apply Forall_forall. intros x Hx. rewrite List.Forall_forall in *.
    match goal with H : forall _, In _ _ -> _ |- _ => apply H end.
    apply list_elem_of_In. assumption.
  - intros [H1 H2]. constructor; [|assumption].
    apply List.Forall_forall. intros x Hx. rewrite Forall_forall in H1.
    apply H1. apply list_elem_of_In. assumption.
Qed.

Lemma scan_intervals_None prev rest :
  Sorted le_begin (prev :: rest) ->
  scan_intervals prev rest = None <-> ForallOrdPairs before (prev :: rest).
Proof.
  revert prev. induction rest as [|curr rest IH]; intros prev Hs; simpl.
  - split; [|reflexivity]. intros _. apply FOP_cons. split; constructor.
  - assert (Hss : StronglySorted le_begin (prev :: curr :: rest)).
    { apply Sorted_StronglySorted; [|assumption].
      intros x y z. unfold le_begin. lia. }
    apply StronglySorted_inv in Hss. destruct Hss as [Hss Hall].
    apply Sorted_inv in Hs. destruct Hs as [Hs _].
    specialize (IH curr Hs). rewrite (FOP_cons before prev).
    rewrite Forall_cons.
    destruct (Z.leb_spec (fst curr) (snd prev)) as [Hle|Hlt].
    + split; [discriminate|]. unfold before at 1. lia.
    + rewrite IH. split.
      * intros Hfop. repeat split; try assumption.
        apply StronglySorted_inv in Hss. destruct Hss as [_ Hcr].
        rewrite List.Forall_forall in Hcr. apply Forall_forall.
        intros x Hx. apply list_elem_of_In in Hx. specialize (Hcr x Hx).
        unfold before, le_begin in *. lia.
      * intros [_ Hfop]. assumption.
Qed.

Lemma FOP_before_disjoint l :
  StronglySorted le_begin l -> Forall (fun a => fst a <= snd a) l ->
  ForallOrdPairs before l <-> ForallOrdPairs disjoint l.
Proof.
  induction l as [|a l IH]; intros Hs Hp.
  - split; constructor.
  - apply StronglySorted_inv in Hs. destruct Hs as [Hs Hal].
    apply Forall_cons_1 in Hp. destruct Hp as [Ha Hp].
    rewrite !FOP_cons, (IH Hs Hp).
    enough (Forall (before a) l <-> Forall (disjoint a) l) by tauto.
    rewrite !Forall_forall. rewrite List.Forall_forall in Hal.
    rewrite Forall_forall in Hp.
    split; intros H x Hx; specialize (H x Hx); specialize (Hp x Hx);
      apply list_elem_of_In in Hx; specialize (Hal x Hx);
      unfold before, disjoint, le_begin in *; lia.
Qed.

Lemma FOP_Permutation {A} (R : A -> A -> Prop) l l' :
  (forall x y, R x y -> R y x) ->
  Permutation l l' -> ForallOrdPairs R l -> ForallOrdPairs R l'.
Proof.
  intros Hsym Hp. induction Hp as [|x l l' Hp IH|x y l|l l' l'' Hp1 IH1 Hp2 IH2].
  - auto.
  - rewrite !FOP_cons. intros [H1 H2]. split; [|auto].
    rewrite <- Hp. assumption.
  - rewrite !FOP_cons, !Forall_cons. intros [[Hyx Hy] [Hx H]].
    repeat split; auto.
  - auto.
Qed.

Lemma FOP_map_filter {A B} (R : B -> B -> Prop) (g : A -> B) (p : A -> bool) l :
  ForallOrdPairs R (map g (List.filter p l)) <->
  ForallOrdPairs (fun a b => p a = true -> p b = true -> R (g a) (g b)) l.
Proof.
  induction l as [|a l IH]; simpl.
  - split; constructor.
  - rewrite (FOP_cons _ a l), <- IH. destruct (p a) eqn:Hpa; simpl.
    + rewrite FOP_cons. rewrite !Forall_forall.
      enough ((forall x, x ∈ map g (List.filter p l) -> R (g a) x) <->
              (forall x, x ∈ l -> true = true -> p x = true -> R (g a) (g x))) by tauto.
      split.
      * intros H x Hx _ Hpx. apply H. apply list_elem_of_fmap.
        exists x. split; [reflexivity|]. apply list_elem_of_In, filter_In.
        split; [apply list_elem_of_In; assumption | assumption].
      * intros H x Hx. apply list_elem_of_fmap in Hx. destruct Hx as (y & -> & Hy).
        apply list_elem_of_In, filter_In in Hy. destruct Hy as [Hy Hpy].
        apply H; [apply list_elem_of_In; assumption | reflexivity | assumption].
    + enough (Forall (fun b => false = true -> p b = true -> R (g a) (g b)) l) by tauto.
      apply Forall_forall. intros x _ Hf. discriminate.
Qed.

Lemma NoDup_FOP (l : list Z) :
  NoDup l <-> ForallOrdPairs (fun a b => a <> b) l.
Proof.
  induction l as [|a l IH].
  - split; constructor.
  - rewrite NoDup_cons, FOP_cons, IH, Forall_forall.
    enough (a ∉ l <-> (forall x, x ∈ l -> a <> x)) by tauto.
    split.
    + intros H x Hx ->. contradiction.
    + intros H Hin. apply (H a Hin). reflexivity.
Qed.

Lemma FOP_impl {A} (R R' : A -> A -> Prop) l :
  (forall a b, a ∈ l -> b ∈ l -> R a b -> R' a b) ->
  ForallOrdPairs R l -> ForallOrdPairs R' l.
Proof.
  induction l as [|a l IH]; intros Himp.
  - constructor.
  - rewrite !FOP_cons. intros [H1 H2]. split.
    + rewrite Forall_forall in *. intros x Hx. apply Himp.
      * left.
      * right. assumption.
      * apply H1. assumption.
    + apply IH; [|assumption]. intros x y Hx Hy. apply Himp; right; assumption.
Qed.

Lemma FOP_lookup {A} (R : A -> A -> Prop) (l : list A) :
  ForallOrdPairs R l <->
  forall i j x y, (i < j)%nat -> l !! i = Some x -> l !! j = Some y -> R x y.
Proof.
  induction l as [|a l IH].
  - split; [|constructor]. intros _ i j x y _ Hi. discriminate.
  - rewrite FOP_cons, IH, Forall_forall. split.
    + intros [Ha Hl] i j x y Hij Hi Hj.
      destruct j as [|j]; [lia|]. simpl in Hj. destruct i as [|i].
      * simpl in Hi. injection Hi as ->. apply Ha.
        apply list_elem_of_lookup. eauto.
      * simpl in Hi. apply (Hl i j); [lia | assumption | assumption].
    + intros H. split.
      * intros x Hx. apply list_elem_of_lookup in Hx. destruct Hx as [j Hj].
        apply (H 0%nat (S j)); [lia | reflexivity | assumption].
      * intros i j x y Hij Hi Hj. apply (H (S i) (S j)); [lia | assumption | assumption].
Qed.

Lemma FOP_or_ex {A} (R : A -> A -> Prop) (l : list A) :
  (forall x y, R x y \/ ~ R x y) ->
  ForallOrdPairs R l \/
  exists i j x y, (i < j)%nat /\ l !! i = Some x /\ l !! j = Some y /\ ~ R x y.
Proof.
  intros Hdec. induction l as [|a l IH].
  - left. constructor.
  - destruct IH as [IH|(i & j & x & y & Hij & Hi & Hj & Hn)].
    + assert (Forall (R a) l \/ exists j y, l !! j = Some y /\ ~ R a y) as [Ha|Ha].
      { clear IH. induction l as [|b l IHl].
        - left. constructor.
        - destruct (Hdec a b) as [Hab|Hab].
          + destruct IHl as [IHl|(j & y & Hj & Hn)].
            * left. constructor; assumption.
            * right. exists (S j), y. split; assumption.
          + right. exists 0%nat, b. split; [reflexivity | assumption]. }
      * left. apply FOP_cons. split; assumption.
      * destruct Ha as (j & y & Hj & Hn). right.
        exists 0%nat, (S j), a, y. repeat split; try assumption. lia.
    + right. exists (S i), (S j), x, y. repeat split; try assumption. lia.
Qed.

Lemma scan_all_None l :
  Sorted le_begin l -> scan_all l = None <-> ForallOrdPairs before l.
Proof.
  destruct l as [|a l]; intros Hs.
  - split; [constructor | reflexivity].
  - apply scan_intervals_None. assumption.
Qed.

Lemma validatePartitionFilters_None sort_Slice fs :
  sorts_by_begin sort_Slice -> Forall fits_int fs ->
  validatePartitionFilters sort_Slice fs = None <-> accepted fs.
Proof.
  intros Hsort Hfits. unfold validatePartitionFilters, accepted.
  destruct fs as [|f0 fs0]; [simpl; split; [repeat split; constructor | reflexivity]|].
  set (fs := f0 :: fs0) in *.
  replace (length fs <? 1)%nat with false by reflexivity.
  assert (Hpoints : NoDup (points fs) <->
                    ForallOrdPairs (fun f g => ~ same_point f g) fs).
  { unfold points. rewrite NoDup_FOP, FOP_map_filter. split; apply FOP_impl;
      intros a b _ _ H; unfold same_point in *.
    - intros (Ha & Hb & Hab). apply Z.eqb_eq in Ha, Hb. exact (H Ha Hb Hab).
    - intros Ha Hb Hab. apply Z.eqb_eq in Ha, Hb. tauto. }
  destruct (collect_intervals fs ∅ []) as [l|e] eqn:Hc.
  - apply collect_intervals_Ok in Hc. destruct Hc as (Hcnt & Hnd & _ & ->).
    simpl. destruct (Hsort (intervals_of fs)) as [Hperm Hsorted].
    fold (scan_all (sort_Slice less_begin (intervals_of fs))).
    rewrite scan_all_None by assumption.
    assert (Hproper : Forall (fun a => fst a <= snd a) (intervals_of fs)).
    { unfold intervals_of. apply Forall_forall. intros x Hx.
      apply list_elem_of_fmap in Hx. destruct Hx as (f & -> & Hf).
      apply list_elem_of_In, filter_In in Hf. destruct Hf as [Hf Hcf].
      apply list_elem_of_In in Hf. rewrite Forall_forall in Hfits.
      rewrite interval_of_fits by auto. apply Z.ltb_lt in Hcf.
      unfold last_partition. simpl. lia. }
    rewrite FOP_before_disjoint.
    2:{ apply Sorted_StronglySorted; [|assumption].
        intros x y z. unfold le_begin. lia. }
    2:{ rewrite Hperm. assumption. }
    assert (Hsym : forall x y, disjoint x y -> disjoint y x)
      by (unfold disjoint; tauto).
    assert (ForallOrdPairs disjoint (sort_Slice less_begin (intervals_of fs))
            <-> ForallOrdPairs disjoint (intervals_of fs)) as ->.
    { split; apply FOP_Permutation; auto. symmetry. assumption. }
    unfold intervals_of. rewrite FOP_map_filter.
    assert (ForallOrdPairs
              (fun a b => (1 <? Count a) = true -> (1 <? Count b) = true ->
                          disjoint (interval_of a) (interval_of b)) fs
            <-> ForallOrdPairs (fun f g => ~ overlap f g) fs) as ->.
    { rewrite Forall_forall in Hfits.
      split; apply FOP_impl; intros a b Ha Hb H;
        unfold overlap, disjoint, last_partition in *.
      - intros (Hca & Hcb & H1 & H2).
        apply Z.ltb_lt in Hca, Hcb. specialize (H Hca Hcb).
        rewrite !interval_of_fits in H by auto.
        unfold last_partition in H. simpl in H. lia.
      - intros Hca Hcb. rewrite !interval_of_fits by auto.
        unfold last_partition. simpl. apply Z.ltb_lt in Hca, Hcb. lia. }
    tauto.
  - split; [discriminate|]. intros (Hcnt & Hsp & _). exfalso.
    assert (collect_intervals fs ∅ [] = Ok ([] ++ intervals_of fs)%list) as Hok.
    { apply collect_intervals_Ok. repeat split; try tauto.
      apply Forall_forall. intros k _. reflexivity. }
    congruence.
Qed.

Lemma accepted_Permutation fs fs' :
  Permutation fs fs' -> accepted fs -> accepted fs'.
Proof.
  intros Hp (Hc & Hs & Ho). repeat split.
  - rewrite <- Hp. assumption.
  - revert Hs. apply FOP_Permutation; [|assumption].
    unfold same_point. intros x y H (Hx & Hy & Hxy). apply H. auto.
  - revert Ho. apply FOP_Permutation; [|assumption].
    unfold overlap. intros x y H (Hx & Hy & H1 & H2). apply H. auto.
Qed.

(** C3. For filters whose last partition is representable, and a
    [sort.Slice] that sorts: [validatePartitionFilters] rejects the list
    exactly when it holds a filter of count 0 or less, two point filters
    (count 1) on the same partition, or two ranges (count above 1) whose
    closed intervals share a partition; and a list that is accepted stays
    accepted in any other order. *)
Theorem validatePartitionFilters_rejects_iff
    (sort_Slice : (Z * Z -> Z * Z -> bool) -> list (Z * Z) -> list (Z * Z))
    (fs : list PartitionFilter) :
  sorts_by_begin sort_Slice ->
  Forall fits_int fs ->
  (validatePartitionFilters sort_Slice fs <> None <->
     (exists f, f ∈ fs /\ Count f <= 0)
     \/ (exists i j f g, i <> j /\ fs !! i = Some f /\ fs !! j = Some g /\
                         same_point f g)
     \/ (exists i j f g, i <> j /\ fs !! i = Some f /\ fs !! j = Some g /\
                         overlap f g))
  /\ (forall fs', Permutation fs fs' ->
        validatePartitionFilters sort_Slice fs = None ->
        validatePartitionFilters sort_Slice fs' = None).
Proof.
  intros Hsort Hfits. split.
  - rewrite validatePartitionFilters_None by assumption. unfold accepted. split.
    + intros Hn.
      destruct (FOP_or_ex (fun f g => ~ same_point f g) fs) as [Hs|Hs].
      { intros x y. unfold same_point.
        destruct (Z.eq_dec (Count x) 1), (Z.eq_dec (Count y) 1),
                 (Z.eq_dec (Begin x) (Begin y)); tauto. }
      2:{ destruct Hs as (i & j & x & y & Hij & Hi & Hj & Hnn).
          right. left. exists i, j, x, y. split; [lia|]. split; [assumption|]. split; [assumption|].
          unfold same_point in *.
          destruct (Z.eq_dec (Count x) 1), (Z.eq_dec (Count y) 1),
                   (Z.eq_dec (Begin x) (Begin y)); tauto. }
      destruct (FOP_or_ex (fun f g => ~ overlap f g) fs) as [Ho|Ho].
      { intros x y. unfold overlap, last_partition.
        destruct (Z.lt_ge_cases 1 (Count x)), (Z.lt_ge_cases 1 (Count y)),
                 (Z.le_gt_cases (Begin x) (Begin y + Count y - 1)),
                 (Z.le_gt_cases (Begin y) (Begin x + Count x - 1)).
        all: try (left; intros (? & ? & ? & ?); lia).
        all: right; intros Hnot; apply Hnot; repeat split; assumption. }
      2:{ destruct Ho as (i & j & x & y & Hij & Hi & Hj & Hnn).
          right. right. exists i, j, x, y. split; [lia|]. split; [assumption|]. split; [assumption|].
          unfold overlap, last_partition in *.
          destruct (Z.lt_ge_cases 1 (Count x)), (Z.lt_ge_cases 1 (Count y)),
                   (Z.le_gt_cases (Begin x) (Begin y + Count y - 1)),
                   (Z.le_gt_cases (Begin y) (Begin x + Count x - 1)).
          all: try (repeat split; assumption).
          all: exfalso; apply Hnn; intros (? & ? & ? & ?); lia. }
      left.
      assert (Hc : Forall (fun f => 1 <= Count f) fs \/
                   exists f, f ∈ fs /\ Count f <= 0).
      { clear. induction fs as [|f fs IH]; [left; constructor|].
        destruct (Z.le_gt_cases 1 (Count f)) as [Hf|Hf].
        - destruct IH as [IH|(g & Hg & Hc)].
          + left. constructor; assumption.
          + right. exists g. split; [right; assumption | assumption].
        - right. exists f. split; [left | lia]. }
      destruct Hc as [Hc|Hc]; [|assumption].
      exfalso. apply Hn. repeat split; assumption.
    + intros [(f & Hf & Hc)|[H|H]] (Hcnt & Hs & Ho).
      * rewrite Forall_forall in Hcnt. specialize (Hcnt f Hf). lia.
      * destruct H as (i & j & f & g & Hij & Hi & Hj & Hsp).
        rewrite FOP_lookup in Hs.
        destruct (Nat.lt_total i j) as [Hlt|[Heq|Hgt]]; [|contradiction|].
        -- exact (Hs i j f g Hlt Hi Hj Hsp).
        -- apply (Hs j i g f Hgt Hj Hi). destruct Hsp as (? & ? & ?). repeat split; congruence.
      * destruct H as (i & j & f & g & Hij & Hi & Hj & Hov).
        rewrite FOP_lookup in Ho.
        destruct (Nat.lt_total i j) as [Hlt|[Heq|Hgt]]; [|contradiction|].
        -- exact (Ho i j f g Hlt Hi Hj Hov).
        -- apply (Ho j i g f Hgt Hj Hi). unfold overlap in *. tauto.
  - intros fs' Hp. rewrite !validatePartitionFilters_None; try assumption.
    + apply accepted_Permutation. assumption.
    + rewrite <- Hp. assumption.
Qed.

Lemma insert_sorted_Permutation x l :
  Permutation (insert_sorted less_begin x l) (x :: l).
Proof.
  induction l as [|y l IH]; simpl; [reflexivity|].
  destruct (less_begin x y); [reflexivity|].
  rewrite IH. apply perm_swap.
Qed.

Lemma insert_sorted_Sorted x l :
  Sorted le_begin l -> Sorted le_begin (insert_sorted less_begin x l).
Proof.
  induction l as [|y l IH]; intros Hs; simpl.
  - repeat constructor.
  - unfold less_begin at 1. destruct (Z.ltb_spec (fst x) (fst y)) as [Hlt|Hge].
    + constructor; [assumption|]. constructor. unfold le_begin. lia.
    + apply Sorted_inv in Hs. destruct Hs as [Hs Hhd].
      constructor; [apply IH; assumption|].
      destruct l as [|z l]; simpl.
      * constructor. unfold le_begin. lia.
      * destruct (less_begin x z); constructor.
        -- unfold le_begin. lia.
        -- inversion Hhd; assumption.
Qed.

Lemma insertion_sort_sorts : sorts_by_begin insertion_sort.
Proof.
  intros l. unfold insertion_sort. induction l as [|x l [IHp IHs]]; simpl.
  - split; [reflexivity | constructor].
  - split.
    + rewrite insert_sorted_Permutation. constructor. assumption.
    + apply insert_sorted_Sorted. assumption.
Qed.

Lemma validatePartitionFilters_rejects_iff_witness :
  validatePartitionFilters insertion_sort
    [ {| Begin := 30; Count := 10 |}; {| Begin := 0; Count := 1 |};
      {| Begin := 5; Count := 5 |}; {| Begin := 20; Count := 1 |} ] = None.
Proof.
  apply (proj2 (validatePartitionFilters_rejects_iff insertion_sort
                  [ {| Begin := 0; Count := 1 |}; {| Begin := 5; Count := 5 |};
                    {| Begin := 20; Count := 1 |};
                    {| Begin := 30; Count := 10 |} ]
                  insertion_sort_sorts
                  ltac:(repeat constructor; unfold fits_int; simpl; lia))).
  - etransitivity; [apply perm_skip, perm_skip, perm_swap|].
    etransitivity; [apply perm_skip, perm_swap|]. apply perm_swap.
  - reflexivity.
Defined.

(** ** Time parsing *)

Lemma digit_char_spec k :
  0 <= k <= 9 -> is_digit (digit_char k) = true /\ digit_val (digit_char k) = k.
Proof.
  intros H.
  assert (k = 0 \/ k = 1 \/ k = 2 \/ k = 3 \/ k = 4 \/ k = 5 \/ k = 6 \/ k = 7
          \/ k = 8 \/ k = 9) as Hk by lia.
  repeat (destruct Hk as [->|Hk]; [split; reflexivity|]). subst. split; reflexivity.
Qed.

Lemma is_digit_char c :
  is_digit c = true -> 0 <= digit_val c <= 9 /\ digit_char (digit_val c) = c.
Proof.
  unfold is_digit, digit_val, digit_char, byte_of. intros H.
  apply andb_true_iff in H. destruct H as [H1 H2].
  apply Z.leb_le in H1, H2. split; [lia|].
  rewrite <- (ascii_nat_embedding c) at 2. f_equal. lia.
Qed.

Lemma getnum_two n rest fixed :
  0 <= n < 100 -> getnum (two_then n rest) fixed = Some (n, rest).
Proof.
  intros H. unfold getnum, two_then.
  destruct (digit_char_spec (n / 10) ltac:(div_lia)) as [-> ->].
  destruct (digit_char_spec (n mod 10) ltac:(div_lia)) as [-> ->].
  f_equal. f_equal. div_lia.
Qed.

Lemma getyear_four n rest :
  0 <= n < 10000 -> getyear (four_then n rest) = Some (n, rest).
Proof.
  intros H. unfold getyear, four_then.
  destruct (digit_char_spec (n / 1000) ltac:(div_lia)) as [-> ->].
  destruct (digit_char_spec (n / 100 mod 10) ltac:(div_lia)) as [-> ->].
  destruct (digit_char_spec (n / 10 mod 10) ltac:(div_lia)) as [-> ->].
  destruct (digit_char_spec (n mod 10) ltac:(div_lia)) as [-> ->].
  simpl. f_equal. f_equal. div_lia.
Qed.

Lemma match_digits_two n rest :
  0 <= n < 100 -> match_digits 2 (two_then n rest) = Some rest.
Proof.
  intros H. unfold two_then. simpl.
  destruct (digit_char_spec (n / 10) ltac:(div_lia)) as [-> _].
  destruct (digit_char_spec (n mod 10) ltac:(div_lia)) as [-> _]. reflexivity.
Qed.

Lemma match_digits_four n rest :
  0 <= n < 10000 -> match_digits 4 (four_then n rest) = Some rest.
Proof.
  intros H. unfold four_then. simpl.
  destruct (digit_char_spec (n / 1000) ltac:(div_lia)) as [-> _].
  destruct (digit_char_spec (n / 100 mod 10) ltac:(div_lia)) as [-> _].
  destruct (digit_char_spec (n / 10 mod 10) ltac:(div_lia)) as [-> _].
  destruct (digit_char_spec (n mod 10) ltac:(div_lia)) as [-> _]. reflexivity.
Qed.

Lemma match_digits_two_inv s rest :
  match_digits 2 s = Some rest -> exists n, 0 <= n < 100 /\ s = two_then n rest.
Proof.
  destruct s as [|c0 [|c1 s]]; simpl; try discriminate.
  - destruct (is_digit c0); discriminate.
  - destruct (is_digit c0) eqn:H0; [|discriminate].
    destruct (is_digit c1) eqn:H1; [|discriminate]. intros [= ->].
    apply is_digit_char in H0, H1. destruct H0 as [R0 E0], H1 as [R1 E1].
    exists (digit_val c0 * 10 + digit_val c1). split; [lia|].
    unfold two_then.
    replace ((digit_val c0 * 10 + digit_val c1) / 10) with (digit_val c0) by div_lia.
    replace ((digit_val c0 * 10 + digit_val c1) mod 10) with (digit_val c1) by div_lia.
    rewrite E0, E1. reflexivity.
Qed.

Lemma match_digits_four_inv s rest :
  match_digits 4 s = Some rest -> exists n, 0 <= n < 10000 /\ s = four_then n rest.
Proof.
  destruct s as [|c0 [|c1 [|c2 [|c3 s]]]]; simpl; try discriminate;
    repeat match goal with
    | |- context [is_digit ?c] => destruct (is_digit c) eqn:?
    end; try discriminate.
  intros [= ->].
  repeat match goal with
  | H : is_digit _ = true |- _ => apply is_digit_char in H; destruct H
  end.
  set (a := digit_val c0) in *. set (b := digit_val c1) in *.
  set (c := digit_val c2) in *. set (d := digit_val c3) in *.
  exists (((a * 10 + b) * 10 + c) * 10 + d). split; [lia|].
  unfold four_then.
  replace ((((a * 10 + b) * 10 + c) * 10 + d) / 1000) with a by div_lia.
  replace ((((a * 10 + b) * 10 + c) * 10 + d) / 100 mod 10) with b by div_lia.
  replace ((((a * 10 + b) * 10 + c) * 10 + d) / 10 mod 10) with c by div_lia.
  replace ((((a * 10 + b) * 10 + c) * 10 + d) mod 10) with d by div_lia.
  congruence.
Qed.


Lemma MatchString_Digits2 re s :
  MatchString (Digits 2 :: re) s = true <->
  exists n rest, digits2 n /\ s = two_then n rest /\ MatchString re rest = true.
Proof.
  cbn [MatchString]. split.
  - destruct (match_digits 2 s) as [rest|] eqn:Hm; [|discriminate].
    intros Hre. apply match_digits_two_inv in Hm. destruct Hm as (n & Hn & ->).
    exists n, rest. auto.
  - intros (n & rest & Hn & -> & Hre). rewrite match_digits_two by exact Hn.
    assumption.
Qed.

Lemma MatchString_Digits4 re s :
  MatchString (Digits 4 :: re) s = true <->
  exists n rest, digits4 n /\ s = four_then n rest /\ MatchString re rest = true.
Proof.
  cbn [MatchString]. split.
  - destruct (match_digits 4 s) as [rest|] eqn:Hm; [|discriminate].
    intros Hre. apply match_digits_four_inv in Hm. destruct Hm as (n & Hn & ->).
    exists n, rest. auto.
  - intros (n & rest & Hn & -> & Hre). rewrite match_digits_four by exact Hn.
    assumption.
Qed.

Lemma MatchString_Lit c re s :
  MatchString (Lit c :: re) s = true <->
  exists rest, s = String c rest /\ MatchString re rest = true.
Proof.
  cbn [MatchString]. split.
  - destruct s as [|c' rest]; [discriminate|]. intros H.
    apply andb_true_iff in H. destruct H as [Hc Hre].
    apply Ascii.eqb_eq in Hc. subst. exists rest. auto.
  - intros (rest & -> & Hre). rewrite Ascii.eqb_refl. assumption.
Qed.

Lemma MatchString_nil s : MatchString [] s = true <-> s = "".
Proof. cbn [MatchString]. apply String.eqb_eq. Qed.

Ltac invert_match H :=
  repeat first
    [ apply MatchString_Digits4 in H; destruct H as (? & ? & ? & -> & H)
    | apply MatchString_Digits2 in H; destruct H as (? & ? & ? & -> & H)
    | apply MatchString_Lit in H; destruct H as (? & -> & H)
    | apply MatchString_nil in H; subst ].

Ltac build_match :=
  repeat first
    [ apply MatchString_Digits4; eexists; eexists; split; [|split; [reflexivity|]]
    | apply MatchString_Digits2; eexists; eexists; split; [|split; [reflexivity|]]
    | apply MatchString_Lit; eexists; split; [reflexivity|]
    | apply MatchString_nil; reflexivity ];
  try assumption.

Lemma expDateTime_iff s : MatchString expDateTime s = true <-> is_datetime s.
Proof.
  unfold expDateTime, is_datetime. split.
  - intros H. invert_match H.
    do 6 eexists. split_conj; cycle -1; [reflexivity | assumption..].
  - intros (y & mo & d & h & mi & se & ? & ? & ? & ? & ? & ? & ->).
    unfold datetime_string, date_then, time_string. build_match.
Qed.

Lemma expTimeOnly_iff s : MatchString expTimeOnly s = true <-> is_time s.
Proof.
  unfold expTimeOnly, is_time. split.
  - intros H. invert_match H.
    do 3 eexists. split_conj; cycle -1; [reflexivity | assumption..].
  - intros (h & mi & se & ? & ? & ? & ->). unfold time_string. build_match.
Qed.

Lemma expDateOnly_iff s : MatchString expDateOnly s = true <-> is_date s.
Proof.
  unfold expDateOnly, is_date. split.
  - intros H. invert_match H.
    do 3 eexists. split_conj; cycle -1; [reflexivity | assumption..].
  - intros (y & mo & d & ? & ? & ? & ->). unfold date_string, date_then. build_match.
Qed.

Lemma match_digits_length n : forall s rest,
  match_digits n s = Some rest -> String.length s = (n + String.length rest)%nat.
Proof.
  induction n as [|n IH]; intros s rest; simpl.
  - intros [= ->]. reflexivity.
  - destruct s as [|c s]; [discriminate|]. destruct (is_digit c); [|discriminate].
    intros H. apply IH in H. simpl. lia.
Qed.

Lemma MatchString_length re : forall s,
  MatchString re s = true -> String.length s = re_length re.
Proof.
  induction re as [|[n|c] re IH]; intros s; cbn [MatchString re_length].
  - intros H. apply String.eqb_eq in H. subst. reflexivity.
  - destruct (match_digits n s) as [rest|] eqn:Hm; [|discriminate].
    intros H. apply match_digits_length in Hm. apply IH in H. lia.
  - destruct s as [|c' s]; [discriminate|]. intros H.
    apply andb_true_iff in H. destruct H as [_ H]. apply IH in H. simpl. lia.
Qed.

Lemma not_MatchString re s :
  String.length s <> re_length re -> MatchString re s = false.
Proof.
  intros Hl. destruct (MatchString re s) eqn:Hm; [|reflexivity].
  apply MatchString_length in Hm. contradiction.
Qed.

Lemma skip_char c rest : skip (String c rest) c = Some rest.
Proof. unfold skip. rewrite Ascii.eqb_refl. reflexivity. Qed.

Lemma parse_fields_datetime y mo d h mi se :
  digits4 y -> digits2 mo -> digits2 d -> digits2 h -> digits2 mi -> digits2 se ->
  parse_fields (datetime_string y mo d h mi se) =
    if (mo <=? 0) || (12 <? mo) then inl ": month out of range"
    else if (h <? 0) || (24 <=? h) then inl ": hour out of range"
    else if (mi <? 0) || (60 <=? mi) then inl ": minute out of range"
    else if (se <? 0) || (60 <=? se) then inl ": second out of range"
    else inr (y, mo, d, h, mi, se).
Proof.
  intros Hy Hmo Hd Hh Hmi Hse.
  unfold parse_fields, datetime_string, date_then, time_string.
  rewrite getyear_four by exact Hy. cbn [step]. rewrite skip_char. cbn [step].
  rewrite getnum_two by exact Hmo. cbn [step].
  destruct ((mo <=? 0) || (12 <? mo)); [reflexivity|].
  rewrite skip_char. cbn [step]. rewrite getnum_two by exact Hd. cbn [step].
  rewrite skip_char. cbn [step]. rewrite getnum_two by exact Hh. cbn [step].
  destruct ((h <? 0) || (24 <=? h)); [reflexivity|].
  rewrite skip_char. cbn [step]. rewrite getnum_two by exact Hmi. cbn [step].
  destruct ((mi <? 0) || (60 <=? mi)); [reflexivity|].
  rewrite skip_char. cbn [step]. rewrite getnum_two by exact Hse. cbn [step].
  destruct ((se <? 0) || (60 <=? se)); reflexivity.
Qed.

Lemma ParseInLocation_datetime (E : TimeEnv) (loc : Location E) y mo d h mi se :
  digits4 y -> digits2 mo -> digits2 d -> digits2 h -> digits2 mi -> digits2 se ->
  if valid_civil y mo d h mi se
  then ParseInLocation E (datetime_string y mo d h mi se) loc
       = Ok (Date E y mo d h mi se loc)
  else exists reason,
       ParseInLocation E (datetime_string y mo d h mi se) loc
       = Err (ParseError (datetime_string y mo d h mi se) reason).
Proof.
  intros Hy Hmo Hd Hh Hmi Hse. unfold ParseInLocation.
  rewrite parse_fields_datetime by assumption.
  destruct (valid_civil y mo d h mi se) eqn:Hv.
  - unfold valid_civil in Hv.
    repeat match goal with
    | H : (_ && _) = true |- _ => apply andb_true_iff in H; destruct H
    | H : (_ <=? _) = true |- _ => apply Z.leb_le in H
    end.
    unfold digits2 in *.
    replace ((mo <=? 0) || (12 <? mo)) with false
      by (symmetry; apply orb_false_iff; rewrite Z.leb_gt, Z.ltb_ge; lia).
    replace ((h <? 0) || (24 <=? h)) with false
      by (symmetry; apply orb_false_iff; rewrite Z.ltb_ge, Z.leb_gt; lia).
    replace ((mi <? 0) || (60 <=? mi)) with false
      by (symmetry; apply orb_false_iff; rewrite Z.ltb_ge, Z.leb_gt; lia).
    replace ((se <? 0) || (60 <=? se)) with false
      by (symmetry; apply orb_false_iff; rewrite Z.ltb_ge, Z.leb_gt; lia).
    replace ((d <? 1) || (daysIn mo y <? d)) with false
      by (symmetry; apply orb_false_iff; rewrite !Z.ltb_ge; lia).
    reflexivity.
  - destruct ((mo <=? 0) || (12 <? mo)) eqn:Cmo; [eexists; reflexivity|].
    destruct ((h <? 0) || (24 <=? h)) eqn:Ch; [eexists; reflexivity|].
    destruct ((mi <? 0) || (60 <=? mi)) eqn:Cmi; [eexists; reflexivity|].
    destruct ((se <? 0) || (60 <=? se)) eqn:Cse; [eexists; reflexivity|].
    destruct ((d <? 1) || (daysIn mo y <? d)) eqn:Cd; [eexists; reflexivity|].
    exfalso.
    repeat match goal with
    | H : (_ || _) = false |- _ => apply orb_false_iff in H; destruct H
    | H : (_ <=? _) = false |- _ => apply Z.leb_gt in H
    | H : (_ <? _) = false |- _ => apply Z.ltb_ge in H
    end.
    assert (valid_civil y mo d h mi se = true); [|congruence].
    unfold valid_civil. rewrite !andb_true_iff, !Z.leb_le. lia.
Qed.

Lemma parse_normalized (E : TimeEnv) (location : Location E) timeString
    y mo d h mi se (res : result (Time E)) :
  digits4 y -> digits2 mo -> digits2 d -> digits2 h -> digits2 mi -> digits2 se ->
  res = match ParseInLocation E (datetime_string y mo d h mi se) location with
        | Err err =>
          Err (Errorf "failed to parse time %s: %w" [AStr timeString; AErr err])
        | Ok localTime => Ok (UTC E localTime)
        end ->
  if valid_civil y mo d h mi se
  then res = Ok (UTC E (Date E y mo d h mi se location))
  else exists err,
       res = Err (Errorf "failed to parse time %s: %w" [AStr timeString; AErr err]).
Proof.
  intros Hy Hmo Hd Hh Hmi Hse ->.
  pose proof (ParseInLocation_datetime E location y mo d h mi se
                Hy Hmo Hd Hh Hmi Hse) as H.
  destruct (valid_civil y mo d h mi se).
  - rewrite H. reflexivity.
  - destruct H as [reason ->]. eexists. reflexivity.
Qed.

(** C7. With the local zone loaded: a string that has none of the
    three shapes fails with "unknown time format"; a full date-time is
    taken as it is, a time of day is given today's local date, a date is
    given midnight; the fields, when they denote a date and a time of day,
    are read in the local zone and the instant is returned in UTC, and
    otherwise (month 13, hour 25, ...) the error is "failed to parse time".
    No string has two of the shapes, so the order in which the patterns
    are tried never decides. *)
Theorem parseLocalTimeToUTC_formats (E : TimeEnv) (location : Location E) :
  LoadLocation E "Local" = Ok location ->
  (forall s, ~ is_datetime s -> ~ is_time s -> ~ is_date s ->
     parseLocalTimeToUTC E s = Err (Errorf "unknown time format: %s" [AStr s]))
  /\ (forall y mo d h mi se,
        digits4 y -> digits2 mo -> digits2 d ->
        digits2 h -> digits2 mi -> digits2 se ->
        parsed_as E location (datetime_string y mo d h mi se) y mo d h mi se)
  /\ (forall y mo d h mi se,
        digits4 y -> digits2 mo -> digits2 d ->
        digits2 h -> digits2 mi -> digits2 se ->
        today E location = date_string y mo d ->
        parsed_as E location (time_string h mi se) y mo d h mi se)
  /\ (forall y mo d,
        digits4 y -> digits2 mo -> digits2 d ->
        parsed_as E location (date_string y mo d) y mo d 0 0 0)
  /\ (forall s, ~ (is_datetime s /\ is_time s)
                /\ ~ (is_datetime s /\ is_date s)
                /\ ~ (is_time s /\ is_date s)).
Proof.
  intros Hloc. unfold parsed_as, parseLocalTimeToUTC. rewrite Hloc.
  split; [|split; [|split; [|split]]]; cycle -1.
  { intros s. split; [|split]; intros [H1 H2].
    - apply expDateTime_iff, MatchString_length in H1.
      apply expTimeOnly_iff, MatchString_length in H2.
      simpl in H1, H2. congruence.
    - apply expDateTime_iff, MatchString_length in H1.
      apply expDateOnly_iff, MatchString_length in H2.
      simpl in H1, H2. congruence.
    - apply expTimeOnly_iff, MatchString_length in H1.
      apply expDateOnly_iff, MatchString_length in H2.
      simpl in H1, H2. congruence. }
  - intros s Hdt Ht Hd.
    destruct (MatchString expDateTime s) eqn:M1;
      [apply expDateTime_iff in M1; contradiction|].
    destruct (MatchString expTimeOnly s) eqn:M2;
      [apply expTimeOnly_iff in M2; contradiction|].
    destruct (MatchString expDateOnly s) eqn:M3;
      [apply expDateOnly_iff in M3; contradiction|].
    reflexivity.
  - intros y mo d h mi se Hy Hmo Hd Hh Hmi Hse.
    assert (M1 : MatchString expDateTime (datetime_string y mo d h mi se) = true).
    { apply expDateTime_iff. exists y, mo, d, h, mi, se. auto 10. }
    rewrite M1. apply parse_normalized; auto.
  - intros y mo d h mi se Hy Hmo Hd Hh Hmi Hse Htoday.
    rewrite (not_MatchString expDateTime) by (simpl; lia).
    assert (M2 : MatchString expTimeOnly (time_string h mi se) = true).
    { apply expTimeOnly_iff. exists h, mi, se. auto. }
    rewrite M2, Htoday. apply parse_normalized; auto.
  - intros y mo d Hy Hmo Hd.
    rewrite (not_MatchString expDateTime) by (simpl; lia).
    rewrite (not_MatchString expTimeOnly) by (simpl; lia).
    assert (M3 : MatchString expDateOnly (date_string y mo d) = true).
    { apply expDateOnly_iff. exists y, mo, d. auto. }
    rewrite M3. apply parse_normalized; unfold digits2; auto; lia.
Qed.

Lemma parseLocalTimeToUTC_formats_witness :
  parseLocalTimeToUTC utc_env "12:34:56" = Ok (2024, 1, 15, 12, 34, 56)
  /\ exists err,
       parseLocalTimeToUTC utc_env "2023-13-01_12:00:00"
       = Err (Errorf "failed to parse time %s: %w"
                     [AStr "2023-13-01_12:00:00"; AErr err]).
Proof.
  pose proof (parseLocalTimeToUTC_formats utc_env tt eq_refl)
    as (_ & Hdt & Ht & _ & _).
  split.
  - apply (Ht 2024 1 15 12 34 56); unfold digits4, digits2; first [lia | reflexivity].
  - apply (Hdt 2023 13 1 12 0 0); unfold digits4, digits2; lia.
Defined.

(** ** Storages *)

Section Storages.
Variable M : StorageModels.
Variable isBackup : bool.

Lemma validateStorages_eq awsS3 gcpStorage azureBlob local :
  validateStorages M isBackup awsS3 gcpStorage azureBlob local
  = ValidateStorages M isBackup awsS3 gcpStorage azureBlob local.
Proof.
  unfold validateStorages, ValidateStorages, provider, provider_configured.
  destruct local as [l|]; [destruct (Local_Validate M l isBackup)|];
    try reflexivity;
    destruct awsS3 as [a|], gcpStorage as [g|], azureBlob as [z|];
    cbn [AwsS3_IsConfigured GcpStorage_IsConfigured AzureBlob_IsConfigured];
    reflexivity.
Qed.

Lemma ValidateStorages_result awsS3 gcpStorage azureBlob local :
  local_valid M isBackup local ->
  valid_if_configured (AwsS3_IsConfigured M)
    (fun a => AwsS3_Validate M a isBackup) awsS3 ->
  valid_if_configured (GcpStorage_IsConfigured M)
    (fun g => GcpStorage_Validate M g isBackup) gcpStorage ->
  valid_if_configured (AzureBlob_IsConfigured M)
    (fun a => AzureBlob_Validate M a isBackup) azureBlob ->
  ValidateStorages M isBackup awsS3 gcpStorage azureBlob local
  = if 1 <? configured_count M awsS3 gcpStorage azureBlob
    then Some only_one_provider else None.
Proof.
  unfold local_valid, valid_if_configured, configured_count, ValidateStorages,
    provider.
  intros Hl Ha Hg Hz.
  destruct local as [l|]; [rewrite Hl|];
    destruct awsS3 as [a|], gcpStorage as [g|], azureBlob as [z|];
    cbn [AwsS3_IsConfigured GcpStorage_IsConfigured AzureBlob_IsConfigured] in *;
    repeat match goal with
    | H : ?c = true -> _ |- context [if ?c then _ else _] =>
      destruct c eqn:?; [rewrite (H eq_refl)|]; clear H
    end; reflexivity.
Qed.

Lemma ValidateStorages_only_one awsS3 gcpStorage azureBlob local :
  ValidateStorages M isBackup awsS3 gcpStorage azureBlob local
  = Some only_one_provider ->
  local_valid M isBackup local
  /\ valid_if_configured (AwsS3_IsConfigured M)
       (fun a => AwsS3_Validate M a isBackup) awsS3
  /\ valid_if_configured (GcpStorage_IsConfigured M)
       (fun g => GcpStorage_Validate M g isBackup) gcpStorage
  /\ valid_if_configured (AzureBlob_IsConfigured M)
       (fun a => AzureBlob_Validate M a isBackup) azureBlob.
Proof.
  unfold local_valid, valid_if_configured, ValidateStorages, provider,
    only_one_provider.
  destruct local as [l|]; [destruct (Local_Validate M l isBackup); [discriminate|]|];
    destruct awsS3 as [a|], gcpStorage as [g|], azureBlob as [z|];
    cbn [AwsS3_IsConfigured GcpStorage_IsConfigured AzureBlob_IsConfigured];
    repeat match goal with
    | |- context [if ?c then _ else _] => destruct c eqn:?
    | |- context [match ?v with Some _ => _ | None => _ end] => destruct v eqn:?
    end; intros H; try discriminate; repeat split; congruence.
Qed.
End Storages.

(** C5. Local storage is validated whenever it is present. A cloud
    provider is validated and counted only when one of its identifying
    fields is set: one that is not configured can as well be absent. The
    check answers "only one cloud provider can be configured" exactly
    when every validation that runs succeeds and two or more providers are
    configured (a provider is counted once its own validation succeeded,
    and a failed validation returns before the count is tested); with
    valid storages and at most one configured provider, Local or not, it
    passes. Both variants of the function agree. *)
Theorem ValidateStorages_exclusive (M : StorageModels) (isBackup : bool)
    (awsS3 : option (AwsS3 M)) (gcpStorage : option (GcpStorage M))
    (azureBlob : option (AzureBlob M)) (local : option (Local M)) :
  let result := ValidateStorages M isBackup awsS3 gcpStorage azureBlob local in
  let all_valid :=
    local_valid M isBackup local
    /\ valid_if_configured (AwsS3_IsConfigured M)
         (fun a => AwsS3_Validate M a isBackup) awsS3
    /\ valid_if_configured (GcpStorage_IsConfigured M)
         (fun g => GcpStorage_Validate M g isBackup) gcpStorage
    /\ valid_if_configured (AzureBlob_IsConfigured M)
         (fun a => AzureBlob_Validate M a isBackup) azureBlob in
  (forall l err, local = Some l -> Local_Validate M l isBackup = Some err ->
     result = Some (Errorf "failed to validate local storage: %w" [AErr err]))
  /\ result = ValidateStorages M isBackup
                (if_configured (AwsS3_IsConfigured M) awsS3)
                (if_configured (GcpStorage_IsConfigured M) gcpStorage)
                (if_configured (AzureBlob_IsConfigured M) azureBlob) local
  /\ (result = Some only_one_provider <->
      all_valid /\ 2 <= configured_count M awsS3 gcpStorage azureBlob)
  /\ (all_valid -> configured_count M awsS3 gcpStorage azureBlob <= 1 ->
      result = None)
  /\ validateStorages M isBackup awsS3 gcpStorage azureBlob local = result.
Proof.
  cbv zeta. split; [|split; [|split; [|split]]].
  - intros l err -> Hl. unfold ValidateStorages. rewrite Hl. reflexivity.
  - unfold ValidateStorages, provider, if_configured.
    destruct awsS3 as [a|], gcpStorage as [g|], azureBlob as [z|];
      cbn [AwsS3_IsConfigured GcpStorage_IsConfigured AzureBlob_IsConfigured];
      repeat (first
                [ match goal with
                  | H : ?c = _ |- context [if ?c then _ else _] => rewrite H
                  end
                | match goal with
                  | |- context [if ?c then _ else _] =>
                    lazymatch c with
                    | true => fail
                    | false => fail
                    | _ => destruct c eqn:?
                    end
                  end ]; cbv iota beta); reflexivity.
  - split.
    + intros H. pose proof (ValidateStorages_only_one M isBackup _ _ _ _ H)
        as (Hl & Ha & Hg & Hz).
      split; [auto|].
      rewrite (ValidateStorages_result M isBackup _ _ _ _ Hl Ha Hg Hz) in H.
      destruct (Z.ltb_spec 1 (configured_count M awsS3 gcpStorage azureBlob));
        [lia | discriminate].
    + intros [(Hl & Ha & Hg & Hz) Hc].
      rewrite (ValidateStorages_result M isBackup _ _ _ _ Hl Ha Hg Hz).
      destruct (Z.ltb_spec 1 (configured_count M awsS3 gcpStorage azureBlob));
        [reflexivity | lia].
  - intros (Hl & Ha & Hg & Hz) Hc.
    rewrite (ValidateStorages_result M isBackup _ _ _ _ Hl Ha Hg Hz).
    destruct (Z.ltb_spec 1 (configured_count M awsS3 gcpStorage azureBlob));
      [lia | reflexivity].
  - apply validateStorages_eq.
Qed.

Lemma ValidateStorages_exclusive_witness :
  ValidateStorages named_storages true (Some "bucket") (Some "") None
    (Some "dir") = None.
Proof.
  apply (proj1 (proj2 (proj2 (proj2
           (ValidateStorages_exclusive named_storages true (Some "bucket")
              (Some "") None (Some "dir")))))).
  - repeat split; try reflexivity; intros H;
      first [reflexivity | discriminate H].
  - vm_compute. discriminate.
Defined.

(** ** Backup configuration *)

Section Assembler.
Variable G : Engine.
Variable E : TimeEnv.
Variable c0 : ConfigBackup G E.
Variable p0 : ScanPolicy G.

(** C6. When the output is stdout or a single file, every
    configuration that [newBackupConfig] assembles has file limit 0 and
    write parallelism 1, whatever the parallel value, which the read
    parallelism keeps; and a configuration is assembled whenever the
    rack list, the partition filters, the scan policy and the two
    modification times can be read. *)
Theorem newBackupConfig_single_output (config : BackupServiceConfig G)
    (b : Backup) :
  cfg_Backup config = Some b ->
  IsStdout config = true \/ OutputFile b <> "" ->
  (forall c, newBackupConfig G E c0 p0 config = Ok c ->
     cb_FileLimit c = 0 /\ cb_ParallelWrite c = 1
     /\ cb_ParallelRead c = Parallel (Backup_Common b))
  /\ ((RackList b = "" \/ is_Ok (Racks G b)) ->
      is_Ok (PartitionFilters G b) ->
      is_Ok (Backup_ScanPolicy G p0 b) ->
      (ModifiedBefore b = "" \/ is_Ok (ModifiedBeforeTime E b)) ->
      (ModifiedAfter b = "" \/ is_Ok (ModifiedAfterTime E b)) ->
      is_Ok (newBackupConfig G E c0 p0 config)).
Proof.
  intros Hb Hout. unfold newBackupConfig. rewrite Hb.
  assert (Hcond : IsStdout config || nonempty (OutputFile b) = true).
  { apply orb_true_iff. destruct Hout as [H|H]; [left; exact H|].
    right. apply nonempty_true. exact H. }
  rewrite Hcond. split.
  - intros c.
    repeat match goal with
    | |- context [match (if ?c then _ else _) with _ => _ end] => destruct c
    | |- context [match ?r with Ok _ => _ | Err _ => _ end] =>
      destruct r; try discriminate
    | |- context [let '(_, _) := if ?c then _ else _ in _] => destruct c
    end; intros [= <-]; repeat split.
  - unfold is_Ok. intros Hr (pf & ->) (sp & ->) Hmb Hma.
    assert (exists l, (if nonempty (RackList b) then Racks G b
                       else Ok (cb_RackList c0)) = Ok l) as [l ->].
    { destruct Hr as [->|(l & ->)]; [eexists; reflexivity|].
      destruct (nonempty (RackList b)); eexists; reflexivity. }
    assert (exists t,
              (if nonempty (ModifiedBefore b) then
                 match ModifiedBeforeTime E b with
                 | Err err =>
                   Err (Errorf "failed to parse modified before date: %w"
                               [AErr err])
                 | Ok modBeforeTime => Ok (Some modBeforeTime)
                 end
               else Ok (cb_ModBefore c0)) = Ok t) as [tb ->].
    { destruct Hmb as [->|(t & ->)]; [eexists; reflexivity|].
      destruct (nonempty (ModifiedBefore b)); eexists; reflexivity. }
    assert (exists t,
              (if nonempty (ModifiedAfter b) then
                 match ModifiedAfterTime E b with
                 | Err err =>
                   Err (Errorf "failed to parse modified after date: %w"
                               [AErr err])
                 | Ok modAfterTime => Ok (Some modAfterTime)
                 end
               else Ok (cb_ModAfter c0)) = Ok t) as [ta ->].
    { destruct Hma as [->|(t & ->)]; [eexists; reflexivity|].
      destruct (nonempty (ModifiedAfter b)); eexists; reflexivity. }
    destruct (nonempty (Continue b)), (nonempty (StateFileDst b));
      eexists; reflexivity.
Qed.
End Assembler.

Lemma newBackupConfig_single_output_witness :
  exists c,
    newBackupConfig plain_engine utc_env plain_config plain_scan_policy
      stdout_service = Ok c
    /\ cb_FileLimit c = 0 /\ cb_ParallelWrite c = 1 /\ cb_ParallelRead c = 8.
Proof.
  destruct (newBackupConfig_single_output plain_engine utc_env plain_config
              plain_scan_policy stdout_service stdout_backup eq_refl
              (or_introl eq_refl)) as [Hfields Hok].
  destruct Hok as [c Hc].
  - left. reflexivity.
  - eexists. reflexivity.
  - eexists. reflexivity.
  - left. reflexivity.
  - left. reflexivity.
  - exists c. split; [exact Hc|]. apply Hfields. exact Hc.
Defined.

(** * Further properties *)

(** ** Filters and comma lists *)

Lemma validateSingleFilter_None b :
  validateSingleFilter b = None <-> (length (set_filter_names b) <= 1)%nat.
Proof.
  unfold validateSingleFilter, set_filter_names, name_if_set, count_filter.
  destruct (nonempty (AfterDigest b)), (nonempty (PartitionList b)),
    (nonempty (NodeList b)), (nonempty (RackList b)); simpl;
    (split; intros H;
       first [discriminate H | reflexivity | lia | simpl in H; lia]).
Qed.

(** X1. [validateSingleFilter] passes exactly when at most one of
    after-digest, partition-list, node-list and rack-list is set; when it
    fails, the message lists the names of the filters that are set, in
    that order, joined by " or ". *)
Theorem validateSingleFilter_at_most_one (b : Backup) :
  (validateSingleFilter b = None <-> (length (set_filter_names b) <= 1)%nat)
  /\ (forall e, validateSingleFilter b = Some e ->
        e = Errorf "only one of %s can be configured"
                   [AStr (Join (set_filter_names b) " or ")]).
Proof.
  split; [apply validateSingleFilter_None|].
  unfold validateSingleFilter, set_filter_names, name_if_set, count_filter.
  destruct (nonempty (AfterDigest b)), (nonempty (PartitionList b)),
    (nonempty (NodeList b)), (nonempty (RackList b)); simpl;
    intros e H; first [discriminate H | injection H as <-; reflexivity].
Qed.

Lemma validateSingleFilter_at_most_one_witness :
  validateSingleFilter estimate_rack_list = None.
Proof.
  apply (proj1 (validateSingleFilter_at_most_one estimate_rack_list)).
  simpl. lia.
Defined.

Lemma Join_cons_cons e e' rest sep :
  Join (e :: e' :: rest) sep = e +:+ sep +:+ Join (e' :: rest) sep.
Proof. reflexivity. Qed.

Lemma split_comma_nonempty cur s : split_comma cur s <> [].
Proof.
  revert cur. induction s as [|c s IH]; intros cur; simpl; [discriminate|].
  destruct (Ascii.eqb c ","); [discriminate | apply IH].
Qed.

Lemma Join_split_comma s : forall cur,
  Join (split_comma cur s) "," = cur +:+ s.
Proof.
  induction s as [|c s IH]; intros cur.
  - simpl. now rewrite append_empty_r.
  - cbn [split_comma]. destruct (Ascii.eqb_spec c ","%char) as [->|Hne].
    + pose proof (split_comma_nonempty "" s) as Hn.
      specialize (IH ""). rewrite append_nil in IH.
      destruct (split_comma "" s) as [|t ts]; [congruence|].
      rewrite Join_cons_cons, IH. reflexivity.
    + rewrite IH. apply append_assoc_char.
Qed.

(** X2. Joining the pieces that [SplitByComma] returns with commas gives
    the string back, for every string. *)
Theorem Join_SplitByComma (s : string) : Join (SplitByComma s) "," = s.
Proof.
  unfold SplitByComma, Split_comma.
  destruct (String.eqb_spec s "") as [->|Hne]; [reflexivity|].
  rewrite Join_split_comma. apply append_nil.
Qed.

Lemma Join_empty ts : Join ts "," = "" -> ts = [] \/ ts = [""].
Proof.
  destruct ts as [|t [|t' ts]]; [auto | simpl; intros ->; auto |].
  rewrite Join_cons_cons. destruct t; [|discriminate].
  rewrite append_nil. discriminate.
Qed.

(** X3. [SplitByComma] gives back the tokens of a comma-joined list,
    empty tokens included, when no token holds a comma; the one list it
    cannot give back is the list of one empty token, whose join is the
    empty string and is split into no token at all. *)
Theorem SplitByComma_Join (ts : list string) :
  Forall comma_free ts -> ts <> [""] ->
  SplitByComma (Join ts ",") = ts.
Proof.
  intros Hf Hne. unfold SplitByComma.
  destruct (String.eqb_spec (Join ts ",") "") as [He|He].
  - apply Join_empty in He. destruct He; congruence.
  - apply Split_comma_Join; [|assumption]. intros ->. apply He. reflexivity.
Qed.

Lemma SplitByComma_Join_witness :
  SplitByComma (Join ["ns1"; ""; "set 2"] ",") = ["ns1"; ""; "set 2"].
Proof.
  apply (SplitByComma_Join ["ns1"; ""; "set 2"]).
  - repeat constructor; discriminate.
  - discriminate.
Defined.

Lemma split_comma_length s : forall cur,
  length (split_comma cur s) = S (commas s).
Proof.
  induction s as [|c s IH]; intros cur; simpl; [reflexivity|].
  destruct (Ascii.eqb c ","); simpl; now rewrite IH.
Qed.

Lemma SplitByComma_length s :
  length (SplitByComma s) = if String.eqb s "" then 0%nat else S (commas s).
Proof.
  unfold SplitByComma, Split_comma. destruct (String.eqb s ""); [reflexivity|].
  apply split_comma_length.
Qed.

(** X4. [NamespaceConfig] returns [nil] exactly when the namespace is
    empty or holds two or more commas. *)
Theorem NamespaceConfig_None_iff (r : Restore) :
  NamespaceConfig r = None <->
  Namespace (Restore_Common r) = ""
  \/ (2 <= commas (Namespace (Restore_Common r)))%nat.
Proof.
  unfold NamespaceConfig, splitByComma.
  pose proof (SplitByComma_length (Namespace (Restore_Common r))) as Hlen.
  destruct (String.eqb_spec (Namespace (Restore_Common r)) "") as [He|Hne].
  - destruct (SplitByComma (Namespace (Restore_Common r))); [|discriminate].
    split; auto.
  - destruct (SplitByComma (Namespace (Restore_Common r))) as [|a [|b [|c l]]];
      simpl in Hlen; split; intros H; try discriminate; try reflexivity;
      try (right; lia); destruct H as [H|H]; try contradiction; lia.
Qed.

Lemma NamespaceConfig_None_iff_witness :
  NamespaceConfig (restore_ns "a,b,c") = None.
Proof.
  apply (proj2 (NamespaceConfig_None_iff (restore_ns "a,b,c"))).
  right. simpl. lia.
Defined.

(** ** Racks, scan policy, partition filters *)

Lemma parse_racks_Ok G ss : forall acc l,
  parse_racks G ss acc = Ok l <->
  exists l', l = (acc ++ l')%list /\ Forall2 (valid_rack G) ss l'.
Proof.
  induction ss as [|s ss IH]; intros acc l; simpl.
  - split.
    + intros [= <-]. exists []. rewrite app_nil_r.
      split; [reflexivity | constructor].
    + intros (l' & -> & H). inversion H. now rewrite app_nil_r.
  - destruct (Atoi G s) as [rackID|err] eqn:Ha.
    + destruct (Z.ltb_spec rackID 0) as [Hlt|Hge].
      { split; [discriminate|]. intros (l' & _ & H).
        inversion H as [|? y ? ? [Hy ?]]; subst.
        rewrite Ha in Hy. injection Hy as <-. lia. }
      destruct (Z.ltb_spec MaxRack rackID) as [Hgt|Hle].
      { split; [discriminate|]. intros (l' & _ & H).
        inversion H as [|? y ? ? [Hy ?]]; subst.
        rewrite Ha in Hy. injection Hy as <-. lia. }
      rewrite IH. split.
      * intros (l' & -> & H). exists (rackID :: l'). rewrite <- app_assoc.
        split; [reflexivity|].
        constructor; [split; [assumption | lia] | assumption].
      * intros (l' & -> & H). inversion H as [|? y ? l'' [Hy ?] Hrest]; subst.
        rewrite Ha in Hy. injection Hy as <-. exists l''.
        rewrite <- app_assoc. split; [reflexivity | assumption].
    + split; [discriminate|]. intros (l' & _ & H).
      inversion H as [|? y ? ? [Hy ?]]; subst.
      rewrite Ha in Hy. discriminate.
Qed.

(** X5. [Racks] returns a list exactly when every comma-separated token
    of the rack list is read by [strconv.Atoi] as a number between 0 and
    [MaxRack]; the list then holds these numbers, one per token and in
    the order of the tokens (none for the empty rack list). *)
Theorem Racks_Ok_iff (G : Engine) (b : Backup) (l : list Z) :
  Racks G b = Ok l <-> Forall2 (valid_rack G) (SplitByComma (RackList b)) l.
Proof.
  unfold Racks. rewrite parse_racks_Ok. split.
  - intros (l' & -> & H). exact H.
  - intros H. exists l. split; [reflexivity | exact H].
Qed.

Lemma Racks_Ok_iff_witness :
  Racks decimal_engine rack_backup = Ok [1; 20].
Proof.
  apply (proj2 (Racks_Ok_iff decimal_engine rack_backup [1; 20])).
  repeat constructor; simpl; unfold MaxRack; lia.
Defined.

Lemma is_Ok_Ok {A} (a : A) : is_Ok (Ok a).
Proof. exists a. reflexivity. Qed.

Lemma is_Ok_Err {A} (e : error) : ~ is_Ok (@Err A e).
Proof. intros [a H]. discriminate. Qed.

Lemma Backup_ScanPolicy_Ok_replica G (p q : ScanPolicy G) b :
  Backup_ScanPolicy G p b = Ok q ->
  sp_ReplicaPolicy q
  = if nonempty (RackList b) || nonempty (NodeList b) then MASTER
    else if nonempty (PreferRacks b) then PREFER_RACK
    else sp_ReplicaPolicy p.
Proof.
  unfold Backup_ScanPolicy. intros Hq.
  destruct (nonempty (FilterExpression b));
    [destruct (ExpFromBase64 G (FilterExpression b)); [|discriminate]|];
    injection Hq as <-; reflexivity.
Qed.

(** X6. [Backup.ScanPolicy] fails exactly when a filter expression is
    set and [ExpFromBase64] rejects it. In the policy it returns, a rack
    list or a node list sets the replica policy to [MASTER], also when
    prefer-racks is set; prefer-racks alone sets it to [PREFER_RACK];
    otherwise the default stays. Bin data is included only if the
    default includes it and no-bins is not set, and the filter expression
    is the decoded one, or the default when none is given. *)
Theorem Backup_ScanPolicy_replica (G : Engine) (p : ScanPolicy G) (b : Backup) :
  (is_Ok (Backup_ScanPolicy G p b) <->
   FilterExpression b = "" \/ is_Ok (ExpFromBase64 G (FilterExpression b)))
  /\ (forall q, Backup_ScanPolicy G p b = Ok q ->
      (RackList b <> "" \/ NodeList b <> "" -> sp_ReplicaPolicy q = MASTER)
      /\ (RackList b = "" -> NodeList b = "" -> PreferRacks b <> "" ->
          sp_ReplicaPolicy q = PREFER_RACK)
      /\ (RackList b = "" -> NodeList b = "" -> PreferRacks b = "" ->
          sp_ReplicaPolicy q = sp_ReplicaPolicy p)
      /\ sp_IncludeBinData q = negb (NoBins b) && sp_IncludeBinData p
      /\ (FilterExpression b = "" ->
          sp_FilterExpression q = sp_FilterExpression p)
      /\ (FilterExpression b <> "" ->
          exists exp, ExpFromBase64 G (FilterExpression b) = Ok exp
                      /\ sp_FilterExpression q = Some exp)).
Proof.
  split.
  - unfold Backup_ScanPolicy.
    destruct (nonempty (FilterExpression b)) eqn:Hf.
    + apply nonempty_true in Hf.
      destruct (ExpFromBase64 G (FilterExpression b)) as [exp|err].
      * split; [intros _; right | intros _]; apply is_Ok_Ok.
      * split; [intros H; now apply is_Ok_Err in H|].
        intros [H|H]; [contradiction | now apply is_Ok_Err in H].
    + apply nonempty_false in Hf. split; [auto | intros _; apply is_Ok_Ok].
  - intros q Hq. pose proof (Backup_ScanPolicy_Ok_replica G p q b Hq) as Hrep.
    unfold Backup_ScanPolicy in Hq. split_conj.
    + intros H. rewrite Hrep.
      assert (nonempty (RackList b) || nonempty (NodeList b) = true) as ->;
        [|reflexivity].
      rewrite orb_true_iff, !nonempty_true. exact H.
    + intros H1 H2 H3. rewrite Hrep.
      apply nonempty_false in H1, H2. apply nonempty_true in H3.
      now rewrite H1, H2, H3.
    + intros H1 H2 H3. rewrite Hrep.
      apply nonempty_false in H1, H2, H3. now rewrite H1, H2, H3.
    + destruct (nonempty (FilterExpression b));
        [destruct (ExpFromBase64 G (FilterExpression b)); [|discriminate]|];
        injection Hq as <-; simpl; destruct (NoBins b); reflexivity.
    + intros H. apply nonempty_false in H. rewrite H in Hq.
      injection Hq as <-. reflexivity.
    + intros Hne. apply nonempty_true in Hne. rewrite Hne in Hq.
      destruct (ExpFromBase64 G (FilterExpression b)) as [exp|];
        [|discriminate].
      injection Hq as <-. exists exp. split; reflexivity.
Qed.

Lemma Backup_ScanPolicy_replica_witness :
  exists q,
    Backup_ScanPolicy plain_engine plain_scan_policy estimate_rack_list = Ok q
    /\ sp_ReplicaPolicy q = MASTER.
Proof.
  eexists. split; [reflexivity|].
  apply (proj2 (Backup_ScanPolicy_replica plain_engine plain_scan_policy
                  estimate_rack_list)).
  - reflexivity.
  - left. discriminate.
Defined.

Lemma first_error_None cs b :
  first_error cs b = None <-> Forall (fun c => c b = None) cs.
Proof.
  induction cs as [|c cs IH]; simpl.
  - split; [constructor | reflexivity].
  - rewrite Forall_cons. destruct (c b) as [e|].
    + split; [discriminate | intros [H _]; discriminate].
    + rewrite IH. tauto.
Qed.

(** [Backup.Validate] passes exactly when each of the ten checks does. *)
Lemma Backup_Validate_None_checks Common_Validate b :
  Backup_Validate Common_Validate (Some b) = None <->
  Forall (fun c => c b = None) (checks Common_Validate).
Proof. rewrite Backup_Validate_first_error. apply first_error_None. Qed.

(** X7. The filters that [Backup.PartitionFilters] returns were
    accepted by [validatePartitionFilters]: every count is at least 1, no
    two point filters are on the same partition and no two ranges share
    one. After-digest comes first and gives one filter; without it the
    partition list is parsed; without both the filter is the one for all
    partitions. For a [Backup] that [Validate] accepted a partition list
    is never passed over, since after-digest cannot be set with it. *)
Theorem PartitionFilters_accepted (G : Engine) (b : Backup)
    (pf : list PartitionFilter) :
  sorts_by_begin (sort_Slice G) ->
  PartitionFilters G b = Ok pf ->
  (Forall fits_int pf -> accepted pf)
  /\ (AfterDigest b <> "" ->
      exists filter,
        NewPartitionFilterAfterDigest G (Namespace (Backup_Common b))
          (AfterDigest b) = Ok filter /\ pf = [filter])
  /\ (AfterDigest b = "" -> PartitionList b <> "" ->
      ParsePartitionFilterListString G (Namespace (Backup_Common b))
        (PartitionList b) = Ok pf)
  /\ (AfterDigest b = "" -> PartitionList b = "" ->
      pf = [NewPartitionFilterAll G])
  /\ (forall Common_Validate,
        Backup_Validate Common_Validate (Some b) = None ->
        PartitionList b <> "" ->
        ParsePartitionFilterListString G (Namespace (Backup_Common b))
          (PartitionList b) = Ok pf).
Proof.
  intros Hsort Hpf. unfold PartitionFilters in Hpf.
  destruct (resolveFilters G b) as [pf'|err] eqn:Hr; [|discriminate].
  destruct (validatePartitionFilters (sort_Slice G) pf') as [e|] eqn:Hv;
    [discriminate|].
  injection Hpf as ->. unfold resolveFilters in Hr.
  assert (Hlist : AfterDigest b = "" -> PartitionList b <> "" ->
            ParsePartitionFilterListString G (Namespace (Backup_Common b))
              (PartitionList b) = Ok pf).
  { intros Hd Hl. apply nonempty_false in Hd. apply nonempty_true in Hl.
    rewrite Hd, Hl in Hr.
    destruct (ParsePartitionFilterListString G _ _); [|discriminate].
    congruence. }
  split_conj.
  - intros Hfit.
    apply (validatePartitionFilters_None (sort_Slice G) pf Hsort Hfit).
    exact Hv.
  - intros Hd. apply nonempty_true in Hd. rewrite Hd in Hr.
    destruct (NewPartitionFilterAfterDigest G _ _) as [filter|];
      [|discriminate].
    injection Hr as <-. exists filter. auto.
  - exact Hlist.
  - intros Hd Hl. apply nonempty_false in Hd, Hl. rewrite Hd, Hl in Hr.
    congruence.
  - intros CV Hval Hl. apply Hlist; [|exact Hl].
    apply Backup_Validate_None_checks in Hval. unfold checks in Hval.
    rewrite !Forall_cons in Hval.
    destruct Hval as (_ & _ & _ & _ & Hsingle & _).
    apply validateSingleFilter_None in Hsingle.
    unfold set_filter_names, name_if_set in Hsingle.
    apply nonempty_true in Hl. rewrite Hl in Hsingle.
    destruct (nonempty (AfterDigest b)) eqn:Hd.
    + simpl in Hsingle. lia.
    + now apply nonempty_false.
Qed.

Lemma PartitionFilters_accepted_witness :
  accepted [NewPartitionFilterAll plain_engine].
Proof.
  apply (PartitionFilters_accepted plain_engine zero_Backup
           [NewPartitionFilterAll plain_engine]).
  - apply insertion_sort_sorts.
  - reflexivity.
  - repeat constructor; unfold fits_int; simpl; lia.
Defined.

(** X8. With neither an after-digest nor a partition list,
    [PartitionFilters] does not fail: it returns the one filter for all
    partitions, whenever that filter counts at least one partition. *)
Theorem PartitionFilters_default (G : Engine) (b : Backup) :
  sorts_by_begin (sort_Slice G) ->
  AfterDigest b = "" -> PartitionList b = "" ->
  1 <= Count (NewPartitionFilterAll G) ->
  PartitionFilters G b = Ok [NewPartitionFilterAll G].
Proof.
  intros Hsort Hd Hl Hcount. unfold PartitionFilters, resolveFilters.
  apply nonempty_false in Hd, Hl. rewrite Hd, Hl.
  assert (Hv : validatePartitionFilters (sort_Slice G)
                 [NewPartitionFilterAll G] = None); [|now rewrite Hv].
  unfold validatePartitionFilters. cbn [length Nat.ltb Nat.leb collect_intervals].
  destruct (Z.eqb_spec (Count (NewPartitionFilterAll G)) 1) as [Hone|Hmany].
  - rewrite lookup_empty. cbn [default].
    destruct (Hsort []) as [Hperm _]. apply Permutation_nil_r in Hperm.
    now rewrite Hperm.
  - destruct (Z.ltb_spec 1 (Count (NewPartitionFilterAll G))); [|lia].
    cbn [app]. match goal with |- context [sort_Slice G less_begin ?l] =>
      destruct (Hsort l) as [Hperm _] end.
    apply Permutation_singleton_r in Hperm. now rewrite Hperm.
Qed.

Lemma PartitionFilters_default_witness :
  PartitionFilters plain_engine zero_Backup
  = Ok [NewPartitionFilterAll plain_engine].
Proof.
  apply (PartitionFilters_default plain_engine zero_Backup).
  - apply insertion_sort_sorts.
  - reflexivity.
  - reflexivity.
  - simpl. lia.
Defined.

(** ** What the validations accept *)

Lemma check_output_None b :
  check_output_target b = None /\ check_output_exclusive b = None
  /\ (Estimate b = true ->
      OutputFile b = "" /\ Directory (Backup_Common b) = "")
  <-> one_target b.
Proof.
  unfold check_output_target, check_output_exclusive, one_target, nonempty.
  destruct (Estimate b), (String.eqb_spec (OutputFile b) ""),
    (String.eqb_spec (Directory (Backup_Common b)) ""); simpl;
    intuition congruence.
Qed.

Lemma check_prefix_None b :
  check_prefix b = None <-> validateFilePrefix (OutputFilePrefix b) = None.
Proof.
  unfold check_prefix.
  destruct (validateFilePrefix (OutputFilePrefix b)); split; congruence.
Qed.

Lemma check_prefix_with_file_None b :
  check_prefix_with_file b = None <->
  (OutputFile b <> "" -> OutputFilePrefix b = "").
Proof.
  unfold check_prefix_with_file, nonempty.
  destruct (String.eqb_spec (OutputFile b) ""),
    (String.eqb_spec (OutputFilePrefix b) ""); simpl; intuition congruence.
Qed.

Lemma check_continue_None b :
  check_continue_state b = None /\ check_continue_remove b = None <->
  (Continue b <> "" -> StateFileDst b = "" /\ RemoveFiles b = false).
Proof.
  unfold check_continue_state, check_continue_remove, nonempty.
  destruct (String.eqb_spec (Continue b) ""),
    (String.eqb_spec (StateFileDst b) ""), (RemoveFiles b); simpl;
    intuition congruence.
Qed.

Lemma check_max_records_None b :
  check_max_records b = None <->
  (MaxRecords b <> 0 -> Parallel (Backup_Common b) = 1).
Proof.
  unfold check_max_records.
  destruct (Z.eqb_spec (MaxRecords b) 0),
    (Z.eqb_spec (Parallel (Backup_Common b)) 1); simpl;
    intuition congruence.
Qed.

Lemma check_estimate_None b :
  check_estimate b = None <->
  (Estimate b = true ->
   no_estimate_filter b /\ OutputFile b = ""
   /\ Directory (Backup_Common b) = "" /\ 0 <= EstimateSamples b).
Proof.
  unfold check_estimate, no_estimate_filter.
  destruct (Estimate b); [|split; [discriminate | reflexivity]].
  destruct (nonempty (PartitionList b) || nonempty (NodeList b)
            || nonempty (AfterDigest b) || nonempty (FilterExpression b)
            || nonempty (ModifiedAfter b) || nonempty (ModifiedBefore b)
            || NoTTLOnly b) eqn:Hf.
  { split; [discriminate|]. intros H. destruct (H eq_refl) as [Hn _].
    exfalso. rewrite !orb_true_iff, !nonempty_true in Hf.
    destruct Hn as (? & ? & ? & ? & ? & ? & ?). intuition congruence. }
  rewrite !orb_false_iff, !nonempty_false in Hf.
  destruct (nonempty (OutputFile b) || nonempty (Directory (Backup_Common b)))
    eqn:Ho.
  { split; [discriminate|]. intros H. destruct (H eq_refl) as (_ & ? & ? & _).
    exfalso. rewrite orb_true_iff, !nonempty_true in Ho. intuition congruence. }
  rewrite orb_false_iff, !nonempty_false in Ho.
  destruct (Z.ltb_spec (EstimateSamples b) 0) as [Hlt|Hge].
  - split; [discriminate|]. intros H.
    destruct (H eq_refl) as (_ & _ & _ & ?). lia.
  - split; [|reflexivity]. intros _ _. intuition.
Qed.

(** X9. [Backup.Validate] accepts a [Backup] exactly when: it has one
    target (estimate without file and directory, or a file, or a
    directory, and never two of them); the file prefix is valid and is
    not used with an output file; at most one of the four exclusive
    filters is set; continue comes without state-file-dst and without
    remove-files; max-records comes with parallel 1; an estimate has none
    of the seven filters of the estimate block and no negative sample
    size; and [Common.Validate] accepts the common part. *)
Theorem Backup_Validate_None_iff (Common_Validate : Common -> option error)
    (b : Backup) :
  Backup_Validate Common_Validate (Some b) = None <->
  one_target b
  /\ validateFilePrefix (OutputFilePrefix b) = None
  /\ (OutputFile b <> "" -> OutputFilePrefix b = "")
  /\ (length (set_filter_names b) <= 1)%nat
  /\ (Continue b <> "" -> StateFileDst b = "" /\ RemoveFiles b = false)
  /\ (MaxRecords b <> 0 -> Parallel (Backup_Common b) = 1)
  /\ (Estimate b = true -> no_estimate_filter b /\ 0 <= EstimateSamples b)
  /\ Common_Validate (Backup_Common b) = None.
Proof.
  rewrite Backup_Validate_None_checks.
  unfold checks. rewrite !Forall_cons, Forall_nil.
  rewrite <- check_output_None, <- check_continue_None.
  rewrite check_estimate_None, validateSingleFilter_None, check_prefix_None,
    check_prefix_with_file_None, check_max_records_None.
  split.
  - intros (H1 & H2 & H3 & H4 & H5 & H6 & H7 & H8 & H9 & H10 & _).
    split_conj; try assumption.
    + intros He. destruct (H9 He) as (_ & ? & ? & _). auto.
    + intros He. destruct (H9 He) as (? & _ & _ & ?). auto.
  - intros ((H1 & H2 & H3) & H4 & H5 & H6 & (H7 & H8) & H9 & H10 & H11).
    split_conj; try assumption; try exact I.
    intros He. destruct (H3 He) as (? & ?). destruct (H10 He) as (? & ?). auto.
Qed.

Lemma Backup_Validate_None_iff_witness :
  Backup_Validate Common_Validate_spec (Some resumed_backup) = None.
Proof.
  apply (proj2 (Backup_Validate_None_iff Common_Validate_spec resumed_backup)).
  split_conj; try reflexivity; try discriminate.
  - right. right. split_conj; [reflexivity | reflexivity | discriminate].
  - simpl. lia.
  - intros _. split; reflexivity.
  - intros H. exfalso. apply H. reflexivity.
Defined.

Lemma exactly_one_input_checks r :
  (negb (String.eqb (InputFile r) ""
         && String.eqb (Directory (Restore_Common r)) ""
         && String.eqb (DirectoryList r) "")
   && negb (nonempty (Directory (Restore_Common r)) && nonempty (InputFile r))
   && negb (nonempty (DirectoryList r)
            && (nonempty (Directory (Restore_Common r))
                || nonempty (InputFile r)))) = true
  <-> exactly_one_input r.
Proof.
  unfold exactly_one_input, nonempty.
  destruct (String.eqb_spec (InputFile r) ""),
    (String.eqb_spec (Directory (Restore_Common r)) ""),
    (String.eqb_spec (DirectoryList r) ""); simpl; intuition congruence.
Qed.

(** X10. [Restore.Validate] accepts a [Restore] exactly when the mode is
    recognized, exactly one of input-file, directory and directory-list
    is set, a parent directory comes with a directory list, the warm-up
    is not negative and, unless validate-only is set, [Common.Validate]
    accepts the common part. For an accepted [Restore],
    [IsDirectoryRestore] tells whether the directory is the input. *)
Theorem Restore_Validate_None_iff (Common_Validate : Common -> option error)
    (r : Restore) :
  (Restore_Validate Common_Validate (Some r) = None <->
   (Mode r = "auto" \/ Mode r = "asb" \/ Mode r = "asbx")
   /\ exactly_one_input r
   /\ (ParentDirectory r <> "" -> DirectoryList r <> "")
   /\ 0 <= WarmUp r
   /\ (ValidateOnly r = false -> Common_Validate (Restore_Common r) = None))
  /\ (Restore_Validate Common_Validate (Some r) = None ->
      (IsDirectoryRestore r = true <-> Directory (Restore_Common r) <> "")).
Proof.
  assert (Hiff :
    Restore_Validate Common_Validate (Some r) = None <->
    (Mode r = "auto" \/ Mode r = "asb" \/ Mode r = "asbx")
    /\ exactly_one_input r
    /\ (ParentDirectory r <> "" -> DirectoryList r <> "")
    /\ 0 <= WarmUp r
    /\ (ValidateOnly r = false -> Common_Validate (Restore_Common r) = None)).
  { rewrite <- mode_recognized_iff, <- exactly_one_input_checks.
    unfold Restore_Validate.
    destruct (String.eqb (Mode r) RestoreModeAuto
              || String.eqb (Mode r) RestoreModeASB
              || String.eqb (Mode r) RestoreModeASBX);
      [|simpl; split; [discriminate | intros [? _]; discriminate]].
    unfold nonempty.
    destruct (String.eqb_spec (InputFile r) ""),
      (String.eqb_spec (Directory (Restore_Common r)) ""),
      (String.eqb_spec (DirectoryList r) ""),
      (String.eqb_spec (ParentDirectory r) ""); simpl;
      try (split; [discriminate | intuition congruence]);
      (destruct (Z.ltb_spec (WarmUp r) 0) as [Hlt|Hge];
         [split; [discriminate | intros (_ & _ & _ & ? & _); lia]|]);
      (destruct (ValidateOnly r); simpl;
         [split; [intros _; intuition (try congruence; try lia) | reflexivity]
         | destruct (Common_Validate (Restore_Common r));
           [split; [discriminate
                   | intros (_ & _ & _ & _ & H); discriminate (H eq_refl)]
           | split; [intros _; intuition (try congruence; try lia)
                    | reflexivity]]]). }
  split; [exact Hiff|].
  intros H. apply Hiff in H. destruct H as (_ & Hone & _).
  unfold IsDirectoryRestore, exactly_one_input in *.
  rewrite andb_true_iff, !String.eqb_eq. intuition congruence.
Qed.

Lemma Restore_Validate_None_iff_witness :
  Restore_Validate Common_Validate_spec (Some directory_restore) = None
  /\ IsDirectoryRestore directory_restore = true.
Proof.
  assert (H : Restore_Validate Common_Validate_spec (Some directory_restore)
              = None).
  { apply (proj2 (proj1 (Restore_Validate_None_iff Common_Validate_spec
                           directory_restore))).
    split_conj.
    - left. reflexivity.
    - right. left. split_conj; [reflexivity | discriminate | reflexivity].
    - intros H. exfalso. apply H. reflexivity.
    - simpl. lia.
    - intros _. reflexivity. }
  split; [exact H|].
  apply (proj2 (Restore_Validate_None_iff Common_Validate_spec
                  directory_restore) H).
  discriminate.
Defined.

(** ** The first offending character of a file prefix *)

Lemma check_chars_forbidden prefix i c rest :
  forbidden c ->
  check_chars prefix ((i, c) :: rest) = Some (offender_error prefix i c).
Proof.
  intros Hf. unfold offender_error. cbn [check_chars].
  destruct (ContainsRune invalidChars c) eqn:Hc.
  - apply ContainsRune_invalidChars in Hc.
    rewrite bool_decide_eq_true_2 by assumption. reflexivity.
  - assert (Hn : c ∉ forbidden_bytes).
    { intros H. apply ContainsRune_invalidChars in H. congruence. }
    rewrite bool_decide_eq_false_2 by assumption.
    destruct (Z.ltb_spec c 32); [reflexivity|].
    destruct Hf as [Hf|[Hf|Hf]]; [contradiction | lia |].
    subst c. reflexivity.
Qed.

Lemma check_chars_skip prefix i c rest :
  ~ forbidden c ->
  check_chars prefix ((i, c) :: rest) = check_chars prefix rest.
Proof.
  intros Hf. cbn [check_chars].
  destruct (ContainsRune invalidChars c) eqn:Hc.
  { exfalso. apply Hf. left. apply ContainsRune_invalidChars. assumption. }
  destruct (Z.ltb_spec c 32); [exfalso; apply Hf; right; left; assumption|].
  destruct (Z.eqb_spec c 127); [exfalso; apply Hf; right; right; assumption|].
  reflexivity.
Qed.

Lemma check_chars_first prefix c fuel : forall i off s,
  (length s <= fuel)%nat ->
  s !! i = Some c -> forbidden c ->
  (forall j c', (j < i)%nat -> s !! j = Some c' -> ~ forbidden c') ->
  check_chars prefix (range_from fuel off s)
  = Some (offender_error prefix (off + i) c).
Proof.
  induction fuel as [|fuel IH]; intros i off s Hlen Hi Hf Hbefore.
  { destruct s; [discriminate | simpl in Hlen; lia]. }
  destruct s as [|b0 t]; [discriminate|].
  cbn [range_from]. pose proof (DecodeRune_cases b0 t) as Hc.
  destruct (DecodeRune (b0 :: t)) as [r w].
  destruct Hc as [(-> & Hb & ->)|(Hr & Hw & Hall)].
  - destruct i as [|i].
    + simpl in Hi. injection Hi as ->. rewrite Nat.add_0_r.
      apply check_chars_forbidden. assumption.
    + rewrite check_chars_skip by (apply (Hbefore 0%nat); [lia | reflexivity]).
      replace (off + S i)%nat with ((off + 1) + i)%nat by lia.
      apply IH.
      * simpl in *. rewrite length_drop. simpl. lia.
      * simpl. rewrite drop_0. exact Hi.
      * assumption.
      * intros j c' Hj Hc'. apply (Hbefore (S j)); [lia|].
        simpl in Hc'. rewrite drop_0 in Hc'. exact Hc'.
  - assert (Hwi : (w <= i)%nat).
    { destruct (Nat.le_gt_cases w i) as [|Hlt]; [assumption|]. exfalso.
      rewrite Forall_lookup in Hall. specialize (Hall i c).
      rewrite lookup_take_lt in Hall by assumption. specialize (Hall Hi).
      apply forbidden_ascii in Hf. lia. }
    rewrite check_chars_skip.
    2:{ unfold forbidden, forbidden_bytes.
        rewrite !elem_of_cons, elem_of_nil. intuition lia. }
    replace (off + i)%nat with ((off + w) + (i - w))%nat by lia.
    apply IH.
    + rewrite length_drop. simpl in *. lia.
    + rewrite lookup_drop. replace (w + (i - w))%nat with i by lia. exact Hi.
    + assumption.
    + intros j c' Hj Hc'. rewrite lookup_drop in Hc'.
      apply (Hbefore (w + j)%nat); [lia | exact Hc'].
Qed.

(** X11. When a byte of the prefix is a forbidden character, a control
    character or DEL, [validateFilePrefix] reports the first such byte:
    the error carries the byte offset of that character, the kind of the
    character decides the message, and white space at the ends is not
    looked at. Bytes of multi-byte runes before it are counted in the
    offset. *)
Theorem validateFilePrefix_first_offender (prefix : string) (i : nat) (c : Z) :
  bytes prefix !! i = Some c -> forbidden c ->
  (forall j c', (j < i)%nat -> bytes prefix !! j = Some c' -> ~ forbidden c') ->
  validateFilePrefix prefix = Some (offender_error prefix i c).
Proof.
  intros Hi Hf Hbefore. unfold validateFilePrefix.
  destruct (String.eqb_spec prefix "") as [->|Hne]; [discriminate|].
  unfold range.
  rewrite (check_chars_first prefix c (length (bytes prefix)) i 0 (bytes prefix)
             (Nat.le_refl _) Hi Hf Hbefore).
  reflexivity.
Qed.

Lemma validateFilePrefix_first_offender_witness :
  validateFilePrefix " ab:c/d"
  = Some (Errorf
      "file prefix contains invalid character '%c' at position %d: %q"
      [ARune 58; AInt 3; AStr " ab:c/d"]).
Proof.
  apply (validateFilePrefix_first_offender " ab:c/d" 3 58).
  - reflexivity.
  - left. unfold forbidden_bytes. set_solver.
  - intros [|[|[|j]]] c' Hj Hc'; [| | |lia]; vm_compute in Hc';
      injection Hc' as <-; unfold forbidden, forbidden_bytes;
      rewrite !elem_of_cons, elem_of_nil; intuition lia.
Defined.

(** ** Azure storage *)

Section Azure.
Variable M : StorageModels.
Variable isBackup : bool.

Lemma AzureBlob_Validate_None (a : AzureBlob M) :
  AzureBlob_Validate M a isBackup = None <-> azure_fields_valid a isBackup.
Proof.
  unfold AzureBlob_Validate, azure_fields_valid.
  destruct (String.eqb_spec (az_ContainerName a) "") as [?|?];
    [split; [discriminate | tauto]|].
  destruct (String.eqb_spec (az_Endpoint a) "") as [?|?];
    [split; [discriminate | tauto]|].
  destruct (Z.ltb_spec (az_RetryMaxAttempts a) 0);
    [split; [discriminate | intros (_ & _ & ? & _); lia]|].
  destruct (Z.ltb_spec (az_RetryDelay a) 0);
    [split; [discriminate | intros (_ & _ & _ & ? & _); lia]|].
  destruct (Z.ltb_spec (az_RetryMaxDelay a) 0);
    [split; [discriminate | intros (_ & _ & _ & _ & ? & _); lia]|].
  destruct isBackup.
  - destruct (Z.ltb_spec (az_BlockSize a) 1);
      [split; [discriminate | intros (_ & _ & _ & _ & _ & [? ?] & _); lia]|].
    destruct (Z.ltb_spec (az_UploadConcurrency a) 1);
      [split; [discriminate | intros (_ & _ & _ & _ & _ & [? ?] & _); lia]|].
    destruct (StorageCommon_Validate M (Azure_StorageCommon a) true);
      [split; [discriminate
              | intros (_ & _ & _ & _ & _ & _ & ?); discriminate]|].
    split; [intros _; split_conj; auto | reflexivity].
  - destruct (Z.ltb_spec (az_RestorePollDuration a) 1);
      [split; [discriminate | intros (_ & _ & _ & _ & _ & ? & _); lia]|].
    destruct (StorageCommon_Validate M (Azure_StorageCommon a) false);
      [split; [discriminate
              | intros (_ & _ & _ & _ & _ & _ & ?); discriminate]|].
    split; [intros _; split_conj; auto | reflexivity].
Qed.

Lemma ValidateStorages_None awsS3 gcpStorage azureBlob local :
  ValidateStorages M isBackup awsS3 gcpStorage azureBlob local = None ->
  (local_valid M isBackup local
   /\ valid_if_configured (AwsS3_IsConfigured M)
        (fun a => AwsS3_Validate M a isBackup) awsS3
   /\ valid_if_configured (GcpStorage_IsConfigured M)
        (fun g => GcpStorage_Validate M g isBackup) gcpStorage
   /\ valid_if_configured (AzureBlob_IsConfigured M)
        (fun a => AzureBlob_Validate M a isBackup) azureBlob)
  /\ configured_count M awsS3 gcpStorage azureBlob <= 1.
Proof.
  unfold local_valid, valid_if_configured, configured_count, ValidateStorages,
    provider.
  destruct local as [l|];
    [destruct (Local_Validate M l isBackup); [discriminate|]|];
    destruct awsS3 as [a|], gcpStorage as [g|], azureBlob as [z|];
    cbn [AwsS3_IsConfigured GcpStorage_IsConfigured AzureBlob_IsConfigured];
    repeat match goal with
    | |- context [if ?c then _ else _] => destruct c eqn:?
    | |- context [match ?v with Some _ => _ | None => _ end] => destruct v eqn:?
    end; intros H; try discriminate; repeat split; (congruence || lia).
Qed.

(** X12. When [ValidateStorages] passes with an Azure configuration
    that has one of its identifying fields set, that configuration has a
    container name and an endpoint, retry values that are not negative,
    a block size and an upload concurrency of at least 1 for a backup (a
    poll duration of at least 1 for a restore) and a valid common part;
    and no identifying field of S3 or of GCP is set. *)
Theorem ValidateStorages_azure (awsS3 : option (AwsS3 M))
    (gcpStorage : option (GcpStorage M)) (a : AzureBlob M)
    (local : option (Local M)) :
  ValidateStorages M isBackup awsS3 gcpStorage (Some a) local = None ->
  AzureBlob_IsConfigured M (Some a) = true ->
  azure_fields_valid a isBackup
  /\ s3_unset M awsS3 /\ gcp_unset M gcpStorage.
Proof.
  intros H Hc. apply ValidateStorages_None in H.
  destruct H as [(_ & _ & _ & Hz) Hcount]. split.
  - apply AzureBlob_Validate_None. exact (Hz Hc).
  - unfold configured_count in Hcount. rewrite Hc in Hcount.
    assert (Hs : AwsS3_IsConfigured M awsS3 = false)
      by (destruct (AwsS3_IsConfigured M awsS3),
            (GcpStorage_IsConfigured M gcpStorage); try lia; auto).
    assert (Hg : GcpStorage_IsConfigured M gcpStorage = false)
      by (destruct (AwsS3_IsConfigured M awsS3),
            (GcpStorage_IsConfigured M gcpStorage); try lia; auto).
    clear Hcount. split.
    + destruct awsS3 as [s|]; [|exact I]. simpl in Hs |- *.
      rewrite !orb_false_iff, !nonempty_false in Hs. tauto.
    + destruct gcpStorage as [g|]; [|exact I]. simpl in Hg |- *.
      rewrite !orb_false_iff, !nonempty_false in Hg. tauto.
Qed.

(** X13. An Azure configuration that [AzureBlob.Validate] accepts is
    one that [IsConfigured] counts: validation asks for the container
    name, which is one of the identifying fields. *)
Theorem AzureBlob_Validate_configured (a : AzureBlob M) :
  AzureBlob_Validate M a isBackup = None ->
  AzureBlob_IsConfigured M (Some a) = true.
Proof.
  intros H. apply AzureBlob_Validate_None in H. destruct H as (Hn & _).
  unfold AzureBlob_IsConfigured. apply nonempty_true in Hn. rewrite Hn.
  reflexivity.
Qed.
End Azure.

Lemma ValidateStorages_azure_witness :
  azure_fields_valid azure_backup true.
Proof.
  apply (ValidateStorages_azure named_storages true (Some "") None azure_backup
           (Some "dir")).
  - reflexivity.
  - reflexivity.
Defined.

Lemma AzureBlob_Validate_configured_witness :
  AzureBlob_IsConfigured named_storages (Some azure_backup) = true.
Proof.
  apply (AzureBlob_Validate_configured named_storages true azure_backup).
  reflexivity.
Defined.

(** ** The assembled backup configuration *)

Section AssemblerFields.
Variable G : Engine.
Variable E : TimeEnv.
Variable c0 : ConfigBackup G E.
Variable p0 : ScanPolicy G.

(** What a configuration that [newBackupConfig] returns holds, field by
    field. *)
Lemma newBackupConfig_Ok_inv (config : BackupServiceConfig G)
    (c : ConfigBackup G E) :
  newBackupConfig G E c0 p0 config = Ok c ->
  exists b,
    cfg_Backup config = Some b
    /\ cb_FileLimit c
       = (if IsStdout config || nonempty (OutputFile b) then 0
          else wrapU64 (wrapU64 (FileLimit b * 1024) * 1024))
    /\ cb_ParallelWrite c
       = (if IsStdout config || nonempty (OutputFile b) then 1
          else Parallel (Backup_Common b))
    /\ cb_ParallelRead c = Parallel (Backup_Common b)
    /\ cb_Bandwidth c
       = wrap64 (wrap64 (Bandwidth (Backup_Common b) * 1024) * 1024)
    /\ (if nonempty (RackList b) then Racks G b else Ok (cb_RackList c0))
       = Ok (cb_RackList c)
    /\ cb_StateFile c
       = (if nonempty (StateFileDst b)
          then path_Join G (Directory (Backup_Common b)) (StateFileDst b)
          else if nonempty (Continue b)
          then path_Join G (Directory (Backup_Common b)) (Continue b)
          else cb_StateFile c0)
    /\ cb_Continue c = (if nonempty (Continue b) then true else cb_Continue c0)
    /\ cb_PageSize c
       = (if nonempty (StateFileDst b) || nonempty (Continue b)
          then ScanPageSize b else cb_PageSize c0)
    /\ cb_NodeList c
       = (if nonempty (NodeList b) then Nodes b else cb_NodeList c0)
    /\ PartitionFilters G b = Ok (cb_PartitionFilters c)
    /\ (exists sp, Backup_ScanPolicy G p0 b = Ok sp /\ cb_ScanPolicy c = Some sp)
    /\ (if nonempty (ModifiedBefore b)
        then exists t, ModifiedBeforeTime E b = Ok t /\ cb_ModBefore c = Some t
        else cb_ModBefore c = cb_ModBefore c0)
    /\ (if nonempty (ModifiedAfter b)
        then exists t, ModifiedAfterTime E b = Ok t /\ cb_ModAfter c = Some t
        else cb_ModAfter c = cb_ModAfter c0)
    /\ cb_Namespace c = Namespace (Backup_Common b)
    /\ cb_SetList c = Sets b /\ cb_BinList c = Bins b
    /\ cb_MetricsEnabled c = true.
Proof.
  unfold newBackupConfig.
  destruct (cfg_Backup config) as [b|]; [|discriminate].
  intros H. exists b. split; [reflexivity|].
  destruct (IsStdout config || nonempty (OutputFile b));
  destruct (if nonempty (RackList b) then Racks G b else Ok (cb_RackList c0))
    as [racks|]; try discriminate;
  destruct (nonempty (Continue b)), (nonempty (StateFileDst b));
  destruct (PartitionFilters G b) as [pf|]; try discriminate;
  destruct (Backup_ScanPolicy G p0 b) as [sp|]; try discriminate;
  destruct (nonempty (ModifiedBefore b));
  try (destruct (ModifiedBeforeTime E b) as [tb|]; try discriminate);
  destruct (nonempty (ModifiedAfter b));
  try (destruct (ModifiedAfterTime E b) as [ta|]; try discriminate);
  cbv beta iota zeta in H; injection H as <-; cbn;
  split_conj; try reflexivity; eauto.
Qed.

(** X14. In an assembled configuration the state file and the page
    size come from the [Backup] exactly when [ShouldSaveState] holds: the
    page size is the scan page size and the state file is state-file-dst
    under the directory, or, without state-file-dst, the continue file
    under the directory; otherwise state file, page size and continue
    flag keep their defaults. A continue file sets the continue flag. For
    a [Backup] that [Validate] accepted and that has a continue file, the
    state file is that file. *)
Theorem newBackupConfig_state_file (config : BackupServiceConfig G)
    (b : Backup) (c : ConfigBackup G E) :
  cfg_Backup config = Some b ->
  newBackupConfig G E c0 p0 config = Ok c ->
  (ShouldSaveState b = true ->
     cb_PageSize c = ScanPageSize b
     /\ (StateFileDst b <> "" ->
         cb_StateFile c
         = path_Join G (Directory (Backup_Common b)) (StateFileDst b))
     /\ (StateFileDst b = "" ->
         cb_StateFile c
         = path_Join G (Directory (Backup_Common b)) (Continue b)))
  /\ (ShouldSaveState b = false ->
      cb_StateFile c = cb_StateFile c0 /\ cb_PageSize c = cb_PageSize c0
      /\ cb_Continue c = cb_Continue c0)
  /\ (Continue b <> "" -> cb_Continue c = true)
  /\ (forall Common_Validate,
        Backup_Validate Common_Validate (Some b) = None ->
        Continue b <> "" ->
        cb_StateFile c
        = path_Join G (Directory (Backup_Common b)) (Continue b)).
Proof.
  intros Hb Hc. apply newBackupConfig_Ok_inv in Hc.
  destruct Hc as (b' & Hb' & _ & _ & _ & _ & _ & Hsf & Hco & Hps & _).
  rewrite Hb in Hb'. injection Hb' as <-.
  unfold ShouldSaveState. rewrite Hsf, Hco, Hps. split_conj.
  - intros Hs. rewrite Hs. split_conj; [reflexivity | |].
    + intros H. apply nonempty_true in H. now rewrite H.
    + intros H. apply nonempty_false in H. rewrite H in Hs |- *.
      simpl in Hs. now rewrite Hs.
  - intros Hs. rewrite Hs. apply orb_false_iff in Hs. destruct Hs as [-> ->].
    auto.
  - intros H. apply nonempty_true in H. now rewrite H.
  - intros CV Hv Hcont. apply Backup_Validate_None_checks in Hv.
    unfold checks in Hv. rewrite !Forall_cons in Hv.
    destruct Hv as (_ & _ & _ & _ & _ & H6 & H7 & _).
    destruct (proj1 (check_continue_None b) (conj H6 H7) Hcont) as [Hs _].
    apply nonempty_false in Hs. apply nonempty_true in Hcont.
    now rewrite Hs, Hcont.
Qed.

Lemma wrapU64_scale x :
  wrapU64 (wrapU64 (x * 1024) * 1024) = (x * 1048576) mod 2 ^ 64.
Proof.
  unfold wrapU64. rewrite Z.mul_mod_idemp_l by lia. f_equal. lia.
Qed.

Lemma wrap64_scale x :
  - 2 ^ 43 <= x < 2 ^ 43 ->
  wrap64 (wrap64 (x * 1024) * 1024) = x * 1048576.
Proof.
  intros H. rewrite (wrap64_id (x * 1024)) by lia. rewrite wrap64_id by lia. lia.
Qed.

(** X15. With no output file (a directory backup), the assembled
    configuration writes and reads with the parallelism of the [Backup],
    and its file limit is the limit in MiB times 1048576, reduced modulo
    2^64: the exact number of bytes for a limit below 2^44 MiB. The
    bandwidth is the bandwidth in MiB times 1048576 for a value between
    -2^43 and 2^43. *)
Theorem newBackupConfig_directory_output (config : BackupServiceConfig G)
    (b : Backup) (c : ConfigBackup G E) :
  cfg_Backup config = Some b ->
  OutputFile b = "" ->
  newBackupConfig G E c0 p0 config = Ok c ->
  cb_ParallelWrite c = Parallel (Backup_Common b)
  /\ cb_ParallelRead c = Parallel (Backup_Common b)
  /\ cb_FileLimit c = (FileLimit b * 1048576) mod 2 ^ 64
  /\ (0 <= FileLimit b < 2 ^ 44 -> cb_FileLimit c = FileLimit b * 1048576)
  /\ (- 2 ^ 43 <= Bandwidth (Backup_Common b) < 2 ^ 43 ->
      cb_Bandwidth c = Bandwidth (Backup_Common b) * 1048576).
Proof.
  intros Hb Hout Hc. apply newBackupConfig_Ok_inv in Hc.
  destruct Hc as (b' & Hb' & Hfl & Hpw & Hpr & Hbw & _).
  rewrite Hb in Hb'. injection Hb' as <-.
  assert (Hstd : IsStdout config || nonempty (OutputFile b) = false).
  { unfold IsStdout. rewrite Hb, Hout. reflexivity. }
  rewrite Hstd in Hfl, Hpw. rewrite wrapU64_scale in Hfl.
  split_conj; try assumption.
  - intros Hr. rewrite Hfl. apply Z.mod_small. lia.
  - intros Hr. rewrite Hbw. apply wrap64_scale. exact Hr.
Qed.

Lemma parseLocalTimeToUTC_date (location : Location E) y mo d :
  LoadLocation E "Local" = Ok location ->
  digits4 y -> digits2 mo -> digits2 d ->
  parsed_as E location (date_string y mo d) y mo d 0 0 0.
Proof.
  intros Hloc Hy Hmo Hd. unfold parsed_as, parseLocalTimeToUTC. rewrite Hloc.
  rewrite (not_MatchString expDateTime) by (simpl; lia).
  rewrite (not_MatchString expTimeOnly) by (simpl; lia).
  assert (M3 : MatchString expDateOnly (date_string y mo d) = true).
  { apply expDateOnly_iff. exists y, mo, d. auto. }
  rewrite M3. apply parse_normalized; unfold digits2; auto; lia.
Qed.

(** X16. A configuration is assembled from a modified-before value of
    the shape YYYY-MM-DD only when the value is a day of the calendar;
    its modified-before time is then midnight of that day in the local
    zone, given in UTC. *)
Theorem newBackupConfig_modified_before (config : BackupServiceConfig G)
    (b : Backup) (c : ConfigBackup G E) (location : Location E) (y mo d : Z) :
  LoadLocation E "Local" = Ok location ->
  cfg_Backup config = Some b ->
  digits4 y -> digits2 mo -> digits2 d ->
  ModifiedBefore b = date_string y mo d ->
  newBackupConfig G E c0 p0 config = Ok c ->
  valid_civil y mo d 0 0 0 = true
  /\ cb_ModBefore c = Some (UTC E (Date E y mo d 0 0 0 location)).
Proof.
  intros Hloc Hb Hy Hmo Hd Hs Hc. apply newBackupConfig_Ok_inv in Hc.
  destruct Hc
    as (b' & Hb' & _ & _ & _ & _ & _ & _ & _ & _ & _ & _ & _ & Hmb & _).
  rewrite Hb in Hb'. injection Hb' as <-.
  unfold ModifiedBeforeTime in Hmb. rewrite Hs in Hmb.
  change (nonempty (date_string y mo d)) with true in Hmb.
  destruct Hmb as (t & Ht & Hc).
  pose proof (parseLocalTimeToUTC_date location y mo d Hloc Hy Hmo Hd) as Hp.
  unfold parsed_as in Hp. destruct (valid_civil y mo d 0 0 0).
  - split; [reflexivity|]. congruence.
  - destruct Hp as [err Hp]. congruence.
Qed.

(** X17. A configuration assembled from a [Backup] with a rack list
    holds one rack id per token of the list, each read by [strconv.Atoi]
    and between 0 and [MaxRack], and its scan policy reads from the
    master replica. *)
Theorem newBackupConfig_racks (config : BackupServiceConfig G)
    (b : Backup) (c : ConfigBackup G E) :
  cfg_Backup config = Some b ->
  RackList b <> "" ->
  newBackupConfig G E c0 p0 config = Ok c ->
  Forall2 (valid_rack G) (SplitByComma (RackList b)) (cb_RackList c)
  /\ exists sp, cb_ScanPolicy c = Some sp /\ sp_ReplicaPolicy sp = MASTER.
Proof.
  intros Hb Hr Hc. apply newBackupConfig_Ok_inv in Hc.
  destruct Hc
    as (b' & Hb' & _ & _ & _ & _ & Hracks & _ & _ & _ & _ & _ & Hsp & _).
  rewrite Hb in Hb'. injection Hb' as <-.
  apply nonempty_true in Hr. rewrite Hr in Hracks. split.
  - unfold Racks in Hracks. apply parse_racks_Ok in Hracks.
    destruct Hracks as (l' & -> & H). exact H.
  - destruct Hsp as (sp & Hsp & Hcsp). exists sp. split; [exact Hcsp|].
    rewrite (Backup_ScanPolicy_Ok_replica G p0 sp b Hsp), Hr. reflexivity.
Qed.
(** X18. An assembled configuration names the sets, the bins and (when
    a node list is given) the nodes of the [Backup], none lost and none
    added: joined with commas, each list is the string it was split from.
    The namespace is the one of the [Backup], without a node list the
    default node list stays, and metrics are always enabled. *)
Theorem newBackupConfig_lists (config : BackupServiceConfig G)
    (b : Backup) (c : ConfigBackup G E) :
  cfg_Backup config = Some b ->
  newBackupConfig G E c0 p0 config = Ok c ->
  cb_Namespace c = Namespace (Backup_Common b)
  /\ Join (cb_SetList c) "," = SetList (Backup_Common b)
  /\ Join (cb_BinList c) "," = BinList (Backup_Common b)
  /\ (NodeList b <> "" -> Join (cb_NodeList c) "," = NodeList b)
  /\ (NodeList b = "" -> cb_NodeList c = cb_NodeList c0)
  /\ cb_MetricsEnabled c = true.
Proof.
  intros Hb Hc. apply newBackupConfig_Ok_inv in Hc.
  destruct Hc as (b' & Hb' & _ & _ & _ & _ & _ & _ & _ & _ & Hn & _ & _ & _
                  & _ & Hns & Hsets & Hbins & Hm).
  rewrite Hb in Hb'. injection Hb' as <-.
  assert (HJ : forall s, Join (SplitByComma s) "," = s).
  { intros s. unfold SplitByComma, Split_comma.
    destruct (String.eqb_spec s "") as [->|Hne]; [reflexivity|].
    rewrite Join_split_comma. apply append_nil. }
  rewrite Hns, Hsets, Hbins, Hn. unfold Sets, Bins, Nodes. split_conj; auto.
  - intros H. apply nonempty_true in H. rewrite H. apply HJ.
  - intros H. apply nonempty_false in H. now rewrite H.
Qed.
End AssemblerFields.

Lemma newBackupConfig_state_file_witness :
  exists c,
    newBackupConfig plain_engine utc_env plain_config plain_scan_policy
      (service_of resumed_backup) = Ok c
    /\ cb_StateFile c = "backups/state".
Proof.
  eexists. split; [reflexivity|].
  apply (newBackupConfig_state_file plain_engine utc_env plain_config
           plain_scan_policy (service_of resumed_backup) resumed_backup _
           eq_refl eq_refl).
  - reflexivity.
  - reflexivity.
Defined.

Lemma newBackupConfig_directory_output_witness :
  exists c,
    newBackupConfig plain_engine utc_env plain_config plain_scan_policy
      (service_of directory_backup) = Ok c
    /\ cb_FileLimit c = 262144000.
Proof.
  eexists. split; [reflexivity|].
  apply (newBackupConfig_directory_output plain_engine utc_env plain_config
           plain_scan_policy (service_of directory_backup) directory_backup _
           eq_refl eq_refl eq_refl).
  simpl. lia.
Defined.

Lemma newBackupConfig_modified_before_witness :
  exists c,
    newBackupConfig plain_engine utc_env plain_config plain_scan_policy
      (service_of dated_backup) = Ok c
    /\ cb_ModBefore c = Some (2024, 2, 29, 0, 0, 0).
Proof.
  eexists. split; [reflexivity|].
  apply (newBackupConfig_modified_before plain_engine utc_env plain_config
           plain_scan_policy (service_of dated_backup) dated_backup _ tt
           2024 2 29 eq_refl eq_refl);
    first [reflexivity | unfold digits4, digits2; lia].
Defined.

Lemma newBackupConfig_racks_witness :
  exists c,
    newBackupConfig decimal_engine utc_env decimal_config decimal_scan_policy
      (service_of rack_backup) = Ok c
    /\ Forall2 (valid_rack decimal_engine) ["1"; "20"] (cb_RackList c).
Proof.
  eexists. split; [reflexivity|].
  apply (newBackupConfig_racks decimal_engine utc_env decimal_config
           decimal_scan_policy (service_of rack_backup) rack_backup _
           eq_refl).
  - discriminate.
  - reflexivity.
Defined.

Lemma newBackupConfig_lists_witness :
  exists c,
    newBackupConfig plain_engine utc_env plain_config plain_scan_policy
      (service_of directory_backup) = Ok c
    /\ cb_Namespace c = "test".
Proof.
  eexists. split; [reflexivity|].
  apply (newBackupConfig_lists plain_engine utc_env plain_config
           plain_scan_policy (service_of directory_backup) directory_backup _
           eq_refl eq_refl).
Defined.

(** ** Log level *)

(** X19. [Config.Validate] rejects a level that is empty or all white
    space: it sets the level to the default "info" and then looks up the
    empty string, so it returns "invalid log level" with "info" as the
    level quoted. *)
Theorem Config_Validate_blank (unicode_lower : string -> string) (c : Config) :
  TrimSpace (Level c) = [] ->
  Config_Validate unicode_lower c
  = ({| Level := "info"; Verbose := Verbose c; JSON := JSON c;
        File := File c |},
     Some (Errorf "invalid log level %q (valid: debug, info, warn, error)"
                  [AStr "info"])).
Proof.
  intros H. unfold Config_Validate. rewrite H. reflexivity.
Qed.

Lemma Config_Validate_blank_witness :
  Config_Validate (fun s => s) blank
  = ({| Level := "info"; Verbose := true; JSON := false; File := "" |},
     Some (Errorf "invalid log level %q (valid: debug, info, warn, error)"
                  [AStr "info"])).
Proof.
  apply (Config_Validate_blank (fun s => s) blank). reflexivity.
Defined.

Lemma valid_level_cases lvl :
  lvl ∈ validLevelStrings ->
  lvl = "debug" \/ lvl = "info" \/ lvl = "warn" \/ lvl = "error".
Proof.
  unfold validLevelStrings.
  rewrite !elem_of_union, !elem_of_singleton. tauto.
Qed.

Lemma valid_level_fixed unicode_lower lvl :
  lvl ∈ validLevelStrings ->
  ToLower unicode_lower (string_of_bytes (TrimSpace lvl)) = lvl.
Proof.
  intros H. apply valid_level_cases in H.
  destruct H as [-> | [-> | [-> | ->]]]; reflexivity.
Qed.

(** X20. When [Config.Validate] succeeds, the level it leaves is the
    trimmed and lowered level, one of debug, info, warn and error, the
    other fields are unchanged, and validating the result again succeeds
    and changes nothing. When it fails, the trimmed and lowered level is
    none of the four and, unless that level is empty, the configuration
    is unchanged and the error quotes the level as it was given. *)
Theorem Config_Validate_outcome (unicode_lower : string -> string)
    (c c' : Config) (err : option error) :
  let lvl := ToLower unicode_lower (string_of_bytes (TrimSpace (Level c))) in
  Config_Validate unicode_lower c = (c', err) ->
  (err = None ->
     (lvl ∈ validLevelStrings) /\ Level c' = lvl
     /\ Verbose c' = Verbose c /\ JSON c' = JSON c /\ File c' = File c
     /\ Config_Validate unicode_lower c' = (c', None))
  /\ (err <> None ->
      (lvl ∉ validLevelStrings)
      /\ (lvl <> "" ->
          c' = c
          /\ err = Some (Errorf
                "invalid log level %q (valid: debug, info, warn, error)"
                [AStr (Level c)]))).
Proof.
  cbv zeta. unfold Config_Validate.
  set (lvl := ToLower unicode_lower (string_of_bytes (TrimSpace (Level c)))).
  destruct (bool_decide_reflect (lvl ∈ validLevelStrings)) as [Hin|Hnin];
    cbn [negb].
  - assert (Hne : String.eqb lvl "" = false).
    { apply valid_level_cases in Hin.
      destruct Hin as [-> | [-> | [-> | ->]]]; reflexivity. }
    rewrite Hne. intros [= <- <-]. split; [|congruence].
    intros _. cbn [Level Verbose JSON File]. split_conj; try reflexivity.
    + exact Hin.
    + rewrite (valid_level_fixed unicode_lower lvl Hin).
      rewrite Hne. rewrite bool_decide_eq_true_2 by exact Hin. reflexivity.
  - intros [= <- <-]. split; [discriminate|]. intros _. split; [exact Hnin|].
    intros Hne. apply String.eqb_neq in Hne. rewrite Hne. auto.
Qed.

Lemma Config_Validate_outcome_witness :
  Level (fst (Config_Validate (fun s => s) shouting)) = "warn".
Proof.
  apply (Config_Validate_outcome (fun s => s) shouting
           (fst (Config_Validate (fun s => s) shouting)) None).
  - reflexivity.
  - reflexivity.
Defined.

(** ** Secret references *)

Lemma HasPrefix_nonempty s :
  HasPrefix s secretsPrefix = true -> nonempty s = true.
Proof. destruct s; [discriminate | reflexivity]. Qed.

Lemma deferredCertValue_Set_reference (F : CertFlags)
    (d : deferredCertValue F) (ref : string) :
  HasPrefix ref secretsPrefix = true ->
  deferredCertValue_Set d ref
  = ({| pendingSecret := true; raw := ref; original := original d |}, None).
Proof. intros H. unfold deferredCertValue_Set. now rewrite H. Qed.

Lemma deferredCertValue_Set_pending (F : CertFlags)
    (d : deferredCertValue F) (val : string) :
  HasPrefix val secretsPrefix = false -> pendingSecret d = true ->
  deferredCertValue_Set d val
  = ({| pendingSecret := false; raw := "";
        original := CertFlag_of_string F val |}, None).
Proof. intros H Hp. unfold deferredCertValue_Set. now rewrite H, Hp. Qed.

(** X21. Setting a certificate flag to a secret reference succeeds
    without touching the certificate, and the flag then prints the
    reference. The next value that is not a reference is stored as the
    certificate itself, without [CertFlag.Set] (which would read it as a
    file name), and ends the pending state; a next value that is again a
    reference replaces the first and leaves the certificate as it was. *)
Theorem deferredCertValue_Set_resolved (F : CertFlags)
    (d : deferredCertValue F) (ref val : string) :
  HasPrefix ref secretsPrefix = true ->
  let '(d1, err1) := deferredCertValue_Set d ref in
  err1 = None /\ original d1 = original d
  /\ deferredCertValue_String d1 = ref
  /\ (HasPrefix val secretsPrefix = false ->
      deferredCertValue_Set d1 val
      = ({| pendingSecret := false; raw := "";
            original := CertFlag_of_string F val |}, None))
  /\ (HasPrefix val secretsPrefix = true ->
      deferredCertValue_Set d1 val
      = ({| pendingSecret := true; raw := val; original := original d |},
         None)).
Proof.
  intros Href. rewrite (deferredCertValue_Set_reference F d ref Href).
  split_conj; try reflexivity.
  - unfold deferredCertValue_String. cbn [raw].
    now rewrite (HasPrefix_nonempty ref Href).
  - intros Hv. now apply deferredCertValue_Set_pending.
  - intros Hv. now rewrite deferredCertValue_Set_reference.
Qed.

Lemma deferredCertValue_Set_resolved_witness :
  deferredCertValue_Set
    (fst (deferredCertValue_Set fresh_cert "secrets:tls:cafile"))
    "-----BEGIN CERTIFICATE-----"
  = ({| pendingSecret := false; raw := "";
        original := ("-----BEGIN CERTIFICATE-----" : CertFlag text_certs) |},
     None).
Proof.
  pose proof (deferredCertValue_Set_resolved text_certs fresh_cert
                "secrets:tls:cafile" "-----BEGIN CERTIFICATE-----" eq_refl)
    as H.
  destruct (deferredCertValue_Set fresh_cert "secrets:tls:cafile") as [d1 e1].
  destruct H as (_ & _ & _ & H & _). apply H. reflexivity.
Defined.

(** X22. A certificate flag that was set to a secret reference (without
    white space around it) is resolved by [parseValueWithSecretAgent]:
    when the agent returns a value for the reference, and the value is
    not itself a reference, the certificate becomes that value and
    nothing is left pending. *)
Theorem parseValueWithSecretAgent_deferred (F : CertFlags)
    (ParseSecret : string -> result string)
    (d : deferredCertValue F) (ref val name : string) :
  HasPrefix ref secretsPrefix = true ->
  string_of_bytes (TrimSpace ref) = ref ->
  ParseSecret ref = Ok val ->
  HasPrefix val secretsPrefix = false ->
  parseValueWithSecretAgent ParseSecret (fst (deferredCertValue_Set d ref)) name
  = ({| pendingSecret := false; raw := "";
        original := CertFlag_of_string F val |}, None).
Proof.
  intros Href Htrim Hparse Hval.
  rewrite (deferredCertValue_Set_reference F d ref Href). cbn [fst].
  unfold parseValueWithSecretAgent.
  cbn [Value_String Value_Set deferredCertValue_Value].
  unfold deferredCertValue_String. cbn [raw].
  pose proof (HasPrefix_nonempty ref Href) as Hne. rewrite Hne, Htrim.
  unfold nonempty in Hne. apply negb_true_iff in Hne. rewrite Hne, Href.
  cbn [negb]. rewrite Hparse.
  rewrite deferredCertValue_Set_pending by (assumption || reflexivity).
  reflexivity.
Qed.

Lemma parseValueWithSecretAgent_deferred_witness :
  parseValueWithSecretAgent one_secret
    (fst (deferredCertValue_Set fresh_cert "secrets:tls:cafile")) "tls-cafile"
  = ({| pendingSecret := false; raw := "";
        original := ("-----BEGIN CERTIFICATE-----" : CertFlag text_certs) |},
     None).
Proof.
  apply (parseValueWithSecretAgent_deferred text_certs one_secret fresh_cert
           "secrets:tls:cafile" "-----BEGIN CERTIFICATE-----" "tls-cafile");
    reflexivity.
Defined.

Lemma assign_same h p v : assign h p v p = v.
Proof. unfold assign. now rewrite Nat.eqb_refl. Qed.

Lemma assign_other h p v q : q <> p -> assign h p v q = h q.
Proof.
  intros Hne. unfold assign. apply Nat.eqb_neq in Hne. now rewrite Hne.
Qed.

Section ResolveSecrets.
Variable ParseSecret : string -> result string.

(** X23. [resolveSecretFields] never changes a string that does not
    start with "secrets:", whether it succeeds or fails and whether or
    not a pointer to the string is among the fields. *)
Theorem resolveSecretFields_keeps_plain (fields : list (option nat))
    (h h' : store) (err : option error) (p : nat) :
  resolveSecretFields ParseSecret fields h = (h', err) ->
  HasPrefix (h p) secretsPrefix = false ->
  h' p = h p.
Proof.
  revert h. induction fields as [|[field|] rest IH]; intros h Hr Hp.
  - injection Hr as <- _. reflexivity.
  - cbn [resolveSecretFields] in Hr.
    destruct (String.eqb (h field) ""); [now apply IH|].
    destruct (HasPrefix (h field) secretsPrefix) eqn:Hf; cbn [negb] in Hr;
      [|now apply IH].
    destruct (ParseSecret (h field)) as [resolved|e].
    + assert (Hne : p <> field) by (intros ->; congruence).
      rewrite (IH _ Hr); rewrite assign_other by assumption; auto.
    + injection Hr as <- _. reflexivity.
  - cbn [resolveSecretFields] in Hr. now apply IH.
Qed.

(** X24. When [resolveSecretFields] succeeds on pointers that are
    distinct, every field that held a secret reference holds what the
    secret agent returned for that reference, and every string that no
    field points to is unchanged. *)
Theorem resolveSecretFields_resolves (fields : list (option nat))
    (h h' : store) :
  NoDup (omap id fields) ->
  resolveSecretFields ParseSecret fields h = (h', None) ->
  forall p,
    (Some p ∈ fields -> HasPrefix (h p) secretsPrefix = true ->
     ParseSecret (h p) = Ok (h' p))
    /\ (Some p ∉ fields -> h' p = h p).
Proof.
  revert h. induction fields as [|[field|] rest IH]; intros h Hnd Hr p.
  - injection Hr as <-. split; [intros Hin; inversion Hin | reflexivity].
  - cbn in Hnd. apply NoDup_cons in Hnd. destruct Hnd as [Hnotin Hnd].
    assert (Hfield : Some field ∉ rest).
    { intros Hin. apply Hnotin. apply list_elem_of_omap.
      exists (Some field). auto. }
    cbn [resolveSecretFields] in Hr.
    assert (Hplain : HasPrefix (h field) secretsPrefix = false ->
              resolveSecretFields ParseSecret rest h = (h', None) ->
              (Some p ∈ Some field :: rest ->
               HasPrefix (h p) secretsPrefix = true ->
               ParseSecret (h p) = Ok (h' p))
              /\ (Some p ∉ Some field :: rest -> h' p = h p)).
    { intros Hf Hr0. destruct (IH h Hnd Hr0 p) as [IH1 IH2]. split.
      - intros Hin Hp. apply elem_of_cons in Hin.
        destruct Hin as [[= ->]|Hin]; [congruence | auto].
      - intros Hnin. apply not_elem_of_cons in Hnin. apply IH2. tauto. }
    destruct (String.eqb_spec (h field) "") as [He|He].
    { apply Hplain; [|assumption]. rewrite He. reflexivity. }
    destruct (HasPrefix (h field) secretsPrefix) eqn:Hf; cbn [negb] in Hr;
      [|now apply Hplain].
    destruct (ParseSecret (h field)) as [resolved|e] eqn:Hp; [|discriminate].
    destruct (IH _ Hnd Hr p) as [IH1 IH2].
    destruct (IH _ Hnd Hr field) as [_ IHf].
    specialize (IHf Hfield). rewrite assign_same in IHf.
    split.
    + intros Hin Hpre. apply elem_of_cons in Hin.
      destruct Hin as [[= ->]|Hin]; [congruence|].
      assert (Hne : p <> field) by (intros ->; contradiction).
      rewrite assign_other in IH1 by assumption. auto.
    + intros Hnin. apply not_elem_of_cons in Hnin. destruct Hnin as [Hne Hnin].
      rewrite (IH2 Hnin). apply assign_other. congruence.
  - cbn [resolveSecretFields] in Hr. cbn in Hnd.
    destruct (IH h Hnd Hr p) as [IH1 IH2]. split.
    + intros Hin. apply elem_of_cons in Hin.
      destruct Hin as [|Hin]; [discriminate | auto].
    + intros Hnin. apply not_elem_of_cons in Hnin. apply IH2. tauto.
Qed.

(** X25. When [resolveSecretFields] fails, one of the fields still
    holds a secret reference that the secret agent rejected, and the
    error quotes that reference and wraps the error of the agent. *)
Theorem resolveSecretFields_failure (fields : list (option nat))
    (h h' : store) (e : error) :
  resolveSecretFields ParseSecret fields h = (h', Some e) ->
  exists field err,
    Some field ∈ fields
    /\ HasPrefix (h' field) secretsPrefix = true
    /\ ParseSecret (h' field) = Err err
    /\ e = Errorf "failed to resolve secret %q: %w"
                  [AStr (h' field); AErr err].
Proof.
  revert h. induction fields as [|[field|] rest IH]; intros h Hr.
  - discriminate.
  - cbn [resolveSecretFields] in Hr.
    assert (Hrest : resolveSecretFields ParseSecret rest h = (h', Some e) ->
              exists field0 err,
                Some field0 ∈ Some field :: rest
                /\ HasPrefix (h' field0) secretsPrefix = true
                /\ ParseSecret (h' field0) = Err err
                /\ e = Errorf "failed to resolve secret %q: %w"
                              [AStr (h' field0); AErr err]).
    { intros Hr0. destruct (IH _ Hr0) as (f & err & Hin & H).
      exists f, err. split; [right; exact Hin | exact H]. }
    destruct (String.eqb (h field) ""); [now apply Hrest|].
    destruct (HasPrefix (h field) secretsPrefix) eqn:Hf; cbn [negb] in Hr;
      [|now apply Hrest].
    destruct (ParseSecret (h field)) as [resolved|err] eqn:Hp.
    + destruct (IH _ Hr) as (f & err & Hin & H).
      exists f, err. split; [right; exact Hin | exact H].
    + injection Hr as <- <-. exists field, err.
      split; [left | auto].
  - cbn [resolveSecretFields] in Hr.
    destruct (IH _ Hr) as (f & err & Hin & H).
    exists f, err. split; [right; exact Hin | exact H].
Qed.
End ResolveSecrets.

Lemma resolveSecretFields_keeps_plain_witness :
  fst (resolveSecretFields one_secret [Some 0%nat; None; Some 1%nat]
         three_fields) 0%nat = "admin".
Proof.
  apply (resolveSecretFields_keeps_plain one_secret
           [Some 0%nat; None; Some 1%nat] three_fields _ None 0%nat).
  - reflexivity.
  - reflexivity.
Defined.

Lemma resolveSecretFields_resolves_witness :
  one_secret "secrets:tls:cafile"
  = Ok (fst (resolveSecretFields one_secret [Some 0%nat; None; Some 1%nat]
               three_fields) 1%nat).
Proof.
  refine (proj1 (resolveSecretFields_resolves one_secret
                   [Some 0%nat; None; Some 1%nat] three_fields
                   (fst (resolveSecretFields one_secret
                           [Some 0%nat; None; Some 1%nat] three_fields))
                   _ eq_refl 1%nat) _ eq_refl).
  - cbn. apply NoDup_cons.
    split; [rewrite list_elem_of_singleton; discriminate | apply NoDup_singleton].
  - rewrite !elem_of_cons. right. right. left. reflexivity.
Defined.

Lemma resolveSecretFields_failure_witness :
  exists field err,
    Some field ∈ [Some 1%nat; Some 2%nat]
    /\ HasPrefix
         (fst (resolveSecretFields one_secret [Some 1%nat; Some 2%nat]
                 three_fields) field) secretsPrefix = true
    /\ one_secret
         (fst (resolveSecretFields one_secret [Some 1%nat; Some 2%nat]
                 three_fields) field) = Err err
    /\ Errorf "failed to resolve secret %q: %w"
              [AStr "secrets:aws:key";
               AErr (Errorf "secret %s not found" [AStr "secrets:aws:key"])]
       = Errorf "failed to resolve secret %q: %w"
                [AStr (fst (resolveSecretFields one_secret
                              [Some 1%nat; Some 2%nat] three_fields) field);
                 AErr err].
Proof.
  apply (resolveSecretFields_failure one_secret [Some 1%nat; Some 2%nat]
           three_fields). reflexivity.
Defined.
